(** * StatSector: the damage engine of [combat_entities.py]

    A shallow embedding of the classes [ArmorGrid], [Ship], [Shot],
    [AmmoTracker] and [Weapon], and the properties their specification
    states about them.

    Conventions of the embedding.
    - A Python object is a record; a method is a function that takes the
      record (or a state holding it) and returns the updated one.
    - [decimal.Decimal] values are rationals; every arithmetic operation
      of the module runs under [decimal.getcontext().prec = 6] and is
      rounded to six significant digits, half to even ([Decimal.round]).
      The exponent range of the context is not modelled.
    - numpy's [float64] arrays are lists of rationals and their
      arithmetic is exact.  Where numpy would answer [inf] or [nan] (a
      division by zero) the model stops with [Beyond].
    - A Python exception is a [Raise]; state mutated before it survives. *)

From Stdlib Require Import ZArith QArith Qround Qabs Qpower Lia Lqa Ascii String List.
From stdpp Require Import base option gmap strings list.

Open Scope Q_scope.

(** ** Python values, exceptions and results *)

Inductive exn : Type :=
  | KeyError
  | TypeError
  | ValueError
  | ZeroDivisionError
  | InvalidOperation
  | UnboundLocalError
  | IndexError
  | NameError.

(** The result of running a piece of Python.  [Beyond] is not a Python
    outcome: it marks a computation that leaves the modelled fragment
    (a binary float appears in Decimal code, or numpy divides by zero). *)
Inductive res (A : Type) : Type :=
  | Ok (a : A)
  | Raise (e : exn)
  | Beyond.
Arguments Ok {A} a.
Arguments Raise {A} e.
Arguments Beyond {A}.

#[global] Instance res_ret : MRet res := @Ok.
#[global] Instance res_bind : MBind res := λ A B f r,
  match r with
  | Ok a => f a
  | Raise e => Raise e
  | Beyond => Beyond
  end.

(** The scalars of a record the loader produces ([database.py] types
    every column as [str], [int] or [Decimal]; its single [bool] column
    is not read here). *)
Inductive PyVal : Type :=
  | VInt (z : Z)
  | VDec (q : Q)
  | VStr (s : string).

(** ** Decimal arithmetic under [prec = 6] *)

Module Decimal.

(** Nearest integer, ties to the even one (ROUND_HALF_EVEN). *)
Definition half_even (x : Q) : Z :=
  let f := Qfloor x in
  match Qcompare (x - inject_Z f) (1 # 2) with
  | Lt => f
  | Gt => (f + 1)%Z
  | Eq => if Z.even f then f else (f + 1)%Z
  end.

Fixpoint log10_aux (fuel : nat) (n : Z) : Z :=
  match fuel with
  | O => 0%Z
  | S fuel' => if (n <? 10)%Z then 0%Z else (1 + log10_aux fuel' (n / 10))%Z
  end.

(** [floor (log10 n)] for [n >= 1]. *)
Definition Zlog10 (n : Z) : Z := log10_aux (Z.to_nat (Z.log2 n)) n.

(** The adjusted exponent of a nonzero [x]: [floor (log10 |x|)]. *)
Definition adjusted (x : Q) : Z :=
  let e := (Zlog10 (Z.abs (Qnum x)) - Zlog10 (Zpos (Qden x)))%Z in
  if Qle_bool (10 ^ e) (Qabs x) then e else (e - 1)%Z.

Definition prec : Z := 6.

(** What the context does to the exact result of an operation. *)
Definition round (x : Q) : Q :=
  if Qeq_bool x 0 then 0
  else let q := (adjusted x - (prec - 1))%Z in
       inject_Z (half_even (x / 10 ^ q)) * 10 ^ q.

Definition add (x y : Q) : Q := round (x + y).
Definition sub (x y : Q) : Q := round (x - y).
Definition mul (x y : Q) : Q := round (x * y).

(** [x / y]: [DivisionByZero] is a [ZeroDivisionError]; [0 / 0]
    signals [InvalidOperation]. *)
Definition div (x y : Q) : res Q :=
  if Qeq_bool y 0 then
    if Qeq_bool x 0 then Raise InvalidOperation else Raise ZeroDivisionError
  else Ok (round (x / y)).

(** [int(d)] truncates toward zero. *)
Definition to_int (x : Q) : Z := Z.quot (Qnum x) (Zpos (Qden x)).

End Decimal.

(** ** Python operators on record scalars *)

Module Py.

Definition num (v : PyVal) : option Q :=
  match v with
  | VInt z => Some (inject_Z z)
  | VDec q => Some q
  | VStr _ => None
  end.

(** [a == b] never raises. *)
Definition eq (a b : PyVal) : bool :=
  match a, b with
  | VStr s, VStr t => String.eqb s t
  | VStr _, _ | _, VStr _ => false
  | VInt x, VInt y => Z.eqb x y
  | _, _ => match num a, num b with
            | Some x, Some y => Qeq_bool x y
            | _, _ => false
            end
  end.

(** [a > b]: numbers by value, strings by code point, a number
    against a string is a [TypeError]. *)
Definition gt (a b : PyVal) : res bool :=
  match a, b with
  | VStr s, VStr t => Ok (String.ltb t s)
  | _, _ => match num a, num b with
            | Some x, Some y => Ok (negb (Qle_bool x y))
            | _, _ => Raise TypeError
            end
  end.

(** [a >= b]. *)
Definition ge (a b : PyVal) : res bool :=
  match a, b with
  | VStr s, VStr t => Ok (String.leb t s)
  | _, _ => match num a, num b with
            | Some x, Some y => Ok (Qle_bool y x)
            | _, _ => Raise TypeError
            end
  end.

(** The builtin [max(a, b)]: [b] when [b > a], else [a]. *)
Definition max (a b : PyVal) : res PyVal :=
  c ← gt b a; Ok (if c : bool then b else a).

(** [a + b]: exact on two ints, rounded by the context as soon as a
    Decimal takes part, concatenation on two strings. *)
Definition add (a b : PyVal) : res PyVal :=
  match a, b with
  | VInt x, VInt y => Ok (VInt (x + y))
  | VStr s, VStr t => Ok (VStr (s ++ t))
  | _, _ => match num a, num b with
            | Some x, Some y => Ok (VDec (Decimal.add x y))
            | _, _ => Raise TypeError
            end
  end.

(** [a - b]. *)
Definition sub (a b : PyVal) : res PyVal :=
  match a, b with
  | VInt x, VInt y => Ok (VInt (x - y))
  | _, _ => match num a, num b with
            | Some x, Some y => Ok (VDec (Decimal.sub x y))
            | _, _ => Raise TypeError
            end
  end.

(** [a * d] for a Decimal [d]. *)
Definition mul_decimal (a : PyVal) (d : Q) : res Q :=
  match num a with
  | Some x => Ok (Decimal.mul x d)
  | None => Raise TypeError
  end.

(** [d + a] for a Decimal [d]. *)
Definition add_decimal (d : Q) (a : PyVal) : res Q :=
  match num a with
  | Some x => Ok (Decimal.add d x)
  | None => Raise TypeError
  end.

(** [a / b] where a Decimal takes part; the quotient of two ints is
    a binary float, which the model does not follow. *)
Definition truediv (a b : PyVal) : res Q :=
  match a, b with
  | VInt x, VInt y => if Z.eqb y 0 then Raise ZeroDivisionError else Beyond
  | _, _ => match num a, num b with
            | Some x, Some y => Decimal.div x y
            | _, _ => Raise TypeError
            end
  end.

(** Digits of a plain decimal literal, most significant first. *)
Fixpoint digits (s : string) (acc : Z) : option Z :=
  match s with
  | EmptyString => Some acc
  | String c s' =>
      let n := Z.of_nat (Ascii.nat_of_ascii c) in
      if ((48 <=? n) && (n <=? 57))%Z
      then digits s' (10 * acc + (n - 48))%Z
      else None
  end.

(** [int(v)].  For a string only the plain form, an optional sign and
    digits, is read; anything else is a [ValueError]. *)
Definition int (v : PyVal) : res Z :=
  match v with
  | VInt z => Ok z
  | VDec q => Ok (Decimal.to_int q)
  | VStr EmptyString => Raise ValueError
  | VStr (String c s' as s) =>
      let signed (neg : bool) (body : string) :=
        match body with
        | EmptyString => Raise ValueError
        | _ => match digits body 0 with
               | Some z => Ok (if neg then (- z)%Z else z)
               | None => Raise ValueError
               end
        end in
      if Ascii.eqb c "-"%char then signed true s'
      else if Ascii.eqb c "+"%char then signed false s'
      else signed false s
  end.

(** [data[key]] *)
Definition getitem (data : gmap string PyVal) (key : string) : res PyVal :=
  match data !! key with
  | Some v => Ok v
  | None => Raise KeyError
  end.

(** [key in data], for a string key. *)
Definition has_key (data : gmap string PyVal) (key : string) : bool :=
  bool_decide (is_Some (data !! key)).

(** [v in data], for any scalar [v]: the keys of a record are strings,
    so only a string can be one of them. *)
Definition contains (data : gmap string PyVal) (v : PyVal) : bool :=
  match v with
  | VStr s => has_key data s
  | _ => false
  end.

(** Truth value of a scalar and the short-circuit [a or b]. *)
Definition truthy (v : PyVal) : bool :=
  match v with
  | VInt z => negb (Z.eqb z 0)
  | VDec q => negb (Qeq_bool q 0)
  | VStr s => negb (String.eqb s "")
  end.

(** The test of [a or b] when [a] is already a truth value. *)
Definition or_test (a : bool) (b : PyVal) : bool :=
  if a then true else truthy b.

End Py.

(** ** numpy arrays of [float64] *)

Module Np.

(** Where a slice bound [i] falls in a sequence of length [n]. *)
Definition clip (n i : Z) : Z :=
  if (i <? 0)%Z then Z.max (i + n) 0 else Z.min i n.

(** [l[lo:hi]] *)
Definition slice {A} (lo hi : Z) (l : list A) : list A :=
  let n := Z.of_nat (length l) in
  take (Z.to_nat (clip n hi - clip n lo)) (drop (Z.to_nat (clip n lo)) l).

(** [l[lo:hi] = new], for [new] as long as the slice. *)
Definition set_slice {A} (lo hi : Z) (new l : list A) : list A :=
  let n := Z.of_nat (length l) in
  take (Z.to_nat (clip n lo)) l
  ++ new
  ++ drop (Z.to_nat (clip n lo) + length (slice lo hi l)) l.

(** [a[r0:r1, c0:c1]] *)
Definition slice2 (r0 r1 c0 c1 : Z) (a : list (list Q)) : list (list Q) :=
  map (slice c0 c1) (slice r0 r1 a).

Definition sum (l : list Q) : Q := foldr Qplus 0 l.
Definition sum2 (a : list (list Q)) : Q := sum (map sum a).

(** [np.maximum(x, y)] on two numbers *)
Definition maximum (x y : Q) : Q := if Qle_bool x y then y else x.

(** [x / y]: a zero divisor gives [inf] or [nan]. *)
Definition divide (x y : Q) : res Q :=
  if Qeq_bool y 0 then Beyond else Ok (x / y).

(** An operation on two arrays of one axis, with broadcasting. *)
Definition broadcast {A} (f : A → A → A) (u v : list A) : res (list A) :=
  if Nat.eqb (length u) (length v) then Ok (zip_with f u v)
  else match u, v with
       | [x], _ => Ok (map (f x) v)
       | _, [y] => Ok (map (λ x, f x y) u)
       | _, _ => Raise ValueError
       end.

(** The same on two axes: rows are paired, then each pair of rows. *)
Definition broadcast2 (f : Q → Q → Q) (a b : list (list Q))
  : res (list (list Q)) :=
  if Nat.eqb (length a) (length b) then mapM (λ p, broadcast f p.1 p.2) (zip a b)
  else match a, b with
       | [x], _ => mapM (broadcast f x) b
       | _, [y] => mapM (λ x, broadcast f x y) a
       | _, _ => Raise ValueError
       end.

Definition shape_is (rows cols : nat) (a : list (list Q)) : bool :=
  Nat.eqb (length a) rows && forallb (λ r, Nat.eqb (length r) cols) a.

End Np.

(** ** class ArmorGrid *)

Module ArmorGrid.

Definition _MINIMUM_ARMOR_FACTOR : Q := 5 # 100.
Definition _MINIMUM_DAMAGE_FACTOR : Q := 15 # 100.
Definition ARMOR_RATING_PER_CELL_FACTOR : Q := 1 / 15.
Definition POOLING_WEIGHTS : list (list Q) :=
  [[0;     1 # 2; 1 # 2; 1 # 2; 0    ];
   [1 # 2; 1;     1;     1;     1 # 2];
   [1 # 2; 1;     1;     1;     1 # 2];
   [1 # 2; 1;     1;     1;     1 # 2];
   [0;     1 # 2; 1 # 2; 1 # 2; 0    ]].
Definition DAMAGE_DISTRIBUTION : list (list Q) :=
  map (map (Qmult ARMOR_RATING_PER_CELL_FACTOR)) POOLING_WEIGHTS.

(** [cells] has five rows of [width + 4] columns: a numpy array
    is rectangular. *)
Record t : Type := mk {
  _minimum_armor : Q;
  cells : list (list Q);
  bounds : list Q
}.

Definition set_cells (c : list (list Q)) (g : t) : t :=
  mk (_minimum_armor g) c (bounds g).

(** [np.full] refuses a negative dimension; [np.arange(0, width)] is
    empty for [width <= 0]. *)
Definition __init__ (armor_rating cell_size : Q) (width : Z) : res t :=
  if (width + 4 <? 0)%Z then Raise ValueError
  else
    let armor_per_cell := armor_rating * ARMOR_RATING_PER_CELL_FACTOR in
    Ok (mk (_MINIMUM_ARMOR_FACTOR * armor_rating)
           (replicate 5 (replicate (Z.to_nat (width + 4)) armor_per_cell))
           (map (λ i, inject_Z (Z.of_nat i) * cell_size)
                (seq 0 (Z.to_nat width)))).

Definition _pool (index : Z) (g : t) : res Q :=
  weighted ← Np.broadcast2 Qmult POOLING_WEIGHTS
               (Np.slice2 0 5 index (index + 5) (cells g));
  Ok (Np.sum2 weighted).

(** [self.cells[2,2:-2]], the middle row without its padding. *)
Definition middle_row (g : t) : res (list Q) :=
  match cells g !! 2%nat with
  | Some row => Ok (Np.slice 2 (-2) row)
  | None => Raise IndexError
  end.

Definition _pooled_values (g : t) : res (list Q) :=
  row ← middle_row g;
  pooled ← mapM (λ i, _pool (Z.of_nat i) g) (seq 0 (length row));
  Ok (map (Np.maximum (_minimum_armor g)) pooled).

Definition damage_factors (hit_strength : Q) (g : t) : res (list Q) :=
  pooled ← _pooled_values g;
  mapM (λ p, ratio ← Np.divide p hit_strength;
             factor ← Np.divide 1 (1 + ratio);
             Ok (Np.maximum _MINIMUM_DAMAGE_FACTOR factor))
       pooled.

End ArmorGrid.

(** ** class Weapon: construction *)

Module Weapon.

(** [Decimal(0.05)]: the binary double nearest to 0.05, converted
    exactly (0.05000000000000000277...). *)
Definition MINIMUM_REFIRE_DELAY : PyVal :=
  VDec (3602879701896397 # 72057594037927936).

(** The attributes [__init__] sets.  [mode] is a string or [None];
    [hit_sequence], [shot] and [distribution] stay [None] and are
    left out. *)
Record t : Type := mk {
  data : gmap string PyVal;
  charge_up : PyVal;
  charge_down : PyVal;
  burst_size : PyVal;
  burst_delay : PyVal;
  ammo : PyVal;
  ammo_regen : PyVal;
  reload_size : PyVal;
  proj_speed : PyVal;
  mode : option string
}.

(** [self.mode == s] *)
Definition mode_is (m : option string) (s : string) : bool :=
  match m with
  | Some x => String.eqb x s
  | None => false
  end.

(** The block under [#determine mode]. *)
Definition determine_mode (data : gmap string PyVal) : res (option string) :=
  spec_class ← Py.getitem data "specClass";
  if Py.eq spec_class (VStr "projectile") then
    type ← Py.getitem data "type";
    if Py.or_test (Py.eq type (VStr "BALLISTIC")) (VStr "ENERGY")
    then Ok (Some "GUN"%string)
    else Ok (Some "MISSILE"%string)
  else
    spec_class ← Py.getitem data "specClass";
    if Py.eq spec_class (VStr "BEAM") then
      damage_shot ← Py.getitem data "damage/shot";
      if Py.contains data damage_shot
      then Ok (Some "BURST_BEAM"%string)
      else Ok (Some "CONTINUOUS_BEAM"%string)
    else Ok None.

Definition __init__ (data : gmap string PyVal) : res t :=
  charge_up ← Py.getitem data "chargeup";
  charge_down ← Py.getitem data "chargedown";
  burst_size ← Py.getitem data "burst size";
  burst_delay ← Py.getitem data "burst delay";
  ammo ← (if Py.has_key data "ammo"
          then v ← Py.getitem data "ammo"; z ← Py.int v; Ok (VInt z)
          else Ok (VStr "UNLIMITED"));
  ammo_regen ← (if Py.has_key data "ammo regen"
                then Py.getitem data "ammo regen" else Ok (VDec 0));
  reload_size ← (if Py.has_key data "reload size"
                 then Py.getitem data "reload size" else Ok (VDec 0));
  proj_speed ← Py.getitem data "proj speed";
  mode ← determine_mode data;
  burst_delay ← (positive ← Py.gt burst_delay (VInt 0);
                 if (positive : bool) || mode_is mode "BEAM"
                 then Py.max burst_delay MINIMUM_REFIRE_DELAY
                 else Ok burst_delay);
  if mode_is mode "GUN" then
    n ← Py.int burst_size;
    charge_down ← Py.max charge_down MINIMUM_REFIRE_DELAY;
    Ok (mk data charge_up charge_down (VInt n) burst_delay ammo ammo_regen
           reload_size proj_speed mode)
  else
    Ok (mk data charge_up charge_down burst_size burst_delay ammo ammo_regen
           reload_size proj_speed mode).

End Weapon.

(** ** State that survives an exception *)

Definition M (S A : Type) : Type := S → res A * S.

#[global] Instance M_ret {S} : MRet (M S) := λ A a s, (Ok a, s).
#[global] Instance M_bind {S} : MBind (M S) := λ A B k m s,
  match m s with
  | (Ok a, s') => k a s'
  | (Raise e, s') => (Raise e, s')
  | (Beyond, s') => (Beyond, s')
  end.

Definition get {S} : M S S := λ s, (Ok s, s).
Definition modify {S} (f : S → S) : M S unit := λ s, (Ok tt, f s).
Definition lift {S A} (r : res A) : M S A := λ s, (r, s).
Definition when {S} (c : bool) (m : M S unit) : M S unit :=
  if c then m else mret tt.

(** A method of an object held in a field of the state. *)
Definition zoom {S T A} (rd : S → T) (wr : T → S → S) (m : M T A) : M S A :=
  λ s, let '(r, t) := m (rd s) in (r, wr t s).

(** ** class Ship *)

Module Ship.

(** The attributes of a ship; [data], the record it was built from,
    is left out. *)
Record t : Type := mk {
  hull : Q;
  flux_capacity : Q;
  flux_dissipation : Q;
  armor_grid : ArmorGrid.t;
  weapons : list Weapon.t;
  hard_flux : Q;
  soft_flux : Q
}.

Definition set_hull (h : Q) (s : t) : t :=
  mk h (flux_capacity s) (flux_dissipation s) (armor_grid s) (weapons s)
     (hard_flux s) (soft_flux s).
Definition set_armor_grid (g : ArmorGrid.t) (s : t) : t :=
  mk (hull s) (flux_capacity s) (flux_dissipation s) g (weapons s)
     (hard_flux s) (soft_flux s).

Definition will_overload (s : t) : bool :=
  negb (Qle_bool (hard_flux s) (flux_capacity s))
  || negb (Qle_bool (soft_flux s) (flux_capacity s)).
Definition overloaded (s : t) : bool := will_overload s.
Definition shield_up (s : t) : bool := negb (overloaded s).

End Ship.

(** ** class Shot *)

Module Shot.

Definition DAMAGE_TYPE_DAMAGE_FACTORS : gmap string (gmap string Q) :=
  list_to_map
    [("KINETIC"%string,
      list_to_map [("shield"%string, 2); ("armor"%string, 1 # 2)]);
     ("HIGH_EXPLOSIVE"%string,
      list_to_map [("shield"%string, 1 # 2); ("armor"%string, 2)]);
     ("FRAGMENTATION"%string,
      list_to_map [("shield"%string, 1 # 4); ("armor"%string, 1 # 4)]);
     ("ENERGY"%string,
      list_to_map [("shield"%string, 1); ("armor"%string, 1)])].

(** The two caches are [None] until [distribute] fills them. *)
Record t : Type := mk {
  _damage : Q;
  _armor_damage_factor : Q;
  _shield_damage : Q;
  _armor_damage : Q;
  _strength : Q;
  _flux_hard : bool;
  _probabilities : option (list Q);
  _expected_armor_damage : option (list Q)
}.

Definition set__probabilities (p : list Q) (s : t) : t :=
  mk (_damage s) (_armor_damage_factor s) (_shield_damage s) (_armor_damage s)
     (_strength s) (_flux_hard s) (Some p) (_expected_armor_damage s).
Definition set__expected_armor_damage (e : list Q) (s : t) : t :=
  mk (_damage s) (_armor_damage_factor s) (_shield_damage s) (_armor_damage s)
     (_strength s) (_flux_hard s) (_probabilities s) (Some e).

(** [DAMAGE_TYPE_DAMAGE_FACTORS[damage_type][key]] *)
Definition factor (damage_type key : string) : res Q :=
  match DAMAGE_TYPE_DAMAGE_FACTORS !! damage_type with
  | Some factors => match factors !! key with
                    | Some f => Ok f
                    | None => Raise KeyError
                    end
  | None => Raise KeyError
  end.

Definition __init__ (damage : Q) (damage_type : string) (beam flux_hard : bool)
  : res t :=
  armor_damage_factor ← factor damage_type "armor";
  shield_factor ← factor damage_type "shield";
  let armor_damage := damage * armor_damage_factor in
  Ok (mk damage armor_damage_factor (damage * shield_factor) armor_damage
         (armor_damage * (if beam then 1 # 2 else 1)) flux_hard None None).

(** A shot and the ship it is fired at: the two objects the methods
    below read and write. *)
Record Combat : Type := mkCombat {
  shot : t;
  ship : Ship.t
}.

Definition on_shot {A} (m : M t A) : M Combat A :=
  zoom shot (λ x c, mkCombat x (ship c)) m.
Definition on_ship {A} (m : M Ship.t A) : M Combat A :=
  zoom ship (λ x c, mkCombat (shot c) x) m.
Definition on_armor_grid {A} (m : M ArmorGrid.t A) : M Ship.t A :=
  zoom Ship.armor_grid Ship.set_armor_grid m.

(** What a distribution function returns at a bound: a Python [int]
    or a [float]. *)
Inductive number : Type :=
  | NInt (z : Z)
  | NFloat (q : Q).

(** The value as a [float64], and as an [int64]: a float is truncated
    toward zero (values an [int64] cannot hold are not modelled). *)
Definition to_float (n : number) : Q :=
  match n with
  | NInt z => inject_Z z
  | NFloat q => q
  end.
Definition to_int64 (n : number) : Z :=
  match n with
  | NInt z => z
  | NFloat q => Z.quot (Qnum q) (Zpos (Qden q))
  end.

(** [np.vectorize(f)(a)]: without [otypes] it refuses an empty array,
    and the type of the value at the first element is the type of the
    whole result: after an [int] every value is cast to an integer. *)
Definition vectorize (f : Q → number) (a : list Q) : res (list Q) :=
  match a with
  | [] => Raise ValueError
  | x :: _ =>
      match f x with
      | NInt _ => Ok (map (λ y, inject_Z (to_int64 (f y))) a)
      | NFloat _ => Ok (map (λ y, to_float (f y)) a)
      end
  end.

Definition distribute (distribution : Q → number) : M Combat unit :=
  c ← get;
  probabilities ← lift (vectorize distribution
                          (ArmorGrid.bounds (Ship.armor_grid (ship c))));
  on_shot (modify (set__probabilities probabilities));;
  on_shot (modify (set__expected_armor_damage
                     (map (Qmult (_armor_damage (shot c))) probabilities))).

(** [armor_grid.cells[0:5,i:i+5] -= damage * DAMAGE_DISTRIBUTION]:
    the update is in place, so the 5 by 5 right-hand side has to
    have the shape of the window. *)
Definition damage_armor_grid (damage : Q) (i : Z) : M ArmorGrid.t unit :=
  g ← get;
  let rows := ArmorGrid.cells g in
  let window := Np.slice2 0 5 i (i + 5) rows in
  if Np.shape_is 5 5 window then
    modify (ArmorGrid.set_cells
      (Np.set_slice 0 5
         (zip_with
            (λ row kernel,
               Np.set_slice i (i + 5)
                 (zip_with (λ c d, c - damage * d) (Np.slice i (i + 5) row) kernel)
                 row)
            (Np.slice 0 5 rows) ArmorGrid.DAMAGE_DISTRIBUTION)
         rows))
  else lift (Raise ValueError).

(** [for i, damage in enumerate(damage_distribution)] from [i] on. *)
Fixpoint damage_loop (i : Z) (damage_distribution : list Q) : M ArmorGrid.t unit :=
  match damage_distribution with
  | [] => mret tt
  | damage :: rest =>
      damage_armor_grid damage i;;
      damage_loop (i + 1) rest
  end.

(** [None * a] for an array [a] of floats: the product of [None] and
    a float is a [TypeError]; an empty array has no element to
    multiply, and the product is the empty array. *)
Definition none_times (a : list Q) : res (list Q) :=
  match a with
  | [] => Ok []
  | _ :: _ => Raise TypeError
  end.

(** The builtin [max(0, x)]. *)
Definition max0 (x : Q) : Q := if Qle_bool x 0 then 0 else x.

Definition damage_ship : M Combat unit :=
  c ← get;
  factors ← lift (ArmorGrid.damage_factors (_strength (shot c))
                    (Ship.armor_grid (ship c)));
  damage_distribution ← lift (match _expected_armor_damage (shot c) with
                              | Some expected =>
                                  Np.broadcast Qmult expected factors
                              | None => none_times factors
                              end);
  on_ship (on_armor_grid (damage_loop 0 damage_distribution));;
  c ← get;
  let cells := ArmorGrid.cells (Ship.armor_grid (ship c)) in
  let negative := filter (λ x, negb (Qle_bool 0 x)) (concat cells) in
  hull_damage ← lift (Np.divide (Np.sum negative) (_armor_damage_factor (shot c)));
  on_ship (modify (Ship.set_hull (max0 (Ship.hull (ship c) + hull_damage))));;
  on_ship (on_armor_grid (modify (ArmorGrid.set_cells
                                    (map (map (Np.maximum 0)) cells)))).

End Shot.

(** ** class AmmoTracker *)

Module AmmoTracker.

(** [ammo_history] is not an attribute of the class: it records, most
    recent first, the value of [ammo] at construction, after every
    shot and after every call of [regenerate_ammo], so that properties
    of all intermediate states can be stated.  Nothing reads it. *)
Record t : Type := mk {
  weapon : Weapon.t;
  ammo : PyVal;
  ammo_regen_time : Q;
  ammo_regenerated : PyVal;
  ammo_regen_timer : Q;
  regenerating_ammo : bool;
  ammo_history : list PyVal
}.

Definition set_ammo (v : PyVal) (tr : t) : t :=
  mk (weapon tr) v (ammo_regen_time tr) (ammo_regenerated tr)
     (ammo_regen_timer tr) (regenerating_ammo tr) (ammo_history tr).
Definition record_ammo (tr : t) : t :=
  mk (weapon tr) (ammo tr) (ammo_regen_time tr) (ammo_regenerated tr)
     (ammo_regen_timer tr) (regenerating_ammo tr) (ammo tr :: ammo_history tr).
Definition set_ammo_regenerated (v : PyVal) (tr : t) : t :=
  mk (weapon tr) (ammo tr) (ammo_regen_time tr) v
     (ammo_regen_timer tr) (regenerating_ammo tr) (ammo_history tr).
Definition set_ammo_regen_timer (q : Q) (tr : t) : t :=
  mk (weapon tr) (ammo tr) (ammo_regen_time tr) (ammo_regenerated tr)
     q (regenerating_ammo tr) (ammo_history tr).
Definition set_regenerating_ammo (b : bool) (tr : t) : t :=
  mk (weapon tr) (ammo tr) (ammo_regen_time tr) (ammo_regenerated tr)
     (ammo_regen_timer tr) b (ammo_history tr).

Definition __init__ (weapon : Weapon.t) : res t :=
  regen_time ← Py.truediv (VInt 1) (Weapon.ammo_regen weapon);
  Ok (mk weapon (Weapon.ammo weapon) regen_time (VDec 0) 0 false
         [Weapon.ammo weapon]).

Definition should_regenerate_ammo (time : Q) (tr : t) : bool :=
  Qle_bool (ammo_regen_time tr) (Decimal.sub time (ammo_regen_timer tr)).

Definition regenerate_ammo (time : Q) : M t unit :=
  tr ← get;
  product ← lift (Py.mul_decimal (Weapon.ammo_regen (weapon tr))
                    (Decimal.sub time (ammo_regen_timer tr)));
  let amount := Decimal.to_int product in
  regenerated ← lift (Py.add (ammo_regenerated tr) (VInt amount));
  modify (set_ammo_regenerated regenerated);;
  step ← lift (Py.truediv (VInt amount) (Weapon.ammo_regen (weapon tr)));
  modify (set_ammo_regen_timer (Decimal.add (ammo_regen_timer tr) step));;
  full ← lift (Py.ge regenerated (Weapon.reload_size (weapon tr)));
  when full (
    credited ← lift (Py.add (ammo tr) regenerated);
    modify (set_ammo credited);;
    modify (set_ammo_regenerated (VInt 0)));;
  tr ← get;
  capped ← lift (Py.ge (ammo tr) (Weapon.ammo (weapon tr)));
  when capped (
    modify (set_ammo (Weapon.ammo (weapon tr)));;
    modify (set_regenerating_ammo false));;
  modify record_ammo.

End AmmoTracker.

(** ** class Weapon: the hit sequence of a gun *)

Module Gun.

(** The variables [_gun_hit_sequence] shares with its two nested
    functions, once [travel_time] and [ammo_tracker] are bound. *)
Record World : Type := mk {
  self : Weapon.t;
  ammo_tracker : AmmoTracker.t;
  time : Q;
  travel_time : Q;
  times : list Q
}.

Definition set_ammo_tracker (tr : AmmoTracker.t) (s : World) : World :=
  mk (self s) tr (time s) (travel_time s) (times s).
Definition set_time (q : Q) (s : World) : World :=
  mk (self s) (ammo_tracker s) q (travel_time s) (times s).
Definition append_times (q : Q) (s : World) : World :=
  mk (self s) (ammo_tracker s) (time s) (travel_time s) (times s ++ [q]).

Definition tracker {A} (m : M AmmoTracker.t A) : M World A :=
  zoom ammo_tracker set_ammo_tracker m.

Definition time_limit : Q := 100.
Definition time_interval : Q := 1.

(** [int(time_limit / time_interval)] *)
Definition time_intervals : Z :=
  Decimal.to_int (Decimal.round (time_limit / time_interval)).

(** [if ammo_tracker.should_regenerate_ammo(t):
       ammo_tracker.regenerate_ammo(t)] *)
Definition regenerate_if_due (t : Q) : M World unit :=
  s ← get;
  when (AmmoTracker.should_regenerate_ammo t (ammo_tracker s))
       (tracker (AmmoTracker.regenerate_ammo t)).

(** [range(n)] of a scalar: how many times the loop body runs. *)
Definition range (n : PyVal) : res nat :=
  match n with
  | VInt z => Ok (Z.to_nat z)
  | _ => Raise TypeError
  end.

(** The lines both shot patterns share:
    [ammo_tracker.ammo -= 1] and the start of regeneration at [t]. *)
Definition spend_ammo (t : Q) : M World unit :=
  s ← get;
  left ← lift (Py.sub (AmmoTracker.ammo (ammo_tracker s)) (VInt 1));
  tracker (modify (AmmoTracker.set_ammo left));;
  tracker (modify AmmoTracker.record_ammo);;
  when (negb (AmmoTracker.regenerating_ammo (ammo_tracker s)))
       (tracker (modify (AmmoTracker.set_ammo_regen_timer t));;
        tracker (modify (AmmoTracker.set_regenerating_ammo true))).

Fixpoint simultaneous_loop (n : nat) : M World unit :=
  match n with
  | O => mret tt
  | S n' =>
      s ← get;
      if Py.eq (AmmoTracker.ammo (ammo_tracker s)) (VInt 0)
      then simultaneous_loop n'
      else
        modify (append_times (Decimal.add (time s) (travel_time s)));;
        spend_ammo (time s);;
        simultaneous_loop n'
  end.

Definition _simultaneous_shots : M World unit :=
  s ← get;
  n ← lift (range (Weapon.burst_size (self s)));
  simultaneous_loop n.

(** [_successive_shots] assigns [time] ([time += self.burst_delay])
    without declaring it [nonlocal]: there [time] is a local of the
    nested function, unbound until that assignment.  [local_time] is
    that local. *)
Fixpoint successive_loop (n : nat) (local_time : option Q) : M World unit :=
  match n with
  | O => mret tt
  | S n' =>
      s ← get;
      if Py.eq (AmmoTracker.ammo (ammo_tracker s)) (VInt 0)
      then successive_loop n' local_time
      else
        match local_time with
        | None => lift (Raise UnboundLocalError)
        | Some t =>
            modify (append_times (Decimal.add t (travel_time s)));;
            t ← lift (Py.add_decimal t (Weapon.burst_delay (self s)));
            spend_ammo t;;
            regenerate_if_due t;;
            successive_loop n' (Some t)
        end
  end.

Definition _successive_shots : M World unit :=
  s ← get;
  n ← lift (range (Weapon.burst_size (self s)));
  successive_loop n None.

Definition shot_pattern : M World unit :=
  s ← get;
  if Py.eq (Weapon.burst_delay (self s)) (VInt 0)
  then _simultaneous_shots
  else _successive_shots.

(** One turn of [while time < time_limit]. *)
Definition cycle : M World unit :=
  s ← get;
  t ← lift (Py.add_decimal (time s) (Weapon.charge_up (self s)));
  modify (set_time t);;
  regenerate_if_due t;;
  shot_pattern;;
  s ← get;
  t ← lift (Py.add_decimal (time s) (Weapon.charge_down (self s)));
  modify (set_time t);;
  regenerate_if_due t.

(** The loop, with a bound on the number of turns: [None] when the
    bound is used up before the loop ends. *)
Fixpoint while_loop (fuel : nat) (s : World) : option (res unit * World) :=
  match fuel with
  | O => None
  | S fuel' =>
      if Qle_bool time_limit (time s) then Some (Ok tt, s)
      else match cycle s with
           | (Ok _, s') => while_loop fuel' s'
           | (r, s') => Some (r, s')
           end
  end.

(** The assignments before the loop. *)
Definition enter (w : Weapon.t) (distance : PyVal) : res World :=
  travel_time ← Py.truediv distance (Weapon.proj_speed w);
  ammo_tracker ← AmmoTracker.__init__ w;
  Ok (mk w ammo_tracker 0 travel_time []).

(** The returned list: its first entry, then one per [i] of
    [range(1, time_intervals)]. *)
Definition hit_counts (times : list Q) : list nat :=
  [length (filter (λ t, (0 <=? Decimal.to_int t)%Z
                        && Qle_bool (inject_Z (Decimal.to_int t)) time_interval)
                  times)]
  ++ map (λ i : Z,
            length (filter
              (λ t, negb (Qle_bool (inject_Z (Decimal.to_int t))
                                   (Decimal.mul (inject_Z (i - 1)) time_interval))
                    && Qle_bool (inject_Z (Decimal.to_int t))
                                (Decimal.mul (inject_Z i) time_interval))
              times))
         (map Z.of_nat (seq 1 (Z.to_nat time_intervals - 1))).

(** The call: its result and the weapon object after it. *)
Definition _gun_hit_sequence (fuel : nat) (w : Weapon.t) (distance : PyVal)
  : option (res (list nat) * Weapon.t) :=
  match enter w distance with
  | Ok s0 =>
      match while_loop fuel s0 with
      | Some (r, s) => Some (_ ← r; Ok (hit_counts (times s)), self s)
      | None => None
      end
  | Raise e => Some (Raise e, w)
  | Beyond => Some (Beyond, w)
  end.

(** [_hit_sequence]: only the gun branch is complete; both beam
    branches read the undefined global [beam_tick]; any other mode
    falls off the end and returns [None]. *)
Definition _hit_sequence (fuel : nat) (w : Weapon.t) (distance : PyVal)
  : option (res (option (list nat)) * Weapon.t) :=
  if Weapon.mode_is (Weapon.mode w) "GUN" then
    match _gun_hit_sequence fuel w distance with
    | Some (r, w') => Some (l ← r; Ok (Some l), w')
    | None => None
    end
  else if Weapon.mode_is (Weapon.mode w) "CONTINUOUS_BEAM" then
    Some (Raise NameError, w)
  else if Weapon.mode_is (Weapon.mode w) "BURST_BEAM" then
    Some (Raise NameError, w)
  else Some (Ok None, w).

End Gun.

(** ** class Weapon: firing *)

Module Fire.

(** [fire], for a weapon whose [shot] and [distribution] are set: the
    shot of the state is distributed over the ship, then damages it.
    The lines after [return] are never run. *)
Definition fire (distribution : Q → Shot.number) : M Shot.Combat unit :=
  Shot.distribute distribution;;
  Shot.damage_ship.

End Fire.

(** * Vocabulary of the statements *)

(** ** Values of the decimal context *)

Module DecimalValue.

(** The values a context of six digits can hold. *)
Definition representable (x : Q) : Prop :=
  ∃ n k : Z, (Z.abs n < 10 ^ 6)%Z ∧ x == inject_Z n * 10 ^ k.

End DecimalValue.

(** ** Invariants of stateful computations *)

(** [m] keeps the invariant [I], on every exit, and stays inside the
    modelled fragment. *)
Definition sound {S A} (I : S → Prop) (m : M S A) : Prop :=
  ∀ s, I s → I (m s).2 ∧ (m s).1 ≠ Beyond.

(** ** What the gun timeline leaves alone *)

(** The tracker keeps pointing at its weapon. *)
Definition of_weapon (w : Weapon.t) (tr : AmmoTracker.t) : Prop :=
  AmmoTracker.weapon tr = w.

(** The weapon object, the tracker's reference to it and the clock. *)
Definition framed (w : Weapon.t) (t : Q) (s : Gun.World) : Prop :=
  Gun.self s = w ∧ of_weapon w (Gun.ammo_tracker s) ∧ Gun.time s = t.

(** Turns of the loop that are always enough: each turn moves the clock
    by more than 0.048 seconds. *)
Definition enough_turns : nat := 2100.

(** ** The steps of [regenerate_ammo] *)

(** The number a scalar stands for (0 for a string). *)
Definition value (v : PyVal) : Q := default 0 (Py.num v).

(** [amount]: the whole units regenerated since the timer last moved,
    for a regeneration rate [regen]. *)
Definition regenerated_amount (regen t : Q) (tr : AmmoTracker.t) : Z :=
  Decimal.to_int
    (Decimal.mul regen (Decimal.sub t (AmmoTracker.ammo_regen_timer tr))).

(** The tracker once the pending amount and the timer are updated. *)
Definition after_timer (regen t : Q) (tr : AmmoTracker.t) (pending : PyVal)
  : AmmoTracker.t :=
  AmmoTracker.set_ammo_regen_timer
    (Decimal.add (AmmoTracker.ammo_regen_timer tr)
       (Decimal.round (inject_Z (regenerated_amount regen t tr) / regen)))
    (AmmoTracker.set_ammo_regenerated pending tr).

(** The tracker after the credit, when the batch is [full]. *)
Definition after_credit (regen t : Q) (tr : AmmoTracker.t)
    (pending credited : PyVal) (full : bool) : AmmoTracker.t :=
  if full
  then AmmoTracker.set_ammo_regenerated (VInt 0)
         (AmmoTracker.set_ammo credited (after_timer regen t tr pending))
  else after_timer regen t tr pending.

(** The tracker at the end of the call: capped at [max_ammo] ammo. *)
Definition after_regeneration (regen : Q) (max_ammo : Z) (t : Q)
    (tr : AmmoTracker.t) (pending credited : PyVal) (full : bool)
  : AmmoTracker.t :=
  let uncapped := after_credit regen t tr pending credited full in
  AmmoTracker.record_ammo
    (if Qle_bool (inject_Z max_ammo) (value (AmmoTracker.ammo uncapped))
     then AmmoTracker.set_regenerating_ammo false
            (AmmoTracker.set_ammo (VInt max_ammo) uncapped)
     else uncapped).

(** The whole units regenerated at the rate [regen] between the timer
    and [t], in exact arithmetic. *)
Definition whole_units (regen t : Q) (tr : AmmoTracker.t) : Z :=
  Decimal.to_int (regen * (t - AmmoTracker.ammo_regen_timer tr)).

(** ** The ammo of a tracker during a run *)

(** [v] is a number between 0 and [n]. *)
Definition in_range (n : Z) (v : PyVal) : Prop :=
  ∃ q, Py.num v = Some q ∧ 0 <= q <= inject_Z n.

(** [v] is a whole number, not negative; as a Decimal it is a value of
    the context. *)
Definition whole (v : PyVal) : Prop :=
  ∃ (q : Q) (z : Z),
    Py.num v = Some q ∧ q == inject_Z z ∧ (0 <= z)%Z
    ∧ (∀ d, v = VDec d → DecimalValue.representable d).

(** What a tracker over [w], a weapon of [n] rounds, keeps true. *)
Definition tracker_ok (w : Weapon.t) (n : Z) (tr : AmmoTracker.t) : Prop :=
  AmmoTracker.weapon tr = w
  ∧ whole (AmmoTracker.ammo tr)
  ∧ in_range n (AmmoTracker.ammo tr)
  ∧ whole (AmmoTracker.ammo_regenerated tr)
  ∧ 0 < AmmoTracker.ammo_regen_time tr
  ∧ Forall (in_range n) (AmmoTracker.ammo_history tr).

Definition world_ok (w : Weapon.t) (n : Z) (s : Gun.World) : Prop :=
  Gun.self s = w ∧ tracker_ok w n (Gun.ammo_tracker s).

(** [m] keeps [I] true, on every exit. *)
Definition keeps {S A} (I : S → Prop) (m : M S A) : Prop :=
  ∀ s, I s → I (m s).2.

(** ** Counting recorded hits *)

(** How many of [times] fall in [lo <= t < hi]. *)
Definition hits_from (lo hi : Q) (times : list Q) : nat :=
  length (filter (λ t, Qle_bool lo t && negb (Qle_bool hi t)) times).

(** How many of [times] fall in [lo < t <= hi]. *)
Definition hits_after (lo hi : Q) (times : list Q) : nat :=
  length (filter (λ t, negb (Qle_bool t lo) && Qle_bool t hi) times).

(** ** Armor grids *)

(** Entry [r], [c] of an array of two axes (0 outside it). *)
Definition cell (a : list (list Q)) (r c : nat) : Q :=
  default 0 (row ← a !! r; row !! c).

(** The grid of a ship [width] cells wide: 5 rows of [width + 4]. *)
Definition grid_shape (width : nat) (g : ArmorGrid.t) : Prop :=
  Np.shape_is 5 (width + 4) (ArmorGrid.cells g) = true.

(** No cell is negative. *)
Definition nonneg_cells (a : list (list Q)) : bool :=
  forallb (forallb (Qle_bool 0)) a.
Definition grid_nonneg (g : ArmorGrid.t) : Prop :=
  nonneg_cells (ArmorGrid.cells g) = true.

(** The 5 by 5 window [cells[0:5, i:i+5]]. *)
Definition window (i : nat) (a : list (list Q)) : list (list Q) :=
  Np.slice2 0 5 (Z.of_nat i) (Z.of_nat i + 5) a.

(** The armor pooled around cell [i] of the ship: every cell of the 5
    by 5 window at the columns [i] to [i + 4], times its weight. *)
Definition pooled_armor (i : nat) (a : list (list Q)) : Q :=
  Np.sum (map (λ r, Np.sum (map (λ c, cell ArmorGrid.POOLING_WEIGHTS r c
                                      * cell a r (i + c))
                                (seq 0 5)))
              (seq 0 5)).

(** A row once [damage] times its row of the kernel is taken from its
    window at column [i]. *)
Definition hit_row (damage : Q) (i : Z) (row kernel : list Q) : list Q :=
  Np.set_slice i (i + 5)
    (zip_with (λ c d, c - damage * d) (Np.slice i (i + 5) row) kernel) row.

(** The grid after one [damage_armor_grid] call for each of [damages],
    at the indices [start], [start + 1], ... *)
Definition after_hits (start : nat) (damages : list Q) (g : ArmorGrid.t)
  : ArmorGrid.t :=
  foldl (λ g p, (Shot.damage_armor_grid p.2 (Z.of_nat p.1) g).2) g
        (zip (seq start (length damages)) damages).

(** [cells[cells<0]] *)
Definition below_zero (a : list (list Q)) : list Q :=
  filter (λ x, negb (Qle_bool 0 x)) (concat a).

(** ** Sample records *)

Module Sample.

(** Records to run the constructor on. *)
Definition record (fields : list (string * PyVal)) : gmap string PyVal :=
  list_to_map fields.

Definition cadence : list (string * PyVal) :=
  [("chargeup"%string, VDec 0); ("chargedown"%string, VDec 1);
   ("burst size"%string, VDec 1); ("burst delay"%string, VDec 0);
   ("proj speed"%string, VDec 500)].

Definition missile_record : gmap string PyVal :=
  record (cadence ++ [("specClass"%string, VStr "projectile");
                      ("type"%string, VStr "MISSILE")]).

Definition lowercase_beam_record : gmap string PyVal :=
  record (cadence ++ [("specClass"%string, VStr "beam");
                      ("type"%string, VStr "ENERGY");
                      ("damage/shot"%string, VDec 100)]).

Definition beam_record : gmap string PyVal :=
  record (cadence ++ [("specClass"%string, VStr "BEAM");
                      ("type"%string, VStr "ENERGY");
                      ("damage/shot"%string, VDec 100)]).

Definition beam_record_without_damage : gmap string PyVal :=
  record (cadence ++ [("specClass"%string, VStr "BEAM");
                      ("type"%string, VStr "ENERGY")]).

(** The mode a constructor call ends with. *)
Definition mode_of (r : res Weapon.t) : res (option string) :=
  w ← r; Ok (Weapon.mode w).

(** A gun of two rounds that fires every half second. *)
Definition gun_record : gmap string PyVal :=
  record [("chargeup"%string, VDec 0); ("chargedown"%string, VDec (1 # 2));
          ("burst size"%string, VDec 1); ("burst delay"%string, VDec 0);
          ("ammo"%string, VInt 2); ("ammo regen"%string, VDec (1 # 1000));
          ("reload size"%string, VInt 1); ("proj speed"%string, VDec 500);
          ("specClass"%string, VStr "projectile");
          ("type"%string, VStr "BALLISTIC")].

Definition gun : Weapon.t :=
  Weapon.mk gun_record (VDec 0) (VDec (1 # 2)) (VInt 1) (VDec 0) (VInt 2)
            (VDec (1 # 1000)) (VInt 1) (VDec 500) (Some "GUN"%string).

(** What it returns from 750 units away: hits at 1.5 s and 2 s. *)
Definition gun_counts : list nat := [1; 1; 1]%nat ++ replicate 97 0%nat.

(** The tracker [AmmoTracker(gun)] starts with. *)
Definition gun_tracker : AmmoTracker.t :=
  AmmoTracker.mk gun (VInt 2) (Decimal.round (1 / (1 # 1000))) (VDec 0) 0 false
                 [VInt 2].

(** A gun of two million rounds that fires two at a time and
    regenerates one round a second, one at a time. *)
Definition big_gun_record : gmap string PyVal :=
  record [("chargeup"%string, VDec 0); ("chargedown"%string, VDec 1);
          ("burst size"%string, VDec 2); ("burst delay"%string, VDec 0);
          ("ammo"%string, VInt 2000000); ("ammo regen"%string, VDec 1);
          ("reload size"%string, VInt 1); ("proj speed"%string, VDec 500);
          ("specClass"%string, VStr "projectile");
          ("type"%string, VStr "BALLISTIC")].

Definition big_gun : Weapon.t :=
  Weapon.mk big_gun_record (VDec 0) (VDec 1) (VInt 2) (VDec 0) (VInt 2000000)
            (VDec 1) (VInt 1) (VDec 500) (Some "GUN"%string).

(** The same gun from a record without [reload size]. *)
Definition big_gun_record_no_reload : gmap string PyVal :=
  delete "reload size"%string big_gun_record.

Definition big_gun_no_reload : Weapon.t :=
  Weapon.mk big_gun_record_no_reload (VDec 0) (VDec 1) (VInt 2) (VDec 0)
            (VInt 2000000) (VDec 1) (VDec 0) (VDec 500) (Some "GUN"%string).

(** A gun of ten rounds that regenerates one round a second, one at
    a time, and its tracker after a first shot at time 0. *)
Definition unit_gun : Weapon.t :=
  Weapon.mk ∅ (VDec 0) (VDec 1) (VInt 1) (VDec 0) (VInt 10)
            (VDec 1) (VInt 1) (VDec 500) (Some "GUN"%string).

Definition unit_gun_tracker : AmmoTracker.t :=
  AmmoTracker.mk unit_gun (VInt 9) (Decimal.round (1 / 1)) (VDec 0) 0 true
                 [VInt 9; VInt 10].

(** A gun that regenerates three rounds a second. *)
Definition third_gun : Weapon.t :=
  Weapon.mk ∅ (VDec 0) (VDec 1) (VInt 1) (VDec 0) (VInt 10)
            (VDec 3) (VInt 1) (VDec 500) (Some "GUN"%string).

(** A gun of five million rounds that regenerates one round a second,
    one at a time, and its tracker with 1000001 rounds left. *)
Definition million_gun : Weapon.t :=
  Weapon.mk ∅ (VDec 0) (VDec 1) (VInt 1) (VDec 0) (VInt 5000000)
            (VDec 1) (VInt 1) (VDec 500) (Some "GUN"%string).

Definition million_tracker : AmmoTracker.t :=
  AmmoTracker.mk million_gun (VInt 1000001) (Decimal.round (1 / 1)) (VDec 0) 0
                 true [VInt 1000001].

(** The sample gun from a record without [ammo regen]. *)
Definition gun_record_no_regen : gmap string PyVal :=
  delete "ammo regen"%string gun_record.

Definition gun_no_regen : Weapon.t :=
  Weapon.mk gun_record_no_regen (VDec 0) (VDec (1 # 2)) (VInt 1) (VDec 0)
            (VInt 2) (VDec 0) (VInt 1) (VDec 500) (Some "GUN"%string).

(** What the constructor makes of [beam_record]. *)
Definition beam : Weapon.t :=
  Weapon.mk beam_record (VDec 0) (VDec 1) (VDec 1) (VDec 0) (VStr "UNLIMITED")
            (VDec 0) (VDec 0) (VDec 500) (Some "CONTINUOUS_BEAM"%string).

(** A gun that fires bursts of three, a tenth of a second apart, at
    the start of its timeline. *)
Definition burst_gun : Weapon.t :=
  Weapon.mk ∅ (VDec 0) (VDec 1) (VInt 3) (VDec (1 # 10)) (VInt 10)
            (VDec 1) (VInt 1) (VDec 500) (Some "GUN"%string).

Definition burst_gun_start : Gun.World :=
  Gun.mk burst_gun
         (AmmoTracker.mk burst_gun (VInt 10) 1 (VDec 0) 0 false [VInt 10])
         0 1 [].

(** The grid [ArmorGrid(150, 15, 3)] and a ship that carries it. *)
Definition grid : ArmorGrid.t :=
  ArmorGrid.mk (15 # 2) (replicate 5 (replicate 7 10)) [0; 15; 30].

Definition ship : Ship.t := Ship.mk 1000 500 50 grid [] 0 0.

(** [Shot(1000, "HIGH_EXPLOSIVE", False, False)], before and after it
    is distributed over the three cells of the ship. *)
Definition shot : Shot.t :=
  Shot.mk 1000 2 (1000 * (1 # 2)) (1000 * 2) (1000 * 2 * 1) false None None.

(** A distribution of floats, and one whose value at the first bound
    is the int 1. *)
Definition spread (x : Q) : Shot.number :=
  Shot.NFloat (if Qeq_bool x 15 then 1 # 2 else 1 # 4).

Definition int_first_spread (x : Q) : Shot.number :=
  if Qeq_bool x 0 then Shot.NInt 1 else Shot.NFloat (1 # 2).

Definition aimed_shot : Shot.t :=
  Shot.mk 1000 2 (1000 * (1 # 2)) (1000 * 2) (1000 * 2 * 1) false
          (Some [1 # 4; 1 # 2; 1 # 4])
          (Some [1000 * 2 * (1 # 4); 1000 * 2 * (1 # 2); 1000 * 2 * (1 # 4)]).

End Sample.

(** * Properties *)
(** * Properties *)

(** ** The decimal context *)

Section DecimalFacts.

Import Decimal DecimalValue.

Lemma half_even_bounds (x : Q) :
  x - (1 # 2) <= inject_Z (half_even x) <= x + (1 # 2).
Proof.
  unfold half_even.
  pose proof (Qfloor_le x) as Hlo.
  pose proof (Qlt_floor x) as Hhi.
  rewrite inject_Z_plus in Hhi. change (inject_Z 1) with 1 in Hhi.
  destruct (Qcompare_spec (x - inject_Z (Qfloor x)) (1 # 2)) as [He | Hl | Hg].
  - destruct (Z.even (Qfloor x));
      [| rewrite inject_Z_plus; change (inject_Z 1) with 1]; lra.
  - lra.
  - rewrite inject_Z_plus. change (inject_Z 1) with 1. lra.
Qed.

Lemma half_even_Z (z : Z) : half_even (inject_Z z) = z.
Proof.
  unfold half_even. rewrite Qfloor_Z.
  destruct (Qcompare_spec (inject_Z z - inject_Z z) (1 # 2)) as [He | Hl | Hg].
  - lra.
  - reflexivity.
  - lra.
Qed.

Lemma inject_Z_lt_le_succ (a b : Z) :
  inject_Z a < inject_Z b + 1 → (a <= b)%Z.
Proof.
  intros H. change 1 with (inject_Z 1) in H.
  rewrite <- inject_Z_plus, <- Zlt_Qlt in H. lia.
Qed.

Lemma half_even_le_Z (x : Q) (n : Z) :
  x <= inject_Z n → (half_even x <= n)%Z.
Proof.
  intros H. pose proof (half_even_bounds x) as [_ Hhi].
  apply inject_Z_lt_le_succ. lra.
Qed.

Lemma half_even_ge_Z (x : Q) (n : Z) :
  inject_Z n <= x → (n <= half_even x)%Z.
Proof.
  intros H. pose proof (half_even_bounds x) as [Hlo _].
  apply inject_Z_lt_le_succ. lra.
Qed.

Lemma half_even_proper (x y : Q) : x == y → half_even x = half_even y.
Proof.
  intros H. unfold half_even.
  assert (Hf : Qfloor x = Qfloor y) by (now apply Qfloor_comp).
  rewrite <- Hf.
  assert (Hc : Qcompare (x - inject_Z (Qfloor x)) (1 # 2)
               = Qcompare (y - inject_Z (Qfloor x)) (1 # 2)).
  { apply Qcompare_comp; [| reflexivity]. now apply Qplus_comp. }
  now rewrite Hc.
Qed.

Lemma log10_aux_spec (fuel : nat) : ∀ n : Z,
  (1 <= n)%Z → (n < 10 * 2 ^ Z.of_nat fuel)%Z →
  (0 <= log10_aux fuel n)%Z
  ∧ (10 ^ log10_aux fuel n <= n < 10 ^ (log10_aux fuel n + 1))%Z.
Proof.
  induction fuel as [| fuel IH]; intros n Hn Hlt.
  - simpl in *. lia.
  - cbn [log10_aux]. destruct (Z.ltb_spec n 10) as [Hs | Hb].
    + simpl. lia.
    + rewrite Nat2Z.inj_succ, Z.pow_succ_r in Hlt by lia.
      assert (Hq : (1 <= n / 10)%Z) by (apply Z.div_le_lower_bound; lia).
      assert (Hq' : (n / 10 < 10 * 2 ^ Z.of_nat fuel)%Z).
      { apply Z.div_lt_upper_bound; [lia |].
        pose proof (Z.pow_pos_nonneg 2 (Z.of_nat fuel)). lia. }
      destruct (IH (n / 10)%Z Hq Hq') as (H0 & Hlo & Hhi).
      pose proof (Z.div_mod n 10 ltac:(lia)) as Hdm.
      pose proof (Z.mod_pos_bound n 10 ltac:(lia)) as Hmod.
      split; [lia |].
      replace (1 + log10_aux fuel (n / 10) + 1)%Z
        with (Z.succ (log10_aux fuel (n / 10) + 1)) by lia.
      replace (1 + log10_aux fuel (n / 10))%Z
        with (Z.succ (log10_aux fuel (n / 10))) by lia.
      rewrite !Z.pow_succ_r by lia. lia.
Qed.

Lemma Zlog10_spec (n : Z) :
  (1 <= n)%Z →
  (0 <= Zlog10 n)%Z ∧ (10 ^ Zlog10 n <= n < 10 ^ (Zlog10 n + 1))%Z.
Proof.
  intros Hn. unfold Zlog10. apply log10_aux_spec; [exact Hn |].
  rewrite Z2Nat.id by apply Z.log2_nonneg.
  pose proof (Z.log2_spec n ltac:(lia)) as [_ Hhi].
  rewrite Z.pow_succ_r in Hhi by apply Z.log2_nonneg.
  pose proof (Z.pow_pos_nonneg 2 (Z.log2 n) ltac:(lia) (Z.log2_nonneg n)). lia.
Qed.

Lemma ten_pow_pos (e : Z) : 0 < 10 ^ e.
Proof. now apply Qpower_0_lt. Qed.

Lemma ten_pow_succ (e : Z) : 10 ^ (e + 1) == 10 * 10 ^ e.
Proof. rewrite Qpower_plus by discriminate. change (10 ^ 1) with 10. ring. Qed.

Lemma ten_pow_sub (a b : Z) : 10 ^ (a - b) == 10 ^ a / 10 ^ b.
Proof. apply Qpower_minus. discriminate. Qed.

Lemma ten_pow_inject (n : Z) : (0 <= n)%Z → inject_Z (10 ^ n) == 10 ^ n.
Proof. intros H. now rewrite Zpower_Qpower. Qed.

Lemma Qabs_num_den (x : Q) :
  Qabs x * inject_Z (Zpos (Qden x)) == inject_Z (Z.abs (Qnum x)).
Proof.
  destruct x as [n d]. unfold Qabs, Qeq, Qmult, inject_Z. simpl. lia.
Qed.

Lemma ratio_upper (X P A B ia ib : Q) :
  0 < B → 0 < ib → 0 < P → P * B == A → ia < 10 * A → B <= ib →
  X * ib == ia → X < 10 * P.
Proof.
  intros HB Hib HP HPB Hia HBib HX.
  apply Qnot_le_lt. intros Hle.
  assert (10 * P * B <= X * ib) by nra.
  nra.
Qed.

Lemma ratio_lower (X P A B ia ib : Q) :
  0 < B → 0 < ib → 0 < P → P * B == A → A <= ia → ib < 10 * B →
  X * ib == ia → P * (1 # 10) <= X.
Proof.
  intros HB Hib HP HPB Hia HBib HX.
  apply Qnot_lt_le. intros Hlt.
  assert (X * ib < P * (1 # 10) * ib) by nra.
  nra.
Qed.

Lemma adjusted_spec (x : Q) :
  ¬ x == 0 → 10 ^ adjusted x <= Qabs x ∧ Qabs x < 10 ^ (adjusted x + 1).
Proof.
  intros Hx. unfold adjusted.
  set (a := Z.abs (Qnum x)). set (b := Zpos (Qden x)).
  assert (Ha : (1 <= a)%Z).
  { subst a. destruct x as [n d]. unfold Qeq in Hx. simpl in *. lia. }
  assert (Hb : (1 <= b)%Z) by (subst b; lia).
  destruct (Zlog10_spec a Ha) as (Ha0 & Halo & Hahi).
  destruct (Zlog10_spec b Hb) as (Hb0 & Hblo & Hbhi).
  pose proof (Qabs_num_den x) as Hab. fold a b in Hab.
  clearbody a b.
  rewrite Zle_Qle in Halo, Hblo. rewrite Zlt_Qlt in Hahi, Hbhi.
  rewrite ten_pow_inject in Halo, Hblo, Hahi, Hbhi by lia.
  rewrite ten_pow_succ in Hahi, Hbhi.
  pose proof (ten_pow_pos (Zlog10 b)) as Hpb.
  assert (Hbpos : 0 < inject_Z b)
    by (change 0 with (inject_Z 0); rewrite <- Zlt_Qlt; lia).
  assert (Hsub : 10 ^ (Zlog10 a - Zlog10 b) * 10 ^ Zlog10 b == 10 ^ Zlog10 a).
  { rewrite ten_pow_sub. field. lra. }
  set (e := (Zlog10 a - Zlog10 b)%Z) in *.
  pose proof (ten_pow_pos e) as Hpe.
  destruct (Qle_bool (10 ^ e) (Qabs x)) eqn:Hc.
  - apply Qle_bool_iff in Hc. split; [exact Hc |].
    rewrite ten_pow_succ.
    exact (ratio_upper _ _ _ _ _ _ Hpb Hbpos Hpe Hsub Hahi Hblo Hab).
  - assert (Hlt : Qabs x < 10 ^ e).
    { apply Qnot_le_lt. intros Hle. apply Qle_bool_iff in Hle. congruence. }
    split.
    + replace (e - 1)%Z with (e + -1)%Z by lia.
      rewrite Qpower_plus by discriminate. change (10 ^ (-1)) with (1 # 10).
      exact (ratio_lower _ _ _ _ _ _ Hpb Hbpos Hpe Hsub Halo Hbhi Hab).
    + replace (e - 1 + 1)%Z with e by lia. exact Hlt.
Qed.

Lemma adjusted_unique (x : Q) (e : Z) :
  10 ^ e <= Qabs x → Qabs x < 10 ^ (e + 1) → ¬ x == 0 → adjusted x = e.
Proof.
  intros Hlo Hhi Hx. destruct (adjusted_spec x Hx) as [Hlo' Hhi'].
  assert (H1 : (e < adjusted x + 1)%Z).
  { apply (Qpower_lt_compat_l_inv 10); [| reflexivity]. lra. }
  assert (H2 : (adjusted x < e + 1)%Z).
  { apply (Qpower_lt_compat_l_inv 10); [| reflexivity]. lra. }
  lia.
Qed.

Lemma round_zero (x : Q) : x == 0 → round x = 0.
Proof.
  intros H. unfold round.
  now replace (Qeq_bool x 0) with true by (symmetry; now apply Qeq_bool_iff).
Qed.

Lemma round_nonzero (x : Q) :
  ¬ x == 0 →
  round x = inject_Z (half_even (x / 10 ^ (adjusted x - 5))) * 10 ^ (adjusted x - 5).
Proof.
  intros H. unfold round.
  destruct (Qeq_bool x 0) eqn:E; [| reflexivity].
  apply Qeq_bool_iff in E. contradiction.
Qed.

(** The result is within half a unit of the last digit kept. *)
Lemma round_bounds (x : Q) :
  ¬ x == 0 →
  x - (1 # 2) * 10 ^ (adjusted x - 5) <= round x
  ∧ round x <= x + (1 # 2) * 10 ^ (adjusted x - 5).
Proof.
  intros Hx. rewrite (round_nonzero x Hx).
  set (s := 10 ^ (adjusted x - 5)).
  assert (Hs : 0 < s) by apply ten_pow_pos.
  pose proof (half_even_bounds (x / s)) as [Hlo Hhi].
  assert (Hxs : x / s * s == x) by (field; lra).
  set (m := inject_Z (half_even (x / s))) in *.
  split; nra.
Qed.

(** The relative error of one operation is at most 5e-6. *)
Lemma round_relative (x : Q) :
  Qabs (round x - x) <= Qabs x * (1 # 200000).
Proof.
  destruct (Qeq_dec x 0) as [Hz | Hx].
  - rewrite (round_zero x Hz). rewrite Hz. vm_compute. discriminate.
  - destruct (round_bounds x Hx) as [Hlo Hhi].
    destruct (adjusted_spec x Hx) as [Halo _].
    assert (Hs : 10 ^ (adjusted x - 5) == 10 ^ adjusted x * (1 # 100000)).
    { replace (adjusted x - 5)%Z with (adjusted x + -5)%Z by lia.
      rewrite Qpower_plus by discriminate. reflexivity. }
    rewrite Hs in Hlo, Hhi.
    apply Qabs_Qle_condition. split; lra.
Qed.

Lemma round_nonneg (x : Q) : 0 <= x → 0 <= round x.
Proof.
  intros Hx. pose proof (round_relative x) as H.
  apply Qabs_Qle_condition in H. rewrite (Qabs_pos x Hx) in H. lra.
Qed.

Lemma round_pos (x : Q) : 0 < x → 0 < round x.
Proof.
  intros Hx. pose proof (round_relative x) as H.
  apply Qabs_Qle_condition in H. rewrite (Qabs_pos x) in H by lra. lra.
Qed.

Lemma round_lower (x : Q) : 0 <= x → x * (199999 # 200000) <= round x.
Proof.
  intros Hx. pose proof (round_relative x) as H.
  apply Qabs_Qle_condition in H. rewrite (Qabs_pos x Hx) in H. lra.
Qed.

Lemma ten_pow_split (k q : Z) :
  (q <= k)%Z → 10 ^ k == inject_Z (10 ^ (k - q)) * 10 ^ q.
Proof.
  intros H. rewrite ten_pow_inject by lia.
  rewrite <- Qpower_plus by discriminate. now replace (k - q + q)%Z with k by lia.
Qed.

Lemma scaled_is_integer (n k q : Z) :
  (q <= k)%Z → inject_Z n * 10 ^ k / 10 ^ q == inject_Z (n * 10 ^ (k - q)).
Proof.
  intros H. rewrite inject_Z_mult, (ten_pow_split k q H).
  pose proof (ten_pow_pos q). field. lra.
Qed.

Lemma Qabs_scaled (n k : Z) :
  Qabs (inject_Z n * 10 ^ k) == inject_Z (Z.abs n) * 10 ^ k.
Proof.
  rewrite Qabs_Qmult, (Qabs_pos (10 ^ k)) by (apply Qlt_le_weak, ten_pow_pos).
  apply Qmult_comp; [| reflexivity].
  unfold Qabs, inject_Z. reflexivity.
Qed.

(** A representable value lies below [10 ^ (k + 6)]. *)
Lemma representable_below (n k : Z) :
  (Z.abs n < 10 ^ 6)%Z → Qabs (inject_Z n * 10 ^ k) < 10 ^ (k + 6).
Proof.
  intros H. rewrite Qabs_scaled, Qpower_plus by discriminate.
  rewrite Zlt_Qlt in H. change (inject_Z (10 ^ 6)) with (10 ^ 6) in H.
  pose proof (ten_pow_pos k).
  rewrite (Qmult_comm (10 ^ k)). apply Qmult_lt_r; assumption.
Qed.

Lemma round_scaled (x : Q) (n k : Z) :
  ¬ x == 0 → x == inject_Z n * 10 ^ k → (adjusted x - 5 <= k)%Z → round x == x.
Proof.
  intros Hx Hn Hq. rewrite (round_nonzero x Hx).
  set (q := (adjusted x - 5)%Z) in *.
  assert (Hi : x / 10 ^ q == inject_Z (n * 10 ^ (k - q))).
  { rewrite <- (scaled_is_integer n k q Hq).
    apply Qmult_comp; [exact Hn | reflexivity]. }
  rewrite (half_even_proper _ _ Hi), half_even_Z, <- Hi.
  pose proof (ten_pow_pos q). field. lra.
Qed.

(** Rounding leaves a representable value as it is. *)
Lemma round_exact (x : Q) : representable x → round x == x.
Proof.
  intros (n & k & Hn & Hx).
  destruct (Qeq_dec x 0) as [Hz | Hnz].
  - rewrite (round_zero x Hz). now symmetry.
  - apply (round_scaled x n k Hnz Hx).
    destruct (adjusted_spec x Hnz) as [Hlo _].
    pose proof (representable_below n k Hn) as Hhi. rewrite <- Hx in Hhi.
    assert (adjusted x < k + 6)%Z; [| lia].
    apply (Qpower_lt_compat_l_inv 10); [| reflexivity]. lra.
Qed.

(** Rounding an integer gives an integer. *)
Lemma round_integer (z : Z) : ∃ z' : Z, round (inject_Z z) == inject_Z z'.
Proof.
  destruct (Qeq_dec (inject_Z z) 0) as [Hz | Hnz].
  - exists 0%Z. now rewrite (round_zero _ Hz).
  - set (q := (adjusted (inject_Z z) - 5)%Z).
    destruct (Z.le_gt_cases 0 q) as [Hq | Hq].
    + exists (half_even (inject_Z z / 10 ^ q) * 10 ^ q)%Z.
      rewrite (round_nonzero _ Hnz). fold q.
      now rewrite inject_Z_mult, ten_pow_inject.
    + exists z. apply (round_scaled _ z 0 Hnz); [| fold q; lia].
      change (10 ^ 0) with 1. ring.
Qed.

(** Rounding does not step over a representable value. *)
Lemma round_le_representable (x y : Q) :
  0 < x → x <= y → representable y → round x <= y.
Proof.
  intros Hx Hxy (n & k & Hn & Hy).
  assert (Hnz : ¬ x == 0) by lra.
  destruct (adjusted_spec x Hnz) as [Hlo _].
  rewrite (Qabs_pos x) in Hlo by lra.
  rewrite (round_nonzero x Hnz).
  set (q := (adjusted x - 5)%Z) in *.
  pose proof (ten_pow_pos q) as Hs.
  destruct (Z.le_gt_cases q k) as [Hq | Hq].
  - pose proof (scaled_is_integer n k q Hq) as Hi. rewrite <- Hy in Hi.
    assert (Hle : x / 10 ^ q <= inject_Z (n * 10 ^ (k - q))).
    { rewrite <- Hi. apply Qmult_le_compat_r; [exact Hxy |].
      apply Qlt_le_weak, Qinv_lt_0_compat, Hs. }
    apply half_even_le_Z in Hle. rewrite Zle_Qle in Hle.
    assert (Hy' : y == inject_Z (n * 10 ^ (k - q)) * 10 ^ q).
    { rewrite <- Hi. field. lra. }
    rewrite Hy'. apply Qmult_le_compat_r; [exact Hle | lra].
  - exfalso.
    pose proof (representable_below n k Hn) as Hhi. rewrite <- Hy in Hhi.
    rewrite (Qabs_pos y) in Hhi by lra.
    assert (Hpow : 10 ^ (k + 6) <= 10 ^ adjusted x).
    { apply Qpower_le_compat_l; [lia | discriminate]. }
    lra.
Qed.

(** The result of an operation is a value of the context. *)
Lemma round_representable (x : Q) : representable (round x).
Proof.
  destruct (Qeq_dec x 0) as [Hz | Hnz].
  - rewrite (round_zero x Hz). exists 0%Z, 0%Z. split; [reflexivity | ring].
  - rewrite (round_nonzero x Hnz).
    destruct (adjusted_spec x Hnz) as [_ Hhi].
    set (q := (adjusted x - 5)%Z) in *.
    replace (adjusted x + 1)%Z with (q + 6)%Z in Hhi by lia.
    rewrite Qpower_plus in Hhi by discriminate.
    pose proof (ten_pow_pos q) as Hs.
    assert (Hxs : x / 10 ^ q * 10 ^ q == x) by (field; lra).
    pose proof (Qle_Qabs x) as Hup.
    pose proof (Qle_Qabs (- x)) as Hdn. rewrite Qabs_opp in Hdn.
    assert (Hle : x / 10 ^ q <= inject_Z (10 ^ 6)).
    { change (inject_Z (10 ^ 6)) with (10 ^ 6). apply Qnot_lt_le. intros C.
      assert (10 ^ 6 * 10 ^ q < x / 10 ^ q * 10 ^ q) by (apply Qmult_lt_r; lra).
      lra. }
    assert (Hge : inject_Z (- 10 ^ 6) <= x / 10 ^ q).
    { change (inject_Z (- 10 ^ 6)) with (- 10 ^ 6). apply Qnot_lt_le. intros C.
      assert (x / 10 ^ q * 10 ^ q < - 10 ^ 6 * 10 ^ q) by (apply Qmult_lt_r; lra).
      lra. }
    apply half_even_le_Z in Hle. apply half_even_ge_Z in Hge.
    set (m := half_even (x / 10 ^ q)) in *.
    destruct (Z.eq_dec m (10 ^ 6)%Z) as [E1 | N1];
      [| destruct (Z.eq_dec m (- 10 ^ 6)%Z) as [E2 | N2]].
    + exists 1%Z, (q + 6)%Z. split; [reflexivity |].
      rewrite E1, Qpower_plus by discriminate.
      change (inject_Z (10 ^ 6)) with (10 ^ 6). ring.
    + exists (-1)%Z, (q + 6)%Z. split; [reflexivity |].
      rewrite E2, Qpower_plus by discriminate.
      change (inject_Z (- 10 ^ 6)) with (- 10 ^ 6). change (inject_Z (-1)) with (- (1)).
      ring.
    + exists m, q. split; [lia | reflexivity].
Qed.

Lemma representable_proper (x y : Q) : x == y → representable x → representable y.
Proof. intros E (n & k & Hn & Hx). exists n, k. split; [exact Hn |]. now rewrite <- E. Qed.

Lemma representable_0 : representable 0.
Proof. exists 0%Z, 0%Z. split; [reflexivity | ring]. Qed.

Lemma adjusted_proper (x y : Q) : x == y → ¬ x == 0 → adjusted x = adjusted y.
Proof.
  intros E Hx. destruct (adjusted_spec x Hx) as [Hlo Hhi].
  symmetry. apply adjusted_unique.
  - now rewrite <- E.
  - now rewrite <- E.
  - now rewrite <- E.
Qed.

Lemma round_proper (x y : Q) : x == y → round x == round y.
Proof.
  intros E. destruct (Qeq_dec x 0) as [Hz | Hnz].
  - rewrite (round_zero x Hz), (round_zero y); [reflexivity | now rewrite <- E].
  - assert (Hny : ¬ y == 0) by (now rewrite <- E).
    rewrite (round_nonzero x Hnz), (round_nonzero y Hny).
    rewrite <- (adjusted_proper x y E Hnz).
    rewrite (half_even_proper (x / 10 ^ (adjusted x - 5)) (y / 10 ^ (adjusted x - 5)));
      [reflexivity |].
    unfold Qdiv. apply Qmult_comp; [exact E | reflexivity].
Qed.

(** [int(d)] on each side of zero. *)
Lemma to_int_nonneg (x : Q) : 0 <= x → to_int x = Qfloor x.
Proof.
  intros H. destruct x as [n d]. unfold to_int, Qfloor. simpl.
  unfold Qle in H. simpl in H. apply Z.quot_div_nonneg; lia.
Qed.

Lemma to_int_nonpos (x : Q) : x <= 0 → to_int x = (- Qfloor (- x))%Z.
Proof.
  intros H. destruct x as [n d]. unfold to_int, Qfloor, Qopp. simpl.
  unfold Qle in H. simpl in H.
  rewrite <- (Z.opp_involutive n) at 1. rewrite Z.quot_opp_l by lia.
  f_equal. apply Z.quot_div_nonneg; lia.
Qed.

Lemma to_int_proper (x y : Q) : x == y → to_int x = to_int y.
Proof.
  intros E. destruct (Qlt_le_dec x 0) as [Hn | Hp].
  - rewrite (to_int_nonpos x), (to_int_nonpos y) by lra.
    f_equal. apply Qfloor_comp. now rewrite E.
  - rewrite (to_int_nonneg x), (to_int_nonneg y) by lra.
    now apply Qfloor_comp.
Qed.

Lemma to_int_Z (z : Z) : to_int (inject_Z z) = z.
Proof. unfold to_int, inject_Z. simpl. apply Z.quot_1_r. Qed.

Lemma to_int_sign (x : Q) : 0 <= x → (0 <= to_int x)%Z.
Proof.
  intros H. rewrite (to_int_nonneg x H).
  change 0%Z with (Qfloor 0). now apply Qfloor_resp_le.
Qed.

(** [int(t) = k] for a positive [k] says [k <= t < k + 1]. *)
Lemma to_int_eq_pos (x : Q) (k : Z) :
  (1 <= k)%Z → to_int x = k ↔ inject_Z k <= x ∧ x < inject_Z k + 1.
Proof.
  intros Hk. split.
  - intros E. destruct (Qlt_le_dec x 0) as [Hn | Hp].
    + exfalso. rewrite (to_int_nonpos x) in E by lra.
      assert (0 <= Qfloor (- x))%Z; [| lia].
      change 0%Z with (Qfloor 0). apply Qfloor_resp_le. lra.
    + rewrite (to_int_nonneg x Hp) in E. subst k.
      pose proof (Qfloor_le x). pose proof (Qlt_floor x) as Hhi.
      rewrite inject_Z_plus in Hhi. change (inject_Z 1) with 1 in Hhi. lra.
  - intros [Hlo Hhi].
    assert (Hx : 0 <= x).
    { rewrite Zle_Qle in Hk. change (inject_Z 1) with 1 in Hk. lra. }
    rewrite (to_int_nonneg x Hx).
    pose proof (Qfloor_le x) as Hf. pose proof (Qlt_floor x) as Hf'.
    rewrite inject_Z_plus in Hf'. change (inject_Z 1) with 1 in Hf'.
    assert (H1 : (k <= Qfloor x)%Z) by (apply inject_Z_lt_le_succ; lra).
    assert (H2 : (Qfloor x <= k)%Z) by (apply inject_Z_lt_le_succ; lra).
    lia.
Qed.

End DecimalFacts.

(** ** Weapon construction: the firing mode *)

Section WeaponMode.

Import Sample.

(** [x or "ENERGY"] holds whatever [x] is. *)
Lemma or_energy (a : bool) : Py.or_test a (VStr "ENERGY") = true.
Proof. now destruct a. Qed.

(** No record makes the constructor choose MISSILE. *)
Lemma determine_mode_never_missile (data : gmap string PyVal) (m : option string) :
  Weapon.determine_mode data = Ok m → m ≠ Some "MISSILE"%string.
Proof.
  unfold Weapon.determine_mode.
  destruct (Py.getitem data "specClass") as [sc | e |]; simpl; try discriminate.
  destruct (Py.eq sc (VStr "projectile")).
  - destruct (Py.getitem data "type") as [ty | e |]; simpl; try discriminate.
    rewrite or_energy. intros [= <-]. discriminate.
  - destruct (Py.eq sc (VStr "BEAM")).
    + destruct (Py.getitem data "damage/shot") as [ds | e |]; simpl;
        try discriminate.
      destruct (Py.contains data ds); intros [= <-]; discriminate.
    + intros [= <-]. discriminate.
Qed.

Lemma init_mode (data : gmap string PyVal) (w : Weapon.t) :
  Weapon.__init__ data = Ok w → Weapon.determine_mode data = Ok (Weapon.mode w).
Proof.
  unfold Weapon.__init__. intros H.
  repeat match type of H with
         | mbind _ ?r = Ok _ =>
             let v := fresh "v" in
             destruct r as [v | ? |] eqn:?; simpl in H; try discriminate H
         | (if ?c then _ else _) = Ok _ => destruct c eqn:?
         | Ok _ = Ok _ => injection H as <-
         end; reflexivity.
Qed.

(** C6.  A projectile record whose type is MISSILE is accepted and
    classified as a GUN: the test [data["type"] == "BALLISTIC" or
    "ENERGY"] is the test of a non-empty string, so the MISSILE branch
    is dead.  Two more records show the rest of the classification at
    work: a record whose [specClass] is neither "projectile" nor
    "BEAM" is accepted with mode [None], and between the two beam
    modes what is looked up is the value of [damage/shot] among the
    keys, so a beam record with a numeric [damage/shot] is
    CONTINUOUS_BEAM and one without the field is refused. *)
Theorem missile_record_is_classified_gun :
  mode_of (Weapon.__init__ missile_record) = Ok (Some "GUN"%string)
  ∧ mode_of (Weapon.__init__ lowercase_beam_record) = Ok None
  ∧ mode_of (Weapon.__init__ beam_record) = Ok (Some "CONTINUOUS_BEAM"%string)
  ∧ mode_of (Weapon.__init__ beam_record_without_damage) = Raise KeyError.
Proof. repeat split; vm_compute; reflexivity. Qed.

End WeaponMode.

(** ** Reasoning on stateful computations *)

Section Sound.

Context {S : Type}.

Lemma sound_ret {A} (I : S → Prop) (a : A) : sound I (mret a).
Proof. intros s H. split; [exact H | discriminate]. Qed.

Lemma sound_get (I : S → Prop) : sound I get.
Proof. intros s H. split; [exact H | discriminate]. Qed.

Lemma sound_modify (I : S → Prop) (f : S → S) :
  (∀ s, I s → I (f s)) → sound I (modify f).
Proof. intros Hf s H. split; [now apply Hf | discriminate]. Qed.

Lemma sound_lift {A} (I : S → Prop) (r : res A) :
  r ≠ Beyond → sound I (lift r).
Proof. intros Hr s H. split; assumption. Qed.

Lemma sound_bind {A B} (I : S → Prop) (m : M S A) (k : A → M S B) :
  sound I m → (∀ a, sound I (k a)) → sound I (m ≫= k).
Proof.
  intros Hm Hk s H. unfold mbind, M_bind.
  destruct (Hm s H) as [H1 H2]. destruct (m s) as [[a | e |] s1]; simpl in *.
  - now apply Hk.
  - split; [exact H1 | discriminate].
  - contradiction.
Qed.

Lemma sound_get_bind {B} (I : S → Prop) (k : S → M S B) :
  (∀ s0, I s0 → sound I (k s0)) → sound I (get ≫= k).
Proof. intros Hk s H. unfold mbind, M_bind, get. now apply Hk. Qed.

Lemma sound_when (I : S → Prop) (c : bool) (m : M S unit) :
  sound I m → sound I (when c m).
Proof. intros Hm. destruct c; [exact Hm | apply sound_ret]. Qed.

Lemma sound_if {A} (I : S → Prop) (c : bool) (m1 m2 : M S A) :
  sound I m1 → sound I m2 → sound I (if c then m1 else m2).
Proof. now destruct c. Qed.

End Sound.

Lemma sound_zoom {S T A} (I : S → Prop) (J : T → Prop)
    (rd : S → T) (wr : T → S → S) (m : M T A) :
  sound J m → (∀ s, I s → J (rd s)) → (∀ s t, I s → J t → I (wr t s)) →
  sound I (zoom rd wr m).
Proof.
  intros Hm Hrd Hwr s H. unfold zoom.
  destruct (Hm (rd s) (Hrd s H)) as [H1 H2].
  destruct (m (rd s)) as [r t]. simpl in *. split; [now apply Hwr | exact H2].
Qed.

(** What a bind that ends well went through. *)
Lemma bind_ok {S A B} (m : M S A) (k : A → M S B) (s s' : S) (b : B) :
  (m ≫= k) s = (Ok b, s') → ∃ a s1, m s = (Ok a, s1) ∧ k a s1 = (Ok b, s').
Proof.
  unfold mbind, M_bind. destruct (m s) as [[a | e |] s1]; intros H;
    try discriminate H.
  now exists a, s1.
Qed.

Lemma res_bind_ok {A B} (r : res A) (k : A → res B) (b : B) :
  r ≫= k = Ok b → ∃ a, r = Ok a ∧ k a = Ok b.
Proof. destruct r as [a | e |]; intros H; try discriminate H. now exists a. Qed.

(** ** The gun timeline: what it leaves alone *)

Section PyTotal.

Lemma py_add_modelled (a b : PyVal) : Py.add a b ≠ Beyond.
Proof.
  unfold Py.add. destruct a, b; simpl; discriminate.
Qed.

Lemma py_sub_modelled (a b : PyVal) : Py.sub a b ≠ Beyond.
Proof. unfold Py.sub. destruct a, b; simpl; discriminate. Qed.

Lemma py_ge_modelled (a b : PyVal) : Py.ge a b ≠ Beyond.
Proof. unfold Py.ge. destruct a, b; simpl; discriminate. Qed.

Lemma py_mul_decimal_modelled (a : PyVal) (d : Q) : Py.mul_decimal a d ≠ Beyond.
Proof. unfold Py.mul_decimal. destruct a; simpl; discriminate. Qed.

Lemma py_add_decimal_modelled (d : Q) (a : PyVal) : Py.add_decimal d a ≠ Beyond.
Proof. unfold Py.add_decimal. destruct a; simpl; discriminate. Qed.

Lemma py_truediv_decimal_modelled (a : PyVal) (r : Q) :
  Py.truediv a (VDec r) ≠ Beyond.
Proof.
  unfold Py.truediv, Decimal.div.
  destruct a; simpl; try discriminate;
    destruct (Qeq_bool r 0); try discriminate;
    match goal with |- context [Qeq_bool ?x 0] => destruct (Qeq_bool x 0) end;
    discriminate.
Qed.

Lemma range_modelled (n : PyVal) : Gun.range n ≠ Beyond.
Proof. destruct n; discriminate. Qed.

End PyTotal.

Create HintDb modelled.

#[local] Hint Resolve py_add_modelled py_sub_modelled py_ge_modelled
  py_mul_decimal_modelled py_add_decimal_modelled py_truediv_decimal_modelled
  range_modelled : modelled.

Ltac sound_step :=
  lazymatch goal with
  | |- sound _ (mbind _ get) => apply sound_get_bind; intros ? ?
  | |- sound _ (mbind _ _) => apply sound_bind; [| intros ?]
  | |- sound _ (mret _) => apply sound_ret
  | |- sound _ get => apply sound_get
  | |- sound _ (when _ _) => apply sound_when
  | |- sound _ (if _ then _ else _) => apply sound_if
  | |- sound _ (lift _) => apply sound_lift; auto with modelled
  | |- sound _ (modify _) => apply sound_modify; intros ? ?
  end.

Section GunFrame.

Variable w : Weapon.t.
Variable regen : Q.
Hypothesis regen_decimal : Weapon.ammo_regen w = VDec regen.

Lemma regenerate_ammo_sound (t : Q) :
  sound (of_weapon w) (AmmoTracker.regenerate_ammo t).
Proof.
  unfold AmmoTracker.regenerate_ammo.
  apply sound_get_bind. intros tr Htr. red in Htr.
  rewrite Htr, regen_decimal.
  repeat sound_step; unfold of_weapon in *; simpl; try assumption; try discriminate.
Qed.

Lemma sound_run {S A} (I : S → Prop) (m : M S A) (s s' : S) (r : res A) :
  sound I m → I s → m s = (r, s') → I s' ∧ r ≠ Beyond.
Proof. intros Hm Hs E. specialize (Hm s Hs). now rewrite E in Hm. Qed.

Lemma tracker_sound {A} (t : Q) (m : M AmmoTracker.t A) :
  sound (of_weapon w) m → sound (framed w t) (Gun.tracker m).
Proof.
  intros Hm. apply (sound_zoom _ (of_weapon w)); [exact Hm | |].
  - now intros s (_ & H & _).
  - intros s tr (H1 & _ & H3) Htr. now repeat split.
Qed.

Lemma regenerate_if_due_sound (t x : Q) :
  sound (framed w t) (Gun.regenerate_if_due x).
Proof.
  unfold Gun.regenerate_if_due. repeat sound_step.
  apply tracker_sound, regenerate_ammo_sound.
Qed.

Lemma tracker_modify_sound (t : Q) (f : AmmoTracker.t → AmmoTracker.t) :
  (∀ tr, AmmoTracker.weapon (f tr) = AmmoTracker.weapon tr) →
  sound (framed w t) (Gun.tracker (modify f)).
Proof.
  intros Hf. apply tracker_sound, sound_modify.
  intros tr Htr. red. now rewrite Hf.
Qed.

Lemma spend_ammo_sound (t x : Q) : sound (framed w t) (Gun.spend_ammo x).
Proof.
  unfold Gun.spend_ammo.
  repeat first [ apply tracker_modify_sound; reflexivity | sound_step ].
Qed.

Lemma append_times_framed (t q : Q) (s : Gun.World) :
  framed w t s → framed w t (Gun.append_times q s).
Proof. now intros (H1 & H2 & H3). Qed.

Lemma simultaneous_loop_sound (t : Q) (n : nat) :
  sound (framed w t) (Gun.simultaneous_loop n).
Proof.
  induction n as [| n IH]; cbn [Gun.simultaneous_loop].
  - apply sound_ret.
  - repeat first [ exact IH | apply spend_ammo_sound | sound_step ].
    now apply append_times_framed.
Qed.

Lemma successive_loop_sound (t : Q) (n : nat) :
  ∀ local_time, sound (framed w t) (Gun.successive_loop n local_time).
Proof.
  induction n as [| n IH]; intros local_time; cbn [Gun.successive_loop].
  - apply sound_ret.
  - apply sound_get_bind. intros s0 Hs0. apply sound_if; [apply IH |].
    destruct local_time as [lt |].
    + repeat first [ apply IH | apply spend_ammo_sound
                   | apply regenerate_if_due_sound | sound_step ].
      now apply append_times_framed.
    + apply sound_lift. discriminate.
Qed.

Lemma shot_pattern_sound (t : Q) : sound (framed w t) Gun.shot_pattern.
Proof.
  unfold Gun.shot_pattern, Gun._simultaneous_shots, Gun._successive_shots.
  repeat first [ apply simultaneous_loop_sound | apply successive_loop_sound
               | sound_step ].
Qed.

Lemma set_time_framed (t t' : Q) (s : Gun.World) :
  framed w t s → framed w t' (Gun.set_time t' s).
Proof. now intros (H1 & H2 & H3). Qed.

(** One turn of the loop: the weapon and the tracker's reference are
    as before, and when the turn ends well the clock has moved by the
    two additions of the turn. *)
Lemma cycle_framed (t : Q) (s s' : Gun.World) (r : res unit) :
  framed w t s → Gun.cycle s = (r, s') →
  r ≠ Beyond
  ∧ (∃ t', framed w t' s')
  ∧ (r = Ok tt →
     ∃ t1, Py.add_decimal t (Weapon.charge_up w) = Ok t1
           ∧ Py.add_decimal t1 (Weapon.charge_down w) = Ok (Gun.time s')).
Proof.
  intros Hs. pose proof Hs as (Hself & _ & Htime).
  unfold Gun.cycle, mbind at 1, M_bind, get. rewrite Hself, Htime.
  unfold mbind at 1, M_bind, lift.
  destruct (Py.add_decimal t (Weapon.charge_up w)) as [t1 | e |] eqn:E1.
  2: { intros [= <- <-]. repeat split; [discriminate | eauto | discriminate]. }
  2: { now destruct (py_add_decimal_modelled t (Weapon.charge_up w)). }
  unfold mbind at 1, M_bind, modify.
  pose proof (set_time_framed t t1 s Hs) as Ha.
  set (sa := Gun.set_time t1 s) in *. clearbody sa.
  unfold mbind at 1, M_bind.
  destruct (Gun.regenerate_if_due t1 sa) as [rb sb] eqn:Eb.
  destruct (sound_run _ _ _ _ _ (regenerate_if_due_sound t1 t1) Ha Eb) as [Hb Hrb].
  destruct rb as [[] | e |];
    [| intros [= <- <-]; repeat split; [discriminate | eauto | discriminate]
     | contradiction ].
  unfold mbind at 1, M_bind.
  destruct (Gun.shot_pattern sb) as [rc sc] eqn:Ec.
  destruct (sound_run _ _ _ _ _ (shot_pattern_sound t1) Hb Ec) as [Hc Hrc].
  destruct rc as [[] | e |];
    [| intros [= <- <-]; repeat split; [discriminate | eauto | discriminate]
     | contradiction ].
  pose proof Hc as (Hself' & _ & Htime').
  unfold mbind at 1, M_bind. rewrite Hself', Htime'.
  unfold mbind at 1, M_bind.
  destruct (Py.add_decimal t1 (Weapon.charge_down w)) as [t2 | e |] eqn:E2.
  2: { intros [= <- <-]. repeat split; [discriminate | eauto | discriminate]. }
  2: { now destruct (py_add_decimal_modelled t1 (Weapon.charge_down w)). }
  unfold mbind at 1, M_bind.
  pose proof (set_time_framed t1 t2 sc Hc) as Hd.
  set (sd := Gun.set_time t2 sc) in *. clearbody sd.
  intros Ee.
  destruct (sound_run _ _ _ _ _ (regenerate_if_due_sound t2 t2) Hd Ee) as [He Hre].
  repeat split; [exact Hre | eauto |].
  intros _. exists t1. split; [first [exact E1 | reflexivity] |].
  destruct He as (_ & _ & ->). exact E2.
Qed.

End GunFrame.

(** ** The gun timeline ends *)

Section GunTermination.

Import Sample.

(** What [__init__] leaves in the attributes of a gun. *)
Lemma py_max_minimum (v r : PyVal) :
  Py.max v Weapon.MINIMUM_REFIRE_DELAY = Ok r →
  ∃ c, Py.num r = Some c ∧ 1 # 20 <= c.
Proof.
  unfold Py.max, Weapon.MINIMUM_REFIRE_DELAY, Py.gt.
  destruct v as [z | q | s]; simpl; try discriminate.
  - destruct (Qle_bool _ (inject_Z z)) eqn:E; simpl; intros [= <-]; simpl.
    + apply Qle_bool_iff in E. eexists; split; [reflexivity |].
      eapply Qle_trans; [| exact E]. vm_compute. discriminate.
    + eexists; split; [reflexivity |]. vm_compute. discriminate.
  - destruct (Qle_bool _ q) eqn:E; simpl; intros [= <-]; simpl.
    + apply Qle_bool_iff in E. eexists; split; [reflexivity |].
      eapply Qle_trans; [| exact E]. vm_compute. discriminate.
    + eexists; split; [reflexivity |]. vm_compute. discriminate.
Qed.

Lemma init_gun_charge_down (data : gmap string PyVal) (w : Weapon.t) :
  Weapon.__init__ data = Ok w →
  Weapon.mode w = Some "GUN"%string →
  ∃ c, Py.num (Weapon.charge_down w) = Some c ∧ 1 # 20 <= c.
Proof.
  unfold Weapon.__init__. intros H Hmode.
  repeat match type of H with
         | mbind _ ?r = Ok _ =>
             let v := fresh "v" in
             destruct r as [v | ? |] eqn:?; simpl in H; try discriminate H
         | (if ?c then _ else _) = Ok _ => destruct c eqn:?
         | Ok _ = Ok _ => injection H as <-
         end; simpl in *;
    try (eapply py_max_minimum; eassumption);
    subst; simpl in *; discriminate.
Qed.

Variable w : Weapon.t.
Variables regen up down : Q.
Hypothesis regen_decimal : Weapon.ammo_regen w = VDec regen.
Hypothesis up_value : Py.num (Weapon.charge_up w) = Some up.
Hypothesis up_nonneg : 0 <= up.
Hypothesis down_value : Py.num (Weapon.charge_down w) = Some down.
Hypothesis down_floor : 1 # 20 <= down.

(** A turn that starts before the horizon moves the clock forward. *)
Lemma cycle_progress (t : Q) (s s' : Gun.World) :
  framed w t s → 0 <= t → t < 100 → Gun.cycle s = (Ok tt, s') →
  t + (48 # 1000) <= Gun.time s'.
Proof.
  intros Hs H0 H100 E.
  destruct (cycle_framed w regen regen_decimal t s s' (Ok tt) Hs E)
    as (_ & _ & Ht).
  destruct (Ht eq_refl) as (t1 & E1 & E2).
  unfold Py.add_decimal in E1, E2. rewrite up_value in E1.
  rewrite down_value in E2. injection E1 as <-. injection E2 as <-.
  unfold Decimal.add.
  pose proof (round_lower (t + up) ltac:(lra)) as L1.
  pose proof (round_nonneg (t + up) ltac:(lra)) as N1.
  pose proof (round_lower (Decimal.round (t + up) + down) ltac:(lra)) as L2.
  lra.
Qed.

Lemma while_loop_terminates (fuel : nat) : ∀ (s : Gun.World) (t : Q),
  framed w t s → 0 <= t →
  (1 <= fuel)%nat →
  (100 - t) + (48 # 1000) <= (48 # 1000) * inject_Z (Z.of_nat fuel) →
  ∃ r s', Gun.while_loop fuel s = Some (r, s') ∧ r ≠ Beyond ∧ Gun.self s' = w.
Proof.
  induction fuel as [| fuel IH]; intros s t Hs H0 H1 Hfuel; [lia |].
  cbn [Gun.while_loop]. pose proof Hs as (Hself & _ & Htime).
  destruct (Qle_bool Gun.time_limit (Gun.time s)) eqn:Elim.
  - exists (Ok tt), s. repeat split; [discriminate | exact Hself].
  - assert (Hlt : t < 100).
    { apply Qnot_le_lt. intros C. rewrite <- Htime in C.
      apply Qle_bool_iff in C. unfold Gun.time_limit in Elim. congruence. }
    destruct (Gun.cycle s) as [r s'] eqn:E.
    destruct (cycle_framed w regen regen_decimal t s s' r Hs E) as (Hr & [t' Hs'] & _).
    destruct r as [[] | e |].
    + pose proof (cycle_progress t s s' Hs H0 Hlt E) as Hp.
      pose proof Hs' as (_ & _ & Htime'). rewrite Htime' in Hp.
      rewrite Nat2Z.inj_succ, <- Z.add_1_r, inject_Z_plus in Hfuel.
      change (inject_Z 1) with 1 in Hfuel.
      assert (Hf : (1 <= fuel)%nat).
      { destruct fuel as [| f]; [| lia].
        change (inject_Z (Z.of_nat 0)) with 0 in Hfuel. lra. }
      apply (IH s' t' Hs'); [lra | exact Hf |].
      destruct (Qlt_le_dec t' 100) as [Hin | Hout]; [lra |].
      assert (1 <= inject_Z (Z.of_nat fuel)).
      { change 1 with (inject_Z 1). rewrite <- Zle_Qle. lia. }
      lra.
    + exists (Raise e), s'. repeat split; [discriminate |]. now destruct Hs'.
    + contradiction.
Qed.

End GunTermination.

(** C7.  The hit sequence of a gun ends: for a weapon built by
    [__init__] in GUN mode, with a nonnegative charge-up time and
    Decimal ammo regeneration and projectile speed, [_hit_sequence]
    returns (a list or an exception) within [enough_turns] turns of its
    loop, and the weapon object is after the call what it was before. *)
Theorem gun_hit_sequence_terminates
    (data : gmap string PyVal) (w : Weapon.t) (distance : PyVal)
    (up regen speed : Q) (fuel : nat) :
  Weapon.__init__ data = Ok w →
  Weapon.mode w = Some "GUN"%string →
  Py.num (Weapon.charge_up w) = Some up → 0 <= up →
  Weapon.ammo_regen w = VDec regen →
  Weapon.proj_speed w = VDec speed →
  (enough_turns <= fuel)%nat →
  ∃ out, Gun._hit_sequence fuel w distance = Some (out, w) ∧ out ≠ Beyond.
Proof.
  intros Hinit Hmode Hup Hup0 Hregen Hspeed Hfuel.
  destruct (init_gun_charge_down data w Hinit Hmode) as (down & Hdown & Hfloor).
  unfold Gun._hit_sequence, Gun._gun_hit_sequence. rewrite Hmode. simpl Weapon.mode_is.
  unfold Gun.enter. rewrite Hspeed.
  pose proof (py_truediv_decimal_modelled distance speed) as Nb1.
  destruct (Py.truediv distance (VDec speed)) as [travel | e |]; simpl;
    [| eexists; split; [reflexivity | discriminate] | contradiction].
  unfold AmmoTracker.__init__. rewrite Hregen.
  pose proof (py_truediv_decimal_modelled (VInt 1) regen) as Nb2.
  destruct (Py.truediv (VInt 1) (VDec regen)) as [regen_time | e |]; simpl;
    [| eexists; split; [reflexivity | discriminate] | contradiction].
  match goal with
  | |- context [Gun.while_loop fuel ?s0] =>
      destruct (while_loop_terminates w regen up down Hregen Hup Hup0 Hdown Hfloor
                  fuel s0 0) as (r & s' & E & Hr & Hself)
  end.
  - now repeat split.
  - lra.
  - unfold enough_turns in Hfuel. lia.
  - assert (2100 <= inject_Z (Z.of_nat fuel)).
    { change 2100 with (inject_Z 2100). rewrite <- Zle_Qle.
      unfold enough_turns in Hfuel. lia. }
    lra.
  - rewrite E, Hself. destruct r as [[] | e |]; simpl;
      [| | contradiction]; eexists; split; try reflexivity; discriminate.
Qed.

Lemma gun_hit_sequence_terminates_witness :
  ∃ out, Gun._hit_sequence enough_turns Sample.gun (VInt 1000)
         = Some (out, Sample.gun) ∧ out ≠ Beyond.
Proof.
  apply (gun_hit_sequence_terminates Sample.gun_record Sample.gun (VInt 1000)
           0 (1 # 1000) 500 enough_turns).
  - vm_compute. reflexivity.
  - reflexivity.
  - reflexivity.
  - vm_compute. discriminate.
  - reflexivity.
  - reflexivity.
  - unfold enough_turns. lia.
Defined.

(** ** The buckets of the hit sequence *)

Section HitCounts.

Lemma interval_product (j : Z) :
  (0 <= j < 10 ^ 6)%Z → Decimal.mul (inject_Z j) Gun.time_interval == inject_Z j.
Proof.
  intros Hj. unfold Decimal.mul, Gun.time_interval.
  assert (E : inject_Z j * 1 == inject_Z j) by ring.
  rewrite (round_proper _ _ E). apply round_exact.
  exists j, 0%Z. split; [lia |]. change (10 ^ 0) with 1. ring.
Qed.

(** The test of bucket [i >= 1] is [int(t) = i], that is
    [i <= t < i + 1]. *)
Lemma bucket_test (i : Z) (t : Q) :
  (1 <= i < 10 ^ 6)%Z →
  negb (Qle_bool (inject_Z (Decimal.to_int t))
                 (Decimal.mul (inject_Z (i - 1)) Gun.time_interval))
  && Qle_bool (inject_Z (Decimal.to_int t))
              (Decimal.mul (inject_Z i) Gun.time_interval)
  = Qle_bool (inject_Z i) t && negb (Qle_bool (inject_Z i + 1) t).
Proof.
  intros Hi.
  pose proof (interval_product (i - 1) ltac:(lia)) as E1.
  pose proof (interval_product i ltac:(lia)) as E2.
  pose proof (to_int_eq_pos t i ltac:(lia)) as Hk.
  apply eq_true_iff_eq. rewrite !andb_true_iff, !negb_true_iff.
  rewrite <- !not_true_iff_false, !Qle_bool_iff, E1, E2, <- !Zle_Qle.
  split.
  - intros [H1 H2]. assert (E : Decimal.to_int t = i) by lia.
    apply Hk in E. split; [tauto |]. intros C. lra.
  - intros [H1 H2]. assert (E : Decimal.to_int t = i).
    { apply Hk. split; [exact H1 |]. apply Qnot_le_lt. exact H2. }
    lia.
Qed.

Lemma time_intervals_value : Gun.time_intervals = 100%Z.
Proof. vm_compute. reflexivity. Qed.

Lemma hit_counts_length (times : list Q) : length (Gun.hit_counts times) = 100%nat.
Proof.
  unfold Gun.hit_counts. rewrite time_intervals_value.
  rewrite length_app, !length_map, length_seq. reflexivity.
Qed.

Lemma hit_counts_bucket (times : list Q) (k : nat) :
  (1 <= k < 100)%nat →
  Gun.hit_counts times !! k
  = Some (hits_from (inject_Z (Z.of_nat k)) (inject_Z (Z.of_nat k) + 1) times).
Proof.
  intros Hk. unfold Gun.hit_counts. rewrite time_intervals_value.
  rewrite lookup_app_r by (simpl; lia). simpl length.
  rewrite list_lookup_fmap, list_lookup_fmap.
  rewrite lookup_seq_lt by lia. simpl.
  replace (Z.of_nat (S (k - 1))) with (Z.of_nat k) by lia.
  unfold hits_from. do 2 f_equal.
  apply list_filter_iff. intros t.
  rewrite (bucket_test (Z.of_nat k) t) by lia. reflexivity.
Qed.

End HitCounts.

(** C1.  The sample gun of two rounds, fired from 750 units away,
    records two hits, at 1.5 s and at 2 s, and its hit sequence is
    [1, 1, 1, 0, ...]: three counts for two hits.  The hit at 1.5 s is
    counted by entry 0, whose test is [0 <= int(t) <= 1], and again by
    entry 1, whose test is [int(t) = 1]: on its own it gives the
    sequence [1, 1, 0, ...]. *)
Theorem gun_hit_counted_twice :
  ∃ s0 s,
    Gun.enter Sample.gun (VInt 750) = Ok s0
    ∧ Gun.while_loop enough_turns s0 = Some (Ok tt, s)
    ∧ Forall2 Qeq (Gun.times s) [(3 # 2)%Q; 2%Q]
    ∧ Gun._gun_hit_sequence enough_turns Sample.gun (VInt 750)
      = Some (Ok Sample.gun_counts, Sample.gun)
    ∧ length (Gun.times s) = 2%nat
    ∧ foldr Nat.add 0%nat Sample.gun_counts = 3%nat
    ∧ Gun.hit_counts [(3 # 2)%Q] !! 0%nat = Some 1%nat
    ∧ Gun.hit_counts [(3 # 2)%Q] !! 1%nat = Some 1%nat.
Proof.
  eexists. eexists. split; [vm_compute; reflexivity |].
  split; [vm_compute; reflexivity |].
  split; [repeat constructor; vm_compute; reflexivity |].
  repeat apply conj; vm_compute; reflexivity.
Qed.

(** A hit sequence that [_gun_hit_sequence] returns has 100 entries; for
    every [k] from 1 to 99, entry [k] is the number of recorded hit
    times [t] with [k <= t < k + 1] (the test is [int(t) = k]). *)
Theorem gun_hit_sequence_entries
    (fuel : nat) (w w' : Weapon.t) (distance : PyVal) (counts : list nat) :
  Gun._gun_hit_sequence fuel w distance = Some (Ok counts, w') →
  ∃ s0 s,
    Gun.enter w distance = Ok s0
    ∧ Gun.while_loop fuel s0 = Some (Ok tt, s)
    ∧ length counts = 100%nat
    ∧ (∀ k : nat, (1 <= k < 100)%nat →
         counts !! k
         = Some (hits_from (inject_Z (Z.of_nat k)) (inject_Z (Z.of_nat k) + 1)
                           (Gun.times s))).
Proof.
  unfold Gun._gun_hit_sequence. intros H.
  destruct (Gun.enter w distance) as [s0 | e |] eqn:E0; try discriminate H.
  destruct (Gun.while_loop fuel s0) as [[r s] |] eqn:E1; try discriminate H.
  destruct r as [[] | e |]; try discriminate H.
  simpl in H. injection H as <- <-.
  exists s0, s. split; [reflexivity |]. split; [exact E1 |].
  split; [apply hit_counts_length |].
  intros k Hk. now apply hit_counts_bucket.
Qed.

Lemma gun_hit_sequence_entries_witness :
  ∃ s0 s,
    Gun.enter Sample.gun (VInt 750) = Ok s0
    ∧ Gun.while_loop enough_turns s0 = Some (Ok tt, s)
    ∧ length Sample.gun_counts = 100%nat
    ∧ (∀ k : nat, (1 <= k < 100)%nat →
         Sample.gun_counts !! k
         = Some (hits_from (inject_Z (Z.of_nat k)) (inject_Z (Z.of_nat k) + 1)
                           (Gun.times s))).
Proof.
  apply (gun_hit_sequence_entries enough_turns Sample.gun Sample.gun (VInt 750)).
  vm_compute. reflexivity.
Defined.

(** ** class AmmoTracker: one call of [regenerate_ammo] *)

Section RegenerateRun.

Variable w : Weapon.t.
Variables (regen : Q) (max_ammo : Z).
Hypothesis regen_decimal : Weapon.ammo_regen w = VDec regen.
Hypothesis regen_nonzero : ¬ regen == 0.
Hypothesis finite_ammo : Weapon.ammo w = VInt max_ammo.

Variable tr : AmmoTracker.t.
Variables have pending_before : Q.
Hypothesis tracker_weapon : AmmoTracker.weapon tr = w.
Hypothesis ammo_value : Py.num (AmmoTracker.ammo tr) = Some have.
Hypothesis regenerated_value :
  Py.num (AmmoTracker.ammo_regenerated tr) = Some pending_before.

Variable t : Q.

Lemma py_add_numeric (a b : PyVal) (x y : Q) :
  Py.num a = Some x → Py.num b = Some y →
  ∃ c z, Py.add a b = Ok c ∧ Py.num c = Some z
         ∧ (z == x + y ∨ z = Decimal.round (x + y)).
Proof.
  destruct a, b; simpl; try discriminate; intros [= <-] [= <-];
    eexists; eexists; (split; [reflexivity |]); (split; [reflexivity |]);
    first [ right; reflexivity | left; now rewrite inject_Z_plus ].
Qed.

Lemma py_ge_numeric (a b : PyVal) (x y : Q) :
  Py.num a = Some x → Py.num b = Some y → Py.ge a b = Ok (Qle_bool y x).
Proof. destruct a, b; simpl; try discriminate; now intros [= <-] [= <-]. Qed.

Lemma truediv_by_decimal (a : Z) :
  Py.truediv (VInt a) (VDec regen) = Ok (Decimal.round (inject_Z a / regen)).
Proof.
  unfold Py.truediv, Decimal.div. simpl.
  destruct (Qeq_bool regen 0) eqn:E; [| reflexivity].
  apply Qeq_bool_iff in E. contradiction.
Qed.

(** The states a call goes through. *)
Lemma regenerate_ammo_run :
  ∃ pending credited,
    Py.add (AmmoTracker.ammo_regenerated tr)
           (VInt (regenerated_amount regen t tr)) = Ok pending
    ∧ Py.add (AmmoTracker.ammo tr) pending = Ok credited
    ∧ match Py.ge pending (Weapon.reload_size w) with
      | Ok full =>
          AmmoTracker.regenerate_ammo t tr
          = (Ok tt, after_regeneration regen max_ammo t tr pending credited full)
      | Raise e =>
          AmmoTracker.regenerate_ammo t tr
          = (Raise e, after_timer regen t tr pending)
      | Beyond => False
      end.
Proof.
  destruct (py_add_numeric _ (VInt (regenerated_amount regen t tr)) _ _
              regenerated_value eq_refl) as (pending & pv & Ep & Hpv & _).
  destruct (py_add_numeric _ pending _ _ ammo_value Hpv)
    as (credited & cv & Ec & Hcv & _).
  exists pending, credited. split; [exact Ep |]. split; [exact Ec |].
  unfold regenerated_amount, after_regeneration, after_credit, after_timer,
    value in *.
  cbv beta iota delta [AmmoTracker.regenerate_ammo mbind M_bind get lift modify
                         when mret M_ret].
  rewrite tracker_weapon, regen_decimal. cbn [Py.mul_decimal Py.num].
  cbv beta iota. rewrite Ep. cbv beta iota.
  rewrite truediv_by_decimal. cbv beta iota.
  pose proof (py_ge_modelled pending (Weapon.reload_size w)) as Nb.
  destruct (Py.ge pending (Weapon.reload_size w)) as [full | e |];
    [| reflexivity | contradiction].
  destruct full; cbv beta iota.
  - rewrite Ec. cbv beta iota.
    cbn [AmmoTracker.weapon AmmoTracker.set_ammo_regenerated AmmoTracker.set_ammo
         AmmoTracker.set_ammo_regen_timer AmmoTracker.ammo].
    rewrite tracker_weapon, finite_ammo.
    rewrite (py_ge_numeric credited (VInt max_ammo) cv (inject_Z max_ammo) Hcv eq_refl).
    rewrite Hcv. cbn [default from_option]. change (id cv) with cv.
    destruct (Qle_bool (inject_Z max_ammo) cv); reflexivity.
  - cbn [AmmoTracker.weapon AmmoTracker.set_ammo_regenerated AmmoTracker.set_ammo
         AmmoTracker.set_ammo_regen_timer AmmoTracker.ammo].
    rewrite tracker_weapon, finite_ammo.
    rewrite (py_ge_numeric _ (VInt max_ammo) have (inject_Z max_ammo) ammo_value eq_refl).
    rewrite ammo_value. cbn [default from_option]. change (id have) with have.
    destruct (Qle_bool (inject_Z max_ammo) have); reflexivity.
Qed.

End RegenerateRun.

(** ** The ammo of a tracker stays between zero and the maximum *)

Section Keeps.

Context {S : Type}.

Lemma keeps_ret {A} (I : S → Prop) (a : A) : keeps I (mret a).
Proof. now intros s H. Qed.

Lemma keeps_lift {A} (I : S → Prop) (r : res A) : keeps I (lift r).
Proof. now intros s H. Qed.

Lemma keeps_modify (I : S → Prop) (f : S → S) :
  (∀ s, I s → I (f s)) → keeps I (modify f).
Proof. intros Hf s H. now apply Hf. Qed.

Lemma keeps_bind {A B} (I : S → Prop) (m : M S A) (k : A → M S B) :
  keeps I m → (∀ a, keeps I (k a)) → keeps I (m ≫= k).
Proof.
  intros Hm Hk s H. unfold mbind, M_bind.
  specialize (Hm s H). destruct (m s) as [[a | e |] s1]; simpl in *;
    [now apply Hk | exact Hm | exact Hm].
Qed.

Lemma keeps_get_bind {B} (I : S → Prop) (k : S → M S B) :
  (∀ s0, I s0 → I (k s0 s0).2) → keeps I (get ≫= k).
Proof. intros Hk s H. unfold mbind, M_bind, get. now apply Hk. Qed.

Lemma keeps_if {A} (I : S → Prop) (c : bool) (m1 m2 : M S A) :
  keeps I m1 → keeps I m2 → keeps I (if c then m1 else m2).
Proof. now destruct c. Qed.

End Keeps.

Section AmmoBounds.

Import DecimalValue.

Variable w : Weapon.t.
Variables (regen : Q) (n : Z).
Hypothesis regen_decimal : Weapon.ammo_regen w = VDec regen.
Hypothesis regen_positive : 0 < regen.
Hypothesis finite_ammo : Weapon.ammo w = VInt n.
Hypothesis ammo_nonneg : (0 <= n)%Z.

Lemma whole_int (z : Z) : (0 <= z)%Z → whole (VInt z).
Proof.
  intros H. exists (inject_Z z), z. repeat split; try reflexivity; try exact H.
  discriminate.
Qed.

Lemma whole_round (q : Q) (z : Z) :
  q == inject_Z z → (0 <= z)%Z → whole (VDec (Decimal.round q)).
Proof.
  intros E Hz. destruct (round_integer z) as [z' Hz'].
  rewrite <- (round_proper _ _ E) in Hz'.
  assert (H0 : 0 <= Decimal.round q).
  { apply round_nonneg. rewrite E. change 0 with (inject_Z 0).
    now rewrite <- Zle_Qle. }
  exists (Decimal.round q), z'. repeat split; try reflexivity; try exact Hz'.
  - rewrite Hz' in H0. change 0 with (inject_Z 0) in H0.
    now rewrite <- Zle_Qle in H0.
  - intros d [= <-]. apply round_representable.
Qed.

(** The sum of two whole numbers is one, and is their exact sum or
    its rounding. *)
Lemma add_whole (a b : PyVal) :
  whole a → whole b →
  ∃ c, Py.add a b = Ok c ∧ whole c.
Proof.
  intros (x & zx & Hx & Ex & Px & Rx) (y & zy & Hy & Ey & Pz & Ry).
  destruct a as [za | qa | sa], b as [zb | qb | sb]; simpl in Hx, Hy;
    try discriminate; injection Hx as <-; injection Hy as <-; simpl;
    eexists; (split; [reflexivity |]).
  - apply whole_int. apply (proj1 (inject_Z_injective _ _)) in Ex.
    apply (proj1 (inject_Z_injective _ _)) in Ey. lia.
  - apply (whole_round _ (zx + zy)); [| lia].
    rewrite inject_Z_plus, <- Ex, <- Ey. reflexivity.
  - apply (whole_round _ (zx + zy)); [| lia].
    rewrite inject_Z_plus, <- Ex, <- Ey. reflexivity.
  - apply (whole_round _ (zx + zy)); [| lia].
    rewrite inject_Z_plus, <- Ex, <- Ey. reflexivity.
Qed.

Lemma whole_value (v : PyVal) : whole v → ∃ q, Py.num v = Some q ∧ 0 <= q.
Proof.
  intros (q & z & Hq & E & Hz & _). exists q. split; [exact Hq |].
  rewrite E. change 0 with (inject_Z 0). now rewrite <- Zle_Qle.
Qed.

Lemma decimal_not_zero (q : Q) : Py.eq (VDec q) (VInt 0) = false → ¬ q == 0.
Proof.
  intros H C. change (Qeq_bool q 0 = false) in H.
  apply Qeq_bool_iff in C. congruence.
Qed.

(** Taking one round from a stock that is not empty. *)
Lemma sub_one (v : PyVal) :
  whole v → in_range n v → Py.eq v (VInt 0) = false →
  ∃ c, Py.sub v (VInt 1) = Ok c ∧ whole c ∧ in_range n c.
Proof.
  intros (q & z & Hq & E & Hz & Rq) (q' & Hq' & Hlo & Hhi) Hne.
  rewrite Hq in Hq'. injection Hq' as <-.
  destruct v as [zv | qv | sv]; simpl in Hq; try discriminate;
    injection Hq as <-.
  - change ((zv =? 0)%Z = false) in Hne. apply Z.eqb_neq in Hne. rewrite <- Zle_Qle in Hhi.
    eexists. split; [reflexivity |]. split.
    + apply whole_int. apply (proj1 (inject_Z_injective _ _)) in E. lia.
    + exists (inject_Z (zv - 1)). split; [reflexivity |].
      change 0 with (inject_Z 0). rewrite <- !Zle_Qle.
      apply (proj1 (inject_Z_injective _ _)) in E. lia.
  - assert (Hnz : ¬ qv == 0) by (now apply decimal_not_zero).
    assert (Hz1 : (1 <= z)%Z).
    { destruct (Z.eq_dec z 0%Z) as [-> |]; [| lia]. now elim Hnz. }
    eexists. split; [reflexivity |]. unfold Decimal.sub.
    assert (E1 : qv - inject_Z 1 == inject_Z (z - 1)).
    { unfold Z.sub. rewrite inject_Z_plus, inject_Z_opp, E. ring. }
    split; [apply (whole_round _ (z - 1) E1); lia |].
    exists (Decimal.round (qv - inject_Z 1)). split; [reflexivity |].
    assert (H1 : 1 <= qv).
    { rewrite E. change 1 with (inject_Z 1). now rewrite <- Zle_Qle. }
    change (inject_Z 1) with 1 in *.
    split; [apply round_nonneg; lra |].
    destruct (Qeq_dec (qv - 1) 0) as [Hz0 | Hpos].
    + rewrite (round_zero _ Hz0). lra.
    + apply Qle_trans with qv; [| exact Hhi].
      apply round_le_representable; [lra | lra | now apply Rq].
Qed.

End AmmoBounds.

Section AmmoRun.

Variable w : Weapon.t.
Variables (regen : Q) (n : Z).
Hypothesis regen_decimal : Weapon.ammo_regen w = VDec regen.
Hypothesis regen_positive : 0 < regen.
Hypothesis finite_ammo : Weapon.ammo w = VInt n.
Hypothesis ammo_nonneg : (0 <= n)%Z.

Lemma in_range_max : in_range n (VInt n).
Proof.
  exists (inject_Z n). split; [reflexivity |]. split; [| apply Qle_refl].
  change 0 with (inject_Z 0). now rewrite <- Zle_Qle.
Qed.

(** A call that is due regenerates a whole number of rounds. *)
Lemma due_amount (t : Q) (tr : AmmoTracker.t) :
  0 < AmmoTracker.ammo_regen_time tr →
  AmmoTracker.should_regenerate_ammo t tr = true →
  (0 <= regenerated_amount regen t tr)%Z.
Proof.
  intros Hpos Hdue. unfold AmmoTracker.should_regenerate_ammo in Hdue.
  apply Qle_bool_iff in Hdue. unfold regenerated_amount.
  apply to_int_sign. unfold Decimal.mul. apply round_nonneg.
  apply Qmult_le_0_compat; lra.
Qed.

Lemma regenerate_keeps (t : Q) (tr : AmmoTracker.t) :
  tracker_ok w n tr →
  AmmoTracker.should_regenerate_ammo t tr = true →
  tracker_ok w n (AmmoTracker.regenerate_ammo t tr).2.
Proof.
  intros (Hw & Hwa & Hra & Hwg & Htime & Hhist) Hdue.
  pose proof (due_amount t tr Htime Hdue) as Hamount.
  destruct Hwa as (a & za & Ha & Hwa). destruct Hwg as (g & zg & Hg & Hwg).
  assert (Hnz : ¬ regen == 0) by lra.
  destruct (regenerate_ammo_run w regen n regen_decimal Hnz finite_ammo tr a g
              Hw Ha Hg t) as (pending & credited & Ep & Ec & Hrun).
  destruct (add_whole (AmmoTracker.ammo_regenerated tr)
              (VInt (regenerated_amount regen t tr)))
    as (p' & Ep' & Hwp); [now exists g, zg | now apply whole_int |].
  rewrite Ep in Ep'. injection Ep' as <-.
  destruct (add_whole (AmmoTracker.ammo tr) pending) as (c' & Ec' & Hwc);
    [now exists a, za | exact Hwp |].
  rewrite Ec in Ec'. injection Ec' as <-.
  destruct (Py.ge pending (Weapon.reload_size w)) as [full | e |];
    [| rewrite Hrun; simpl | contradiction].
  2: { repeat apply conj; try assumption; now exists a, za. }
  rewrite Hrun. simpl. unfold after_regeneration.
  set (unc := after_credit regen t tr pending credited full).
  assert (Hunc : AmmoTracker.weapon unc = w
                 ∧ whole (AmmoTracker.ammo unc)
                 ∧ whole (AmmoTracker.ammo_regenerated unc)
                 ∧ AmmoTracker.ammo_regen_time unc = AmmoTracker.ammo_regen_time tr
                 ∧ AmmoTracker.ammo_history unc = AmmoTracker.ammo_history tr).
  { subst unc. unfold after_credit, after_timer. destruct full; simpl;
      repeat apply conj; try assumption; try reflexivity;
      try (now apply whole_int); now exists a, za. }
  clearbody unc. destruct Hunc as (Uw & Ua & Ug & Ut & Uh).
  destruct (whole_value _ Ua) as (u & Hu & Hu0).
  unfold value. rewrite Hu. cbn [default from_option]. change (id u) with u.
  destruct (Qle_bool (inject_Z n) u) eqn:Ecap;
    unfold AmmoTracker.record_ammo, AmmoTracker.set_regenerating_ammo,
      AmmoTracker.set_ammo;
    cbn [AmmoTracker.weapon AmmoTracker.ammo AmmoTracker.ammo_regen_time
         AmmoTracker.ammo_regenerated AmmoTracker.ammo_regen_timer
         AmmoTracker.regenerating_ammo AmmoTracker.ammo_history snd].
  - repeat apply conj; try assumption; try (now apply whole_int);
      try apply in_range_max; try congruence; try (rewrite Ut; exact Htime).
    rewrite Uh. constructor; [apply in_range_max | exact Hhist].
  - assert (Hlt : u < inject_Z n).
    { apply Qnot_le_lt. intros C. apply Qle_bool_iff in C. congruence. }
    assert (Hin : in_range n (AmmoTracker.ammo unc)).
    { exists u. split; [exact Hu |]. lra. }
    repeat apply conj; try assumption; try congruence;
      try (rewrite Ut; exact Htime).
    rewrite Uh. constructor; assumption.
Qed.

Lemma run_bind {S A B} (m : M S A) (k : A → M S B) (s : S) :
  (m ≫= k) s
  = match m s with
    | (Ok a, s1) => k a s1
    | (Raise e, s1) => (Raise e, s1)
    | (Beyond, s1) => (Beyond, s1)
    end.
Proof. reflexivity. Qed.

Lemma regenerate_if_due_keeps (t : Q) :
  keeps (world_ok w n) (Gun.regenerate_if_due t).
Proof.
  intros s [Hself Htr]. unfold Gun.regenerate_if_due. rewrite run_bind.
  cbn [get]. unfold when.
  destruct (AmmoTracker.should_regenerate_ammo t (Gun.ammo_tracker s)) eqn:Hdue.
  - unfold Gun.tracker, zoom.
    pose proof (regenerate_keeps t _ Htr Hdue) as Hk.
    destruct (AmmoTracker.regenerate_ammo t (Gun.ammo_tracker s)) as [r tr'].
    simpl in *. now split.
  - now split.
Qed.

(** A shot out of a stock that is not empty. *)
Lemma spend_ammo_keeps (t : Q) (s : Gun.World) :
  world_ok w n s →
  Py.eq (AmmoTracker.ammo (Gun.ammo_tracker s)) (VInt 0) = false →
  world_ok w n (Gun.spend_ammo t s).2.
Proof.
  intros [Hself (Hw & Hwa & Hra & Hwg & Htime & Hhist)] Hne.
  destruct (sub_one n _ Hwa Hra Hne) as (left & Eleft & Hwl & Hrl).
  unfold Gun.spend_ammo.
  cbv beta iota delta [mbind M_bind get lift modify when mret M_ret Gun.tracker zoom].
  rewrite Eleft. cbv beta iota.
  destruct (AmmoTracker.regenerating_ammo (Gun.ammo_tracker s)); simpl;
    (split; [exact Hself |]); repeat apply conj; try assumption;
    constructor; assumption.
Qed.

Lemma append_times_keeps (q : Q) (s : Gun.World) :
  world_ok w n s → world_ok w n (Gun.append_times q s).
Proof. now intros [H1 H2]. Qed.

Lemma simultaneous_loop_keeps (k : nat) :
  keeps (world_ok w n) (Gun.simultaneous_loop k).
Proof.
  induction k as [| k IH]; cbn [Gun.simultaneous_loop]; [apply keeps_ret |].
  apply keeps_get_bind. intros s Hs.
  destruct (Py.eq (AmmoTracker.ammo (Gun.ammo_tracker s)) (VInt 0)) eqn:Hne;
    [now apply IH |].
  rewrite run_bind. cbn [modify]. rewrite run_bind.
  pose proof (spend_ammo_keeps (Gun.time s) (Gun.append_times
                (Decimal.add (Gun.time s) (Gun.travel_time s)) s)
                (append_times_keeps _ s Hs) Hne) as Hk.
  destruct (Gun.spend_ammo (Gun.time s) _) as [[[] | e |] s1]; simpl in Hk;
    [now apply IH | exact Hk | exact Hk].
Qed.

Lemma successive_loop_keeps (k : nat) :
  ∀ local_time, keeps (world_ok w n) (Gun.successive_loop k local_time).
Proof.
  induction k as [| k IH]; intros local_time; cbn [Gun.successive_loop];
    [apply keeps_ret |].
  apply keeps_get_bind. intros s Hs.
  destruct (Py.eq (AmmoTracker.ammo (Gun.ammo_tracker s)) (VInt 0)) eqn:Hne;
    [now apply IH |].
  destruct local_time as [lt |]; [| exact Hs].
  rewrite run_bind. cbn [modify]. rewrite run_bind. cbn [lift].
  pose proof (append_times_keeps (Decimal.add lt (Gun.travel_time s)) s Hs) as Ha.
  destruct (Py.add_decimal lt (Weapon.burst_delay (Gun.self s))) as [t' | e |];
    [| exact Ha | exact Ha].
  rewrite run_bind.
  pose proof (spend_ammo_keeps t' _ Ha Hne) as Hk.
  destruct (Gun.spend_ammo t' _) as [[[] | e |] s1]; simpl in Hk;
    [| exact Hk | exact Hk].
  rewrite run_bind.
  pose proof (regenerate_if_due_keeps t' s1 Hk) as Hr.
  destruct (Gun.regenerate_if_due t' s1) as [[[] | e |] s2]; simpl in Hr;
    [now apply IH | exact Hr | exact Hr].
Qed.

Lemma shot_pattern_keeps : keeps (world_ok w n) Gun.shot_pattern.
Proof.
  unfold Gun.shot_pattern, Gun._simultaneous_shots, Gun._successive_shots.
  apply keeps_get_bind. intros s Hs.
  destruct (Py.eq (Weapon.burst_delay (Gun.self s)) (VInt 0)).
  - apply keeps_get_bind; [| exact Hs]. intros s0 Hs0.
    apply keeps_bind; [apply keeps_lift | intros k; apply simultaneous_loop_keeps |
                       exact Hs0].
  - apply keeps_get_bind; [| exact Hs]. intros s0 Hs0.
    apply keeps_bind; [apply keeps_lift | intros k; apply successive_loop_keeps |
                       exact Hs0].
Qed.

Lemma set_time_keeps (t : Q) : keeps (world_ok w n) (modify (Gun.set_time t)).
Proof. apply keeps_modify. now intros s [H1 H2]. Qed.

Lemma cycle_keeps : keeps (world_ok w n) Gun.cycle.
Proof.
  unfold Gun.cycle.
  apply keeps_get_bind. intros s Hs.
  apply keeps_bind; [apply keeps_lift | intros t1 | exact Hs].
  apply keeps_bind; [apply set_time_keeps | intros _].
  apply keeps_bind; [apply regenerate_if_due_keeps | intros _].
  apply keeps_bind; [apply shot_pattern_keeps | intros _].
  apply keeps_get_bind. intros s1 Hs1.
  apply keeps_bind; [apply keeps_lift | intros t2 | exact Hs1].
  apply keeps_bind; [apply set_time_keeps | intros _].
  apply regenerate_if_due_keeps.
Qed.

Lemma while_loop_keeps (fuel : nat) : ∀ (s s' : Gun.World) (r : res unit),
  world_ok w n s → Gun.while_loop fuel s = Some (r, s') → world_ok w n s'.
Proof.
  induction fuel as [| fuel IH]; intros s s' r Hs; cbn [Gun.while_loop];
    [discriminate |].
  destruct (Qle_bool Gun.time_limit (Gun.time s)); [now intros [= <- <-] |].
  pose proof (cycle_keeps s Hs) as Hc.
  destruct (Gun.cycle s) as [[[] | e |] s1]; simpl in Hc.
  - now apply IH.
  - now intros [= <- <-].
  - now intros [= <- <-].
Qed.

Lemma enter_ok (distance : PyVal) (s0 : Gun.World) :
  Gun.enter w distance = Ok s0 → world_ok w n s0.
Proof.
  unfold Gun.enter, AmmoTracker.__init__. rewrite regen_decimal, finite_ammo.
  destruct (Py.truediv distance (Weapon.proj_speed w)) as [tt' | e |];
    simpl; try discriminate.
  unfold Py.truediv, Decimal.div. simpl.
  destruct (Qeq_bool regen 0); simpl; try discriminate.
  intros [= <-]. split; [reflexivity |]. simpl.
  repeat apply conj; simpl.
  - reflexivity.
  - now apply whole_int.
  - apply in_range_max.
  - exists 0, 0%Z. repeat apply conj; try reflexivity.
    intros d [= <-]. apply representable_0.
  - apply round_pos. apply Qlt_shift_div_l; [exact regen_positive |].
    rewrite Qmult_0_l. reflexivity.
  - constructor; [apply in_range_max | constructor].
Qed.

End AmmoRun.

(** An out-of-ammo burst fires nothing, in either pattern. *)
Lemma empty_stock_skips (k : nat) (s : Gun.World) :
  Py.eq (AmmoTracker.ammo (Gun.ammo_tracker s)) (VInt 0) = true →
  Gun.simultaneous_loop k s = (Ok tt, s)
  ∧ Gun.successive_loop k None s = (Ok tt, s).
Proof.
  intros H. induction k as [| k [IH1 IH2]]; [now split |].
  cbn [Gun.simultaneous_loop Gun.successive_loop].
  rewrite !run_bind. cbn [get]. rewrite H. now split.
Qed.

(** C10.  Through a run of [_gun_hit_sequence] for a weapon with an
    integer ammo count [n >= 0] and a positive Decimal [ammo_regen], the
    ammo of the tracker is a number between 0 and [n] at construction,
    after every shot and after every call of [regenerate_ammo], whether
    the run ends with a result or with an exception; and a burst fired
    on an empty stock changes nothing. *)
Theorem gun_ammo_stays_in_range
    (w : Weapon.t) (distance : PyVal) (regen : Q) (n : Z) (fuel : nat)
    (s0 s : Gun.World) (r : res unit) :
  Weapon.ammo w = VInt n → (0 <= n)%Z →
  Weapon.ammo_regen w = VDec regen → 0 < regen →
  Gun.enter w distance = Ok s0 →
  Gun.while_loop fuel s0 = Some (r, s) →
  in_range n (AmmoTracker.ammo (Gun.ammo_tracker s))
  ∧ Forall (in_range n) (AmmoTracker.ammo_history (Gun.ammo_tracker s))
  ∧ ∀ (k : nat) (s1 : Gun.World),
      Py.eq (AmmoTracker.ammo (Gun.ammo_tracker s1)) (VInt 0) = true →
      Gun.simultaneous_loop k s1 = (Ok tt, s1)
      ∧ Gun.successive_loop k None s1 = (Ok tt, s1).
Proof.
  intros Hammo Hn Hregen Hpos Henter Hrun.
  pose proof (enter_ok w regen n Hregen Hpos Hammo Hn distance s0 Henter) as H0.
  pose proof (while_loop_keeps w regen n Hregen Hpos Hammo Hn fuel s0 s r H0 Hrun)
    as (_ & _ & _ & Hin & _ & _ & Hhist).
  split; [exact Hin |]. split; [exact Hhist |]. intros k s1. apply empty_stock_skips.
Qed.

Lemma gun_ammo_stays_in_range_witness :
  ∃ s0 s r,
    Gun.enter Sample.gun (VInt 750) = Ok s0
    ∧ Gun.while_loop enough_turns s0 = Some (r, s)
    ∧ in_range 2 (AmmoTracker.ammo (Gun.ammo_tracker s))
    ∧ Forall (in_range 2) (AmmoTracker.ammo_history (Gun.ammo_tracker s))
    ∧ ∀ (k : nat) (s1 : Gun.World),
        Py.eq (AmmoTracker.ammo (Gun.ammo_tracker s1)) (VInt 0) = true →
        Gun.simultaneous_loop k s1 = (Ok tt, s1)
        ∧ Gun.successive_loop k None s1 = (Ok tt, s1).
Proof.
  eexists. eexists. eexists.
  split; [vm_compute; reflexivity |].
  split; [vm_compute; reflexivity |].
  eapply (gun_ammo_stays_in_range Sample.gun (VInt 750) (1 # 1000) 2 enough_turns);
    [ reflexivity | lia | reflexivity | reflexivity
    | vm_compute; reflexivity | vm_compute; reflexivity ].
Defined.

(** ** [regenerate_ammo] with no time elapsed, and after one second *)

Section Idle.

Import DecimalValue.

Lemma after_regeneration_fields (regen : Q) (n : Z) (t : Q) (tr : AmmoTracker.t)
    (pending credited : PyVal) (full : bool) :
  let tr' := after_regeneration regen n t tr pending credited full in
  let uncapped := if full then credited else AmmoTracker.ammo tr in
  AmmoTracker.ammo_regen_timer tr'
  = Decimal.add (AmmoTracker.ammo_regen_timer tr)
      (Decimal.round (inject_Z (regenerated_amount regen t tr) / regen))
  ∧ AmmoTracker.ammo_regenerated tr' = (if full then VInt 0 else pending)
  ∧ AmmoTracker.ammo tr'
    = (if Qle_bool (inject_Z n) (value uncapped) then VInt n else uncapped)
  ∧ AmmoTracker.regenerating_ammo tr'
    = (if Qle_bool (inject_Z n) (value uncapped) then false
       else AmmoTracker.regenerating_ammo tr).
Proof.
  unfold after_regeneration, after_credit, after_timer.
  destruct full; cbn [AmmoTracker.ammo AmmoTracker.set_ammo
                      AmmoTracker.set_ammo_regenerated
                      AmmoTracker.set_ammo_regen_timer];
    match goal with
    | |- context [Qle_bool ?a ?b] => destruct (Qle_bool a b)
    end; repeat apply conj; reflexivity.
Qed.

(** A sum that the context can hold is exact. *)
Lemma py_add_exact (a b : PyVal) (x y : Q) :
  Py.num a = Some x → Py.num b = Some y → representable (x + y) →
  ∃ c z, Py.add a b = Ok c ∧ Py.num c = Some z ∧ z == x + y.
Proof.
  intros Ha Hb Hr.
  destruct (py_add_numeric a b x y Ha Hb) as (c & z & Ec & Hz & [E | E]);
    exists c, z; repeat apply conj; try assumption.
  subst z. now apply round_exact.
Qed.

Lemma no_time_no_amount (regen t : Q) (tr : AmmoTracker.t) :
  t == AmmoTracker.ammo_regen_timer tr → regenerated_amount regen t tr = 0%Z.
Proof.
  intros E. unfold regenerated_amount, Decimal.sub, Decimal.mul.
  rewrite (round_zero (t - AmmoTracker.ammo_regen_timer tr)) by (rewrite E; ring).
  rewrite (round_zero (regen * 0)) by ring. reflexivity.
Qed.

Lemma timer_stays (regen timer : Q) :
  ¬ regen == 0 → representable timer →
  Decimal.add timer (Decimal.round (inject_Z 0 / regen)) == timer.
Proof.
  intros Hnz Hr. unfold Decimal.add.
  rewrite (round_zero (inject_Z 0 / regen)) by (field; exact Hnz).
  assert (E : timer + 0 == timer) by ring.
  rewrite (round_proper _ _ E). now apply round_exact.
Qed.

Variable w : Weapon.t.
Variables (regen : Q) (max_ammo : Z) (reload : Q).
Hypothesis regen_decimal : Weapon.ammo_regen w = VDec regen.
Hypothesis regen_positive : 0 < regen.
Hypothesis finite_ammo : Weapon.ammo w = VInt max_ammo.
Hypothesis reload_value : Py.num (Weapon.reload_size w) = Some reload.

Variable tr : AmmoTracker.t.
Variables have pending_before : Q.
Hypothesis tracker_weapon : AmmoTracker.weapon tr = w.
Hypothesis ammo_value : Py.num (AmmoTracker.ammo tr) = Some have.
Hypothesis regenerated_value :
  Py.num (AmmoTracker.ammo_regenerated tr) = Some pending_before.

(** The outcome when the two sums of the call are exact. *)
Lemma regenerate_exact (t : Q) (amount pending_after : Q) :
  inject_Z (regenerated_amount regen t tr) == amount →
  pending_after == pending_before + amount →
  representable pending_after →
  (reload <= pending_after → representable (have + pending_after)) →
  ∃ tr',
    AmmoTracker.regenerate_ammo t tr = (Ok tt, tr')
    ∧ AmmoTracker.ammo_regen_timer tr'
      = Decimal.add (AmmoTracker.ammo_regen_timer tr)
          (Decimal.round (inject_Z (regenerated_amount regen t tr) / regen))
    ∧ (pending_after < reload →
         value (AmmoTracker.ammo_regenerated tr') == pending_after
         ∧ ((have < inject_Z max_ammo →
               value (AmmoTracker.ammo tr') == have
               ∧ AmmoTracker.regenerating_ammo tr'
                 = AmmoTracker.regenerating_ammo tr)
            ∧ (inject_Z max_ammo <= have →
                 AmmoTracker.ammo tr' = VInt max_ammo
                 ∧ AmmoTracker.regenerating_ammo tr' = false)))
    ∧ (reload <= pending_after →
         value (AmmoTracker.ammo_regenerated tr') == 0
         ∧ ((have + pending_after < inject_Z max_ammo →
               value (AmmoTracker.ammo tr') == have + pending_after
               ∧ AmmoTracker.regenerating_ammo tr'
                 = AmmoTracker.regenerating_ammo tr)
            ∧ (inject_Z max_ammo <= have + pending_after →
                 AmmoTracker.ammo tr' = VInt max_ammo
                 ∧ AmmoTracker.regenerating_ammo tr' = false))).
Proof.
  intros Eamount Epending Hrp Hrc.
  assert (Hnz : ¬ regen == 0) by lra.
  destruct (regenerate_ammo_run w regen max_ammo regen_decimal Hnz finite_ammo
              tr have pending_before tracker_weapon ammo_value regenerated_value t)
    as (pending & credited & Ep & Ec & Hrun).
  destruct (py_add_exact (AmmoTracker.ammo_regenerated tr)
              (VInt (regenerated_amount regen t tr)) pending_before
              (inject_Z (regenerated_amount regen t tr)) regenerated_value eq_refl)
    as (p' & pv & Ep' & Hpv & Epv).
  { apply (representable_proper pending_after); [| exact Hrp].
    rewrite Epending, Eamount. reflexivity. }
  rewrite Ep in Ep'. injection Ep' as <-.
  assert (Epv' : pv == pending_after) by (rewrite Epv, Epending, Eamount; reflexivity).
  rewrite (py_ge_numeric pending _ pv reload Hpv reload_value) in Hrun.
  exists (after_regeneration regen max_ammo t tr pending credited (Qle_bool reload pv)).
  split; [exact Hrun |].
  destruct (after_regeneration_fields regen max_ammo t tr pending credited
              (Qle_bool reload pv)) as (Ft & Fg & Fa & Ff).
  split; [exact Ft |]. rewrite Fg, Fa, Ff.
  destruct (Qle_bool reload pv) eqn:Efull.
  - apply Qle_bool_iff in Efull. split; [intros C; lra |]. intros Hfull.
    split; [reflexivity |].
    destruct (py_add_exact (AmmoTracker.ammo tr) pending have pv ammo_value Hpv)
      as (c' & cv & Ec' & Hcv & Ecv).
    { apply (representable_proper (have + pending_after)); [| now apply Hrc].
      rewrite Epv'. reflexivity. }
    rewrite Ec in Ec'. injection Ec' as <-.
    assert (Hval : value credited = cv) by (unfold value; now rewrite Hcv).
    rewrite !Hval.
    destruct (Qle_bool (inject_Z max_ammo) cv) eqn:Ecap.
    + apply Qle_bool_iff in Ecap. split; [intros C; lra | intros _; split; reflexivity].
    + assert (cv < inject_Z max_ammo).
      { apply Qnot_le_lt. intros C. apply Qle_bool_iff in C. congruence. }
      split; [| intros C; lra]. intros _. split; [| reflexivity].
      rewrite Hval. lra.
  - assert (pv < reload).
    { apply Qnot_le_lt. intros C. apply Qle_bool_iff in C. congruence. }
    split; [| intros C; lra]. intros _.
    split; [unfold value; rewrite Hpv; cbn; lra |].
    assert (Hval : value (AmmoTracker.ammo tr) = have)
      by (unfold value; now rewrite ammo_value).
    rewrite !Hval.
    destruct (Qle_bool (inject_Z max_ammo) have) eqn:Ecap.
    + apply Qle_bool_iff in Ecap. split; [intros C; lra | intros _; split; reflexivity].
    + assert (have < inject_Z max_ammo).
      { apply Qnot_le_lt. intros C. apply Qle_bool_iff in C. congruence. }
      split; [| intros C; lra]. intros _. split; [| reflexivity].
      rewrite Hval. lra.
Qed.

End Idle.

(** ** [regenerate_ammo] where the context is exact *)

Section ExactCall.

Import DecimalValue.

Lemma sub_exact (t timer : Q) :
  representable (t - timer) → Decimal.sub t timer == t - timer.
Proof. intros H. unfold Decimal.sub. now apply round_exact. Qed.

Lemma amount_exact (regen t : Q) (tr : AmmoTracker.t) :
  representable (t - AmmoTracker.ammo_regen_timer tr) →
  representable (regen * (t - AmmoTracker.ammo_regen_timer tr)) →
  regenerated_amount regen t tr = whole_units regen t tr.
Proof.
  intros Hd Hp. unfold regenerated_amount, whole_units, Decimal.mul.
  apply to_int_proper.
  assert (E : regen * Decimal.sub t (AmmoTracker.ammo_regen_timer tr)
              == regen * (t - AmmoTracker.ammo_regen_timer tr)).
  { apply Qmult_comp; [reflexivity | now apply sub_exact]. }
  rewrite (round_proper _ _ E). now apply round_exact.
Qed.

Lemma timer_exact (regen timer : Q) (n : Z) :
  representable (inject_Z n / regen) →
  representable (timer + inject_Z n / regen) →
  Decimal.add timer (Decimal.round (inject_Z n / regen))
  == timer + inject_Z n / regen.
Proof.
  intros Hs Ht. unfold Decimal.add.
  assert (E : timer + Decimal.round (inject_Z n / regen)
              == timer + inject_Z n / regen).
  { apply Qplus_comp; [reflexivity | now apply round_exact]. }
  rewrite (round_proper _ _ E). now apply round_exact.
Qed.

(** What is left of the elapsed time after the whole units is less
    than one unit. *)
Lemma fraction_left (regen t timer timer' : Q) (n : Z) :
  0 < regen → timer <= t →
  n = Decimal.to_int (regen * (t - timer)) →
  timer' == timer + inject_Z n / regen →
  0 <= regen * (t - timer') ∧ regen * (t - timer') < 1.
Proof.
  intros Hr Ht Hn E.
  assert (Hx : 0 <= regen * (t - timer)).
  { apply Qmult_le_0_compat; lra. }
  rewrite (to_int_nonneg _ Hx) in Hn.
  pose proof (Qfloor_le (regen * (t - timer))) as Hlo.
  pose proof (Qlt_floor (regen * (t - timer))) as Hhi.
  rewrite inject_Z_plus in Hhi. change (inject_Z 1) with 1 in Hhi.
  rewrite <- Hn in Hlo, Hhi.
  assert (E' : regen * (t - timer') == regen * (t - timer) - inject_Z n).
  { rewrite E. field. lra. }
  rewrite E'. split; lra.
Qed.

End ExactCall.

(** C5, where the decimal context is exact.  For a tracker over a
    weapon with a positive Decimal [ammo_regen], an integer ammo count
    [max_ammo] and a numeric [reload_size], when the numbers of the
    call are values the six digits of the context can hold
    ([1 / ammo_regen], the elapsed [t - regen_timer], the units
    [ammo_regen * (t - regen_timer)], the step of the timer and the new
    timer, the new pending amount and, where it is credited, the new
    ammo):
    - [should_regenerate_ammo(t)] holds exactly when
      [t - regen_timer >= 1 / ammo_regen];
    - [regenerate_ammo(t)] returns; its [amount] is the whole part of
      [ammo_regen * (t - regen_timer)]; the timer moves on by
      [amount / ammo_regen] only, so that less than one unit of
      progress stays on the clock for the next call;
    - the pending ammo grows by [amount] and is credited to [ammo]
      only when it has reached [reload_size] (then nothing is left
      pending), otherwise [ammo] is left alone;
    - [ammo] is capped at [max_ammo], and the regenerating flag is
      cleared exactly when the cap is reached. *)
Theorem regenerate_ammo_exact_behaviour
    (w : Weapon.t) (regen : Q) (max_ammo : Z) (reload : Q)
    (tr : AmmoTracker.t) (have pending_before t : Q) :
  Weapon.ammo_regen w = VDec regen → 0 < regen →
  Weapon.ammo w = VInt max_ammo →
  Py.num (Weapon.reload_size w) = Some reload →
  AmmoTracker.weapon tr = w →
  Decimal.div 1 regen = Ok (AmmoTracker.ammo_regen_time tr) →
  Py.num (AmmoTracker.ammo tr) = Some have →
  Py.num (AmmoTracker.ammo_regenerated tr) = Some pending_before →
  DecimalValue.representable (1 / regen) →
  DecimalValue.representable (t - AmmoTracker.ammo_regen_timer tr) →
  DecimalValue.representable (regen * (t - AmmoTracker.ammo_regen_timer tr)) →
  DecimalValue.representable (inject_Z (whole_units regen t tr) / regen) →
  DecimalValue.representable
    (AmmoTracker.ammo_regen_timer tr + inject_Z (whole_units regen t tr) / regen) →
  DecimalValue.representable (pending_before + inject_Z (whole_units regen t tr)) →
  (reload <= pending_before + inject_Z (whole_units regen t tr) →
   DecimalValue.representable
     (have + (pending_before + inject_Z (whole_units regen t tr)))) →
  (AmmoTracker.should_regenerate_ammo t tr = true
   ↔ 1 / regen <= t - AmmoTracker.ammo_regen_timer tr)
  ∧ ∃ tr',
      AmmoTracker.regenerate_ammo t tr = (Ok tt, tr')
      ∧ AmmoTracker.ammo_regen_timer tr'
        == AmmoTracker.ammo_regen_timer tr
           + inject_Z (whole_units regen t tr) / regen
      ∧ (AmmoTracker.ammo_regen_timer tr <= t →
         0 <= regen * (t - AmmoTracker.ammo_regen_timer tr')
         ∧ regen * (t - AmmoTracker.ammo_regen_timer tr') < 1)
      ∧ (pending_before + inject_Z (whole_units regen t tr) < reload →
           value (AmmoTracker.ammo_regenerated tr')
           == pending_before + inject_Z (whole_units regen t tr)
           ∧ ((have < inject_Z max_ammo →
                 value (AmmoTracker.ammo tr') == have
                 ∧ AmmoTracker.regenerating_ammo tr'
                   = AmmoTracker.regenerating_ammo tr)
              ∧ (inject_Z max_ammo <= have →
                   AmmoTracker.ammo tr' = VInt max_ammo
                   ∧ AmmoTracker.regenerating_ammo tr' = false)))
      ∧ (reload <= pending_before + inject_Z (whole_units regen t tr) →
           value (AmmoTracker.ammo_regenerated tr') == 0
           ∧ ((have + (pending_before + inject_Z (whole_units regen t tr))
               < inject_Z max_ammo →
                 value (AmmoTracker.ammo tr')
                 == have + (pending_before + inject_Z (whole_units regen t tr))
                 ∧ AmmoTracker.regenerating_ammo tr'
                   = AmmoTracker.regenerating_ammo tr)
              ∧ (inject_Z max_ammo
                 <= have + (pending_before + inject_Z (whole_units regen t tr)) →
                   AmmoTracker.ammo tr' = VInt max_ammo
                   ∧ AmmoTracker.regenerating_ammo tr' = false))).
Proof.
  intros Hregen Hpos Hammo Hreload Hw Htime Hhave Hpending
         Rinv Rd Rp Rs Rt Rg Rc.
  split.
  - unfold AmmoTracker.should_regenerate_ammo. rewrite Qle_bool_iff.
    unfold Decimal.div in Htime.
    destruct (Qeq_bool regen 0) eqn:E; [apply Qeq_bool_iff in E; lra |].
    injection Htime as <-.
    rewrite (round_exact _ Rinv), (sub_exact _ _ Rd). reflexivity.
  - pose proof (amount_exact regen t tr Rd Rp) as Hamount.
    destruct (regenerate_exact w regen max_ammo reload Hregen Hpos Hammo Hreload
                tr have pending_before Hw Hhave Hpending t
                (inject_Z (whole_units regen t tr))
                (pending_before + inject_Z (whole_units regen t tr)))
      as (tr' & Hrun & Ht & Hlow & Hfull).
    + now rewrite Hamount.
    + reflexivity.
    + exact Rg.
    + exact Rc.
    + exists tr'. split; [exact Hrun |].
      assert (Etimer : AmmoTracker.ammo_regen_timer tr'
                       == AmmoTracker.ammo_regen_timer tr
                          + inject_Z (whole_units regen t tr) / regen).
      { rewrite Ht, Hamount. now apply timer_exact. }
      split; [exact Etimer |]. split.
      { intros Hle.
        apply (fraction_left regen t (AmmoTracker.ammo_regen_timer tr)
                 (AmmoTracker.ammo_regen_timer tr') (whole_units regen t tr));
          (assumption || reflexivity). }
      split; [exact Hlow | exact Hfull].
Qed.

Lemma regenerate_ammo_exact_behaviour_witness :
  let tr := Sample.gun_tracker in
  let n := whole_units (1 # 1000) 3000 tr in
  (AmmoTracker.should_regenerate_ammo 3000 tr = true
   ↔ 1 / (1 # 1000) <= 3000 - AmmoTracker.ammo_regen_timer tr)
  ∧ ∃ tr',
      AmmoTracker.regenerate_ammo 3000 tr = (Ok tt, tr')
      ∧ AmmoTracker.ammo_regen_timer tr'
        == AmmoTracker.ammo_regen_timer tr + inject_Z n / (1 # 1000)
      ∧ (AmmoTracker.ammo_regen_timer tr <= 3000 →
         0 <= (1 # 1000) * (3000 - AmmoTracker.ammo_regen_timer tr')
         ∧ (1 # 1000) * (3000 - AmmoTracker.ammo_regen_timer tr') < 1)
      ∧ (0 + inject_Z n < 1 →
           value (AmmoTracker.ammo_regenerated tr') == 0 + inject_Z n
           ∧ ((2 < inject_Z 2 →
                 value (AmmoTracker.ammo tr') == 2
                 ∧ AmmoTracker.regenerating_ammo tr'
                   = AmmoTracker.regenerating_ammo tr)
              ∧ (inject_Z 2 <= 2 →
                   AmmoTracker.ammo tr' = VInt 2
                   ∧ AmmoTracker.regenerating_ammo tr' = false)))
      ∧ (1 <= 0 + inject_Z n →
           value (AmmoTracker.ammo_regenerated tr') == 0
           ∧ ((2 + (0 + inject_Z n) < inject_Z 2 →
                 value (AmmoTracker.ammo tr') == 2 + (0 + inject_Z n)
                 ∧ AmmoTracker.regenerating_ammo tr'
                   = AmmoTracker.regenerating_ammo tr)
              ∧ (inject_Z 2 <= 2 + (0 + inject_Z n) →
                   AmmoTracker.ammo tr' = VInt 2
                   ∧ AmmoTracker.regenerating_ammo tr' = false))).
Proof.
  apply (regenerate_ammo_exact_behaviour Sample.gun (1 # 1000) 2 1
           Sample.gun_tracker 2 0 3000); try reflexivity.
  - exists 1000%Z, 0%Z. split; [reflexivity | vm_compute; reflexivity].
  - exists 3000%Z, 0%Z. split; [reflexivity | vm_compute; reflexivity].
  - exists 3%Z, 0%Z. split; [reflexivity | vm_compute; reflexivity].
  - exists 3000%Z, 0%Z. split; [reflexivity | vm_compute; reflexivity].
  - exists 3000%Z, 0%Z. split; [reflexivity | vm_compute; reflexivity].
  - exists 3%Z, 0%Z. split; [reflexivity | vm_compute; reflexivity].
  - intros _. exists 5%Z, 0%Z. split; [reflexivity | vm_compute; reflexivity].
Defined.

(** C5 as the specification words it fails where the context rounds.
    At three rounds a second the tracker holds [1 / 3] as 0.333333, so
    [should_regenerate_ammo] holds after 0.333333 s, before a third of
    a second has passed.  With 1000001 rounds left of five million, one
    round a second and a reload size of 1, the round regenerated after
    one second is credited as [1000001 + Decimal(1)], which the context
    rounds to 1000000: the credit lowers the ammo. *)
Lemma regenerate_ammo_behaviour_counterexample :
  (∃ tr,
     AmmoTracker.__init__ Sample.third_gun = Ok tr
     ∧ AmmoTracker.should_regenerate_ammo (333333 # 1000000) tr = true
     ∧ (333333 # 1000000) - AmmoTracker.ammo_regen_timer tr < 1 / 3)
  ∧ (∃ tr',
       AmmoTracker.regenerate_ammo 1 Sample.million_tracker = (Ok tt, tr')
       ∧ regenerated_amount 1 1 Sample.million_tracker = 1%Z
       ∧ value (AmmoTracker.ammo Sample.million_tracker) == 1000001
       ∧ value (AmmoTracker.ammo tr') == 1000000).
Proof.
  split.
  - eexists. split; [vm_compute; reflexivity |].
    split; vm_compute; reflexivity.
  - eexists. split; [vm_compute; reflexivity |].
    repeat apply conj; vm_compute; reflexivity.
Qed.

(** ** Successive calls of [regenerate_ammo] *)

Section UnitRate.

Import DecimalValue.

Variable w : Weapon.t.
Variables (regen : Q) (max_ammo : Z) (reload : Q).
Hypothesis regen_decimal : Weapon.ammo_regen w = VDec regen.
Hypothesis regen_positive : 0 < regen.
Hypothesis finite_ammo : Weapon.ammo w = VInt max_ammo.
Hypothesis reload_value : Py.num (Weapon.reload_size w) = Some reload.

(** A call that returns leaves numbers in the tracker. *)
Lemma regenerate_numeric (tr tr' : AmmoTracker.t) (have pending_before t : Q) :
  AmmoTracker.weapon tr = w →
  Py.num (AmmoTracker.ammo tr) = Some have →
  Py.num (AmmoTracker.ammo_regenerated tr) = Some pending_before →
  AmmoTracker.regenerate_ammo t tr = (Ok tt, tr') →
  AmmoTracker.weapon tr' = w
  ∧ (∃ a, Py.num (AmmoTracker.ammo tr') = Some a)
  ∧ ∃ p, Py.num (AmmoTracker.ammo_regenerated tr') = Some p.
Proof.
  intros Hw Hhave Hpending Hrun.
  assert (Hnz : ¬ regen == 0) by lra.
  destruct (regenerate_ammo_run w regen max_ammo regen_decimal Hnz finite_ammo
              tr have pending_before Hw Hhave Hpending t)
    as (pending & credited & Ep & Ec & Hrun').
  destruct (py_add_numeric (AmmoTracker.ammo_regenerated tr)
              (VInt (regenerated_amount regen t tr)) _ _ Hpending eq_refl)
    as (p' & pv & Ep' & Hpv & _).
  rewrite Ep in Ep'. injection Ep' as <-.
  destruct (py_add_numeric _ _ _ _ Hhave Hpv) as (c' & cv & Ec' & Hcv & _).
  rewrite Ec in Ec'. injection Ec' as <-.
  rewrite (py_ge_numeric pending _ pv reload Hpv reload_value) in Hrun'.
  rewrite Hrun in Hrun'. injection Hrun' as ->.
  destruct (after_regeneration_fields regen max_ammo t tr pending credited
              (Qle_bool reload pv)) as (_ & Fg & Fa & _).
  split; [| split].
  - rewrite <- Hw. unfold after_regeneration, after_credit, after_timer.
    destruct (Qle_bool reload pv);
      match goal with
      | |- context [Qle_bool ?a ?b] => destruct (Qle_bool a b)
      end; reflexivity.
  - rewrite Fa.
    destruct (Qle_bool reload pv);
      match goal with
      | |- context [Qle_bool ?a ?b] => destruct (Qle_bool a b)
      end; eexists; first [reflexivity | eassumption].
  - rewrite Fg.
    destruct (Qle_bool reload pv); eexists; first [reflexivity | eassumption].
Qed.

Lemma value_of_number (v : PyVal) (x : Q) :
  (∃ a, Py.num v = Some a) → value v == x → ∃ a, Py.num v = Some a ∧ a == x.
Proof.
  intros [a Ha] Hv. exists a. split; [exact Ha |].
  unfold value in Hv. now rewrite Ha in Hv.
Qed.

Lemma floor_unique (y : Q) (m : Z) :
  inject_Z m <= y → y < inject_Z m + 1 → Qfloor y = m.
Proof.
  intros Hlo Hhi.
  pose proof (Qfloor_le y) as Flo. pose proof (Qlt_floor y) as Fhi.
  rewrite inject_Z_plus in Fhi. change (inject_Z 1) with 1 in Fhi.
  assert (Qfloor y <= m)%Z by (apply inject_Z_lt_le_succ; lra).
  assert (m <= Qfloor y)%Z by (apply inject_Z_lt_le_succ; lra).
  lia.
Qed.

(** Whole units taken from an elapsed time leave its other whole
    units. *)
Lemma to_int_shift (x : Q) (k : Z) :
  inject_Z k <= x → (0 <= k)%Z →
  Decimal.to_int (x - inject_Z k) = (Decimal.to_int x - k)%Z.
Proof.
  intros Hk Hpos.
  assert (H0 : 0 <= inject_Z k).
  { change 0 with (inject_Z 0). now rewrite <- Zle_Qle. }
  rewrite (to_int_nonneg x) by lra.
  rewrite (to_int_nonneg (x - inject_Z k)) by lra.
  pose proof (Qfloor_le x) as Flo. pose proof (Qlt_floor x) as Fhi.
  rewrite inject_Z_plus in Fhi. change (inject_Z 1) with 1 in Fhi.
  apply floor_unique; unfold Z.sub; rewrite inject_Z_plus, inject_Z_opp; lra.
Qed.

Lemma to_int_floor_le (x : Q) : 0 <= x → inject_Z (Decimal.to_int x) <= x.
Proof. intros H. rewrite (to_int_nonneg x H). apply Qfloor_le. Qed.

Hypothesis unit_rate : regen == 1.
Hypothesis unit_reload : reload == 1.

Lemma whole_units_unit_rate (t : Q) (tr : AmmoTracker.t) :
  whole_units regen t tr = Decimal.to_int (t - AmmoTracker.ammo_regen_timer tr).
Proof.
  unfold whole_units. apply to_int_proper. rewrite unit_rate. ring.
Qed.

(** One call at the rate of one round a second, one at a time: the
    whole seconds since the timer are credited and the timer moves on
    by them. *)
Lemma unit_rate_call (tr : AmmoTracker.t) (have pending_before t : Q) :
  AmmoTracker.weapon tr = w →
  Py.num (AmmoTracker.ammo tr) = Some have →
  Py.num (AmmoTracker.ammo_regenerated tr) = Some pending_before →
  pending_before == 0 →
  AmmoTracker.ammo_regen_timer tr <= t →
  representable (t - AmmoTracker.ammo_regen_timer tr) →
  representable (inject_Z (whole_units regen t tr)) →
  representable (AmmoTracker.ammo_regen_timer tr
                 + inject_Z (whole_units regen t tr)) →
  representable (have + inject_Z (whole_units regen t tr)) →
  have + inject_Z (whole_units regen t tr) <= inject_Z max_ammo →
  ∃ tr' a' p',
    AmmoTracker.regenerate_ammo t tr = (Ok tt, tr')
    ∧ AmmoTracker.weapon tr' = w
    ∧ Py.num (AmmoTracker.ammo tr') = Some a'
    ∧ a' == have + inject_Z (whole_units regen t tr)
    ∧ Py.num (AmmoTracker.ammo_regenerated tr') = Some p'
    ∧ p' == 0
    ∧ AmmoTracker.ammo_regen_timer tr'
      == AmmoTracker.ammo_regen_timer tr + inject_Z (whole_units regen t tr).
Proof.
  intros Hw Hhave Hpending Ezero Hle Rd Rn Rt Ra Hroom.
  set (n := whole_units regen t tr) in *.
  assert (Hn0 : (0 <= n)%Z).
  { subst n. rewrite whole_units_unit_rate. apply to_int_sign. lra. }
  assert (Rp : representable (regen * (t - AmmoTracker.ammo_regen_timer tr))).
  { apply (representable_proper (t - AmmoTracker.ammo_regen_timer tr));
      [rewrite unit_rate; ring | exact Rd]. }
  pose proof (amount_exact regen t tr Rd Rp) as Hamount. fold n in Hamount.
  assert (Ediv : inject_Z n / regen == inject_Z n).
  { unfold Qdiv. rewrite unit_rate. change (/ 1) with 1. ring. }
  destruct (regenerate_exact w regen max_ammo reload regen_decimal regen_positive
              finite_ammo reload_value tr have pending_before Hw Hhave Hpending
              t (inject_Z n) (inject_Z n))
    as (tr' & Hrun & Ht & Hlow & Hfull).
  { now rewrite Hamount. }
  { rewrite Ezero. ring. }
  { exact Rn. }
  { intros _. exact Ra. }
  destruct (regenerate_numeric tr tr' have pending_before t Hw Hhave Hpending Hrun)
    as (Hw' & Hna & Hnp).
  assert (Etimer : AmmoTracker.ammo_regen_timer tr'
                   == AmmoTracker.ammo_regen_timer tr + inject_Z n).
  { rewrite Ht, Hamount.
    rewrite (timer_exact regen (AmmoTracker.ammo_regen_timer tr) n).
    - now rewrite Ediv.
    - now apply (representable_proper (inject_Z n)).
    - apply (representable_proper
               (AmmoTracker.ammo_regen_timer tr + inject_Z n)); [| exact Rt].
      now rewrite Ediv. }
  assert (Hcases : inject_Z n < reload ∧ n = 0%Z ∨ reload <= inject_Z n).
  { destruct (Z_lt_le_dec n 1) as [Hlt | Hge].
    - left. assert (n = 0%Z) by lia. subst n. split; [| assumption].
      rewrite H, unit_reload. reflexivity.
    - right. rewrite unit_reload. change 1 with (inject_Z 1).
      now rewrite <- Zle_Qle. }
  assert (Hvals : value (AmmoTracker.ammo tr') == have + inject_Z n
                  ∧ value (AmmoTracker.ammo_regenerated tr') == 0).
  { destruct Hcases as [[Hlt Hz] | Hge].
    - destruct (Hlow Hlt) as (Eg & Hbelow & Hat).
      assert (Ez : inject_Z n == 0) by (rewrite Hz; reflexivity).
      split; [| rewrite Eg; exact Ez].
      destruct (Qlt_le_dec have (inject_Z max_ammo)) as [Hc | Hc].
      + destruct (Hbelow Hc) as [Ea _]. rewrite Ea, Ez. ring.
      + destruct (Hat Hc) as [Ea _]. rewrite Ea. unfold value. simpl.
        rewrite Ez in Hroom. rewrite Ez. lra.
    - destruct (Hfull Hge) as (Eg & Hbelow & Hat).
      split; [| exact Eg].
      destruct (Qlt_le_dec (have + inject_Z n) (inject_Z max_ammo)) as [Hc | Hc].
      + now destruct (Hbelow Hc) as [Ea _].
      + destruct (Hat Hc) as [Ea _]. rewrite Ea. unfold value. simpl. lra. }
  destruct Hvals as [Va Vp].
  destruct (value_of_number _ _ Hna Va) as (a' & Ha' & Ea').
  destruct (value_of_number _ _ Hnp Vp) as (p' & Hp' & Ep').
  exists tr', a', p'. repeat apply conj; assumption.
Qed.

End UnitRate.

(** C8, within the six digits of the decimal context.  For a tracker
    whose ammo count, pending regenerated ammo and timer are values the
    context can hold, with nothing pending at or above [reload_size]
    (or nothing pending at all) and ammo below the maximum (or at the
    maximum with the regenerating flag off):
    - [regenerate_ammo(t)] with [t] equal to the timer leaves ammo,
      pending ammo, timer and flag as they are;
    - with [ammo_regen = 1], [reload_size = 1], nothing pending and
      room for one more round, a call after exactly one second of
      elapsed time credits one round, leaves nothing pending, and moves
      the timer on by that one second;
    - at that rate, the fraction of a second a call leaves uncredited
      stays on the clock: a call at [t1] followed by a call at [t2]
      credits, in all, the whole seconds from the timer to [t2], and
      the timer ends that many seconds on. *)
Theorem regenerate_ammo_idle_and_unit
    (w : Weapon.t) (regen : Q) (max_ammo : Z) (reload : Q)
    (tr : AmmoTracker.t) (have pending_before : Q) :
  Weapon.ammo_regen w = VDec regen → 0 < regen →
  Weapon.ammo w = VInt max_ammo →
  Py.num (Weapon.reload_size w) = Some reload →
  AmmoTracker.weapon tr = w →
  Py.num (AmmoTracker.ammo tr) = Some have →
  Py.num (AmmoTracker.ammo_regenerated tr) = Some pending_before →
  DecimalValue.representable (AmmoTracker.ammo_regen_timer tr) →
  DecimalValue.representable pending_before →
  DecimalValue.representable have →
  pending_before < reload ∨ pending_before == 0 →
  have < inject_Z max_ammo
  ∨ (have == inject_Z max_ammo ∧ AmmoTracker.regenerating_ammo tr = false) →
  (∀ t, t == AmmoTracker.ammo_regen_timer tr →
     ∃ tr',
       AmmoTracker.regenerate_ammo t tr = (Ok tt, tr')
       ∧ value (AmmoTracker.ammo tr') == have
       ∧ value (AmmoTracker.ammo_regenerated tr') == pending_before
       ∧ AmmoTracker.ammo_regen_timer tr' == AmmoTracker.ammo_regen_timer tr
       ∧ AmmoTracker.regenerating_ammo tr' = AmmoTracker.regenerating_ammo tr)
  ∧ (regen == 1 → reload == 1 → pending_before == 0 →
     DecimalValue.representable (have + 1) → have + 1 <= inject_Z max_ammo →
     DecimalValue.representable (AmmoTracker.ammo_regen_timer tr + 1) →
     ∀ t, Decimal.sub t (AmmoTracker.ammo_regen_timer tr) == 1 →
       ∃ tr',
         AmmoTracker.regenerate_ammo t tr = (Ok tt, tr')
         ∧ value (AmmoTracker.ammo tr') == have + 1
         ∧ value (AmmoTracker.ammo_regenerated tr') == 0
         ∧ AmmoTracker.ammo_regen_timer tr'
           == AmmoTracker.ammo_regen_timer tr + 1)
  ∧ (regen == 1 → reload == 1 → pending_before == 0 →
     ∀ t1 t2,
       AmmoTracker.ammo_regen_timer tr <= t1 → t1 <= t2 →
       DecimalValue.representable (t1 - AmmoTracker.ammo_regen_timer tr) →
       DecimalValue.representable (inject_Z (whole_units regen t1 tr)) →
       DecimalValue.representable
         (AmmoTracker.ammo_regen_timer tr + inject_Z (whole_units regen t1 tr)) →
       DecimalValue.representable (have + inject_Z (whole_units regen t1 tr)) →
       DecimalValue.representable
         (t2 - (AmmoTracker.ammo_regen_timer tr
                + inject_Z (whole_units regen t1 tr))) →
       DecimalValue.representable
         (inject_Z (whole_units regen t2 tr - whole_units regen t1 tr)) →
       DecimalValue.representable
         (AmmoTracker.ammo_regen_timer tr + inject_Z (whole_units regen t2 tr)) →
       DecimalValue.representable (have + inject_Z (whole_units regen t2 tr)) →
       have + inject_Z (whole_units regen t2 tr) <= inject_Z max_ammo →
       ∃ tr1 tr2,
         AmmoTracker.regenerate_ammo t1 tr = (Ok tt, tr1)
         ∧ AmmoTracker.regenerate_ammo t2 tr1 = (Ok tt, tr2)
         ∧ value (AmmoTracker.ammo tr2)
           == have + inject_Z (whole_units regen t2 tr)
         ∧ value (AmmoTracker.ammo_regenerated tr2) == 0
         ∧ AmmoTracker.ammo_regen_timer tr2
           == AmmoTracker.ammo_regen_timer tr
              + inject_Z (whole_units regen t2 tr)).
Proof.
  intros Hregen Hpos Hammo Hreload Hw Hhave Hpending Rt Rg Ra Hpend Hcap.
  assert (Hnz : ¬ regen == 0) by lra.
  split; [| split].
  - intros t Et.
    pose proof (no_time_no_amount regen t tr Et) as Hamount.
    destruct (regenerate_exact w regen max_ammo reload Hregen Hpos Hammo Hreload
                tr have pending_before Hw Hhave Hpending t 0 pending_before)
      as (tr' & Hrun & Ht & Hlow & Hfull).
    + now rewrite Hamount.
    + ring.
    + exact Rg.
    + intros C. apply (representable_proper have); [| exact Ra].
      destruct Hpend as [Hp | Hp]; [lra | rewrite Hp; ring].
    + exists tr'. split; [exact Hrun |].
      assert (Etimer : AmmoTracker.ammo_regen_timer tr'
                       == AmmoTracker.ammo_regen_timer tr).
      { rewrite Ht, Hamount. now apply timer_stays. }
      destruct (Qlt_le_dec pending_before reload) as [Hp | Hp].
      * destruct (Hlow Hp) as (Eg & Hbelow & Hat).
        destruct Hcap as [Hc | [Hc Hflag]].
        -- destruct (Hbelow Hc) as [Ea Ef]. now repeat apply conj.
        -- destruct (Hat ltac:(lra)) as [Ea Ef]. rewrite Ea, Ef.
           repeat apply conj; try assumption; try (now symmetry); try lra;
             try (unfold value; simpl; lra); try (unfold value; simpl; now symmetry).
      * destruct (Hfull Hp) as (Eg & Hbelow & Hat).
        assert (Ez : pending_before == 0) by (destruct Hpend; [lra | assumption]).
        destruct Hcap as [Hc | [Hc Hflag]].
        -- destruct (Hbelow ltac:(lra)) as [Ea Ef].
           repeat apply conj; try assumption; try (now symmetry); try lra;
             try (unfold value; simpl; lra); try (unfold value; simpl; now symmetry).
        -- destruct (Hat ltac:(lra)) as [Ea Ef]. rewrite Ea, Ef.
           repeat apply conj; try assumption; try (now symmetry); try lra;
             try (unfold value; simpl; lra); try (unfold value; simpl; now symmetry).
  - intros Eregen Ereload Ezero Rnext Hroom Rtimer t Eelapsed.
    assert (Eprod : regen * Decimal.sub t (AmmoTracker.ammo_regen_timer tr) == 1)
      by (rewrite Eregen, Eelapsed; ring).
    assert (Rone : DecimalValue.representable 1).
    { exists 1%Z, 0%Z. split; [reflexivity | ring]. }
    assert (Hamount : regenerated_amount regen t tr = 1%Z).
    { unfold regenerated_amount, Decimal.mul.
      rewrite (to_int_proper _ 1); [reflexivity |].
      rewrite (round_proper _ _ Eprod). now apply round_exact. }
    destruct (regenerate_exact w regen max_ammo reload Hregen Hpos Hammo Hreload
                tr have pending_before Hw Hhave Hpending t 1 1)
      as (tr' & Hrun & Ht & _ & Hfull).
    + now rewrite Hamount.
    + rewrite Ezero. ring.
    + exact Rone.
    + now intros _.
    + exists tr'. split; [exact Hrun |].
      destruct (Hfull ltac:(lra)) as (Eg & Hbelow & Hat).
      assert (Etimer : AmmoTracker.ammo_regen_timer tr'
                       == AmmoTracker.ammo_regen_timer tr + 1).
      { rewrite Ht, Hamount. unfold Decimal.add.
        assert (E1 : inject_Z 1 / regen == 1) by (rewrite Eregen; reflexivity).
        assert (E2 : AmmoTracker.ammo_regen_timer tr
                     + Decimal.round (inject_Z 1 / regen)
                     == AmmoTracker.ammo_regen_timer tr + 1).
        { apply Qplus_comp; [reflexivity |].
          rewrite (round_proper _ _ E1). now apply round_exact. }
        rewrite (round_proper _ _ E2). now apply round_exact. }
      destruct (Qlt_le_dec (have + 1) (inject_Z max_ammo)) as [Hc | Hc].
      * destruct (Hbelow Hc) as [Ea Ef]. now repeat apply conj.
      * destruct (Hat Hc) as [Ea Ef]. rewrite Ea.
        repeat apply conj; try assumption; try (now symmetry); try lra;
             try (unfold value; simpl; lra); try (unfold value; simpl; now symmetry).
  - intros Eregen Ereload Ezero t1 t2 Hle1 Hle2 R1 Rn1 Rt1 Ra1 R2 Rn2 Rt2 Ra2 Hroom.
    pose proof (whole_units_unit_rate regen Eregen t1 tr) as En1.
    pose proof (whole_units_unit_rate regen Eregen t2 tr) as En2.
    set (n1 := whole_units regen t1 tr) in *.
    set (n2 := whole_units regen t2 tr) in *.
    assert (H1 : 0 <= t1 - AmmoTracker.ammo_regen_timer tr) by lra.
    assert (H2 : 0 <= t2 - AmmoTracker.ammo_regen_timer tr) by lra.
    assert (Hn1 : (0 <= n1)%Z) by (rewrite En1; now apply to_int_sign).
    assert (Hf1 : inject_Z n1 <= t1 - AmmoTracker.ammo_regen_timer tr).
    { rewrite En1. now apply to_int_floor_le. }
    assert (Hmono : (n1 <= n2)%Z).
    { rewrite En1, En2, !to_int_nonneg by assumption.
      apply Qfloor_resp_le. lra. }
    assert (Hq : inject_Z n1 <= inject_Z n2) by now rewrite <- Zle_Qle.
    assert (Ediff : inject_Z (n2 - n1) == inject_Z n2 - inject_Z n1).
    { unfold Z.sub. rewrite inject_Z_plus, inject_Z_opp. ring. }
    destruct (unit_rate_call w regen max_ammo reload Hregen Hpos Hammo Hreload
                Eregen Ereload tr have pending_before t1 Hw Hhave Hpending Ezero
                Hle1 R1 Rn1 Rt1 Ra1 ltac:(fold n1; lra))
      as (tr1 & a1 & p1 & Hrun1 & Hw1 & Ha1 & Ea1 & Hp1 & Ep1 & Et1).
    fold n1 in Ea1, Et1.
    assert (Eelapsed : t2 - AmmoTracker.ammo_regen_timer tr1
                       == t2 - AmmoTracker.ammo_regen_timer tr - inject_Z n1).
    { rewrite Et1. ring. }
    assert (En : whole_units regen t2 tr1 = (n2 - n1)%Z).
    { rewrite (whole_units_unit_rate regen Eregen t2 tr1).
      rewrite (to_int_proper _ _ Eelapsed), En2.
      apply to_int_shift; [lra | exact Hn1]. }
    destruct (unit_rate_call w regen max_ammo reload Hregen Hpos Hammo Hreload
                Eregen Ereload tr1 a1 p1 t2 Hw1 Ha1 Hp1 Ep1)
      as (tr2 & a2 & p2 & Hrun2 & _ & Ha2 & Ea2 & Hp2 & Ep2 & Et2).
    + rewrite Et1. lra.
    + apply (representable_proper
               (t2 - (AmmoTracker.ammo_regen_timer tr + inject_Z n1)));
        [rewrite Et1; reflexivity | exact R2].
    + rewrite En. exact Rn2.
    + rewrite En.
      apply (representable_proper
               (AmmoTracker.ammo_regen_timer tr + inject_Z n2)); [| exact Rt2].
      rewrite Et1, Ediff. ring.
    + rewrite En.
      apply (representable_proper (have + inject_Z n2)); [| exact Ra2].
      rewrite Ea1, Ediff. ring.
    + rewrite En, Ea1, Ediff. lra.
    + rewrite En in Ea2, Et2.
      exists tr1, tr2. split; [exact Hrun1 |]. split; [exact Hrun2 |].
      unfold value. rewrite Ha2, Hp2. cbn [default from_option].
      repeat apply conj.
      * change (id a2) with a2. rewrite Ea2, Ea1, Ediff. ring.
      * exact Ep2.
      * rewrite Et2, Et1, Ediff. ring.
Qed.

Lemma regenerate_ammo_idle_and_unit_witness :
  let tr := Sample.unit_gun_tracker in
  (∀ t, t == AmmoTracker.ammo_regen_timer tr →
     ∃ tr',
       AmmoTracker.regenerate_ammo t tr = (Ok tt, tr')
       ∧ value (AmmoTracker.ammo tr') == 9
       ∧ value (AmmoTracker.ammo_regenerated tr') == 0
       ∧ AmmoTracker.ammo_regen_timer tr' == AmmoTracker.ammo_regen_timer tr
       ∧ AmmoTracker.regenerating_ammo tr' = AmmoTracker.regenerating_ammo tr)
  ∧ (1 == 1 → 1 == 1 → 0 == 0 →
     DecimalValue.representable (9 + 1) → 9 + 1 <= inject_Z 10 →
     DecimalValue.representable (AmmoTracker.ammo_regen_timer tr + 1) →
     ∀ t, Decimal.sub t (AmmoTracker.ammo_regen_timer tr) == 1 →
       ∃ tr',
         AmmoTracker.regenerate_ammo t tr = (Ok tt, tr')
         ∧ value (AmmoTracker.ammo tr') == 9 + 1
         ∧ value (AmmoTracker.ammo_regenerated tr') == 0
         ∧ AmmoTracker.ammo_regen_timer tr'
           == AmmoTracker.ammo_regen_timer tr + 1)
  ∧ (1 == 1 → 1 == 1 → 0 == 0 →
     ∀ t1 t2,
       AmmoTracker.ammo_regen_timer tr <= t1 → t1 <= t2 →
       DecimalValue.representable (t1 - AmmoTracker.ammo_regen_timer tr) →
       DecimalValue.representable (inject_Z (whole_units 1 t1 tr)) →
       DecimalValue.representable
         (AmmoTracker.ammo_regen_timer tr + inject_Z (whole_units 1 t1 tr)) →
       DecimalValue.representable (9 + inject_Z (whole_units 1 t1 tr)) →
       DecimalValue.representable
         (t2 - (AmmoTracker.ammo_regen_timer tr + inject_Z (whole_units 1 t1 tr))) →
       DecimalValue.representable
         (inject_Z (whole_units 1 t2 tr - whole_units 1 t1 tr)) →
       DecimalValue.representable
         (AmmoTracker.ammo_regen_timer tr + inject_Z (whole_units 1 t2 tr)) →
       DecimalValue.representable (9 + inject_Z (whole_units 1 t2 tr)) →
       9 + inject_Z (whole_units 1 t2 tr) <= inject_Z 10 →
       ∃ tr1 tr2,
         AmmoTracker.regenerate_ammo t1 tr = (Ok tt, tr1)
         ∧ AmmoTracker.regenerate_ammo t2 tr1 = (Ok tt, tr2)
         ∧ value (AmmoTracker.ammo tr2) == 9 + inject_Z (whole_units 1 t2 tr)
         ∧ value (AmmoTracker.ammo_regenerated tr2) == 0
         ∧ AmmoTracker.ammo_regen_timer tr2
           == AmmoTracker.ammo_regen_timer tr + inject_Z (whole_units 1 t2 tr)).
Proof.
  apply (regenerate_ammo_idle_and_unit Sample.unit_gun 1 10 1
           Sample.unit_gun_tracker 9 0); try reflexivity.
  - exists 0%Z, 0%Z. split; reflexivity.
  - exists 0%Z, 0%Z. split; reflexivity.
  - exists 9%Z, 0%Z. split; reflexivity.
  - left. reflexivity.
  - left. reflexivity.
Defined.

(** The carried fraction at work on the sample tracker: a call half a
    second after the timer credits nothing, and a call half a second
    later credits the round of the whole second. *)
Lemma regenerate_ammo_carries_half_second :
  ∃ tr1 tr2,
    AmmoTracker.regenerate_ammo (1 # 2) Sample.unit_gun_tracker = (Ok tt, tr1)
    ∧ value (AmmoTracker.ammo tr1) == 9
    ∧ AmmoTracker.regenerate_ammo 1 tr1 = (Ok tt, tr2)
    ∧ value (AmmoTracker.ammo tr2) == 10
    ∧ AmmoTracker.ammo_regen_timer tr2 == 1.
Proof.
  eexists. eexists. split; [vm_compute; reflexivity |].
  split; [vm_compute; reflexivity |].
  split; [vm_compute; reflexivity |].
  split; vm_compute; reflexivity.
Qed.

(** C8 as the specification words it fails beyond six digits.  The
    sample gun of two million rounds fires two rounds at time 0; one
    second later, at rate 1 and reload size 1, [regenerate_ammo] puts
    the count back to two million: two rounds for one second.  Built
    from a record without [reload size], the same gun after those shots
    is changed by a call with no time elapsed: the count goes from
    1999998 to two million and the regenerating flag is cleared. *)
Lemma regenerate_ammo_counterexample :
  (∃ s0 s1 tr',
     Gun.enter Sample.big_gun (VInt 500) = Ok s0
     ∧ Gun._simultaneous_shots s0 = (Ok tt, s1)
     ∧ AmmoTracker.ammo (Gun.ammo_tracker s1) = VInt 1999998
     ∧ Decimal.sub 1 (AmmoTracker.ammo_regen_timer (Gun.ammo_tracker s1)) == 1
     ∧ AmmoTracker.regenerate_ammo 1 (Gun.ammo_tracker s1) = (Ok tt, tr')
     ∧ AmmoTracker.ammo tr' = VInt 2000000)
  ∧ (∃ s0 s1 tr',
       Gun.enter Sample.big_gun_no_reload (VInt 500) = Ok s0
       ∧ Gun._simultaneous_shots s0 = (Ok tt, s1)
       ∧ AmmoTracker.ammo (Gun.ammo_tracker s1) = VInt 1999998
       ∧ AmmoTracker.regenerating_ammo (Gun.ammo_tracker s1) = true
       ∧ AmmoTracker.regenerate_ammo
           (AmmoTracker.ammo_regen_timer (Gun.ammo_tracker s1)) (Gun.ammo_tracker s1)
         = (Ok tt, tr')
       ∧ AmmoTracker.ammo tr' = VInt 2000000
       ∧ AmmoTracker.regenerating_ammo tr' = false).
Proof.
  split.
  - eexists. eexists. eexists.
    split; [vm_compute; reflexivity |]. split; [vm_compute; reflexivity |].
    split; [vm_compute; reflexivity |]. split; [vm_compute; reflexivity |].
    split; [vm_compute; reflexivity |]. vm_compute. reflexivity.
  - eexists. eexists. eexists.
    split; [vm_compute; reflexivity |]. split; [vm_compute; reflexivity |].
    split; [vm_compute; reflexivity |]. split; [vm_compute; reflexivity |].
    split; [vm_compute; reflexivity |]. split; vm_compute; reflexivity.
Qed.

(** ** Slices of arrays *)

Section Slices.

Context {A : Type}.

Lemma clip_inside (n i : nat) : (i <= n)%nat → Np.clip (Z.of_nat n) (Z.of_nat i) = Z.of_nat i.
Proof.
  intros H. unfold Np.clip.
  destruct (Z.ltb_spec (Z.of_nat i) 0); lia.
Qed.

(** A slice with both bounds inside the sequence. *)
Lemma slice_inside (lo len : nat) (l : list A) :
  (lo + len <= length l)%nat →
  Np.slice (Z.of_nat lo) (Z.of_nat lo + Z.of_nat len) l = take len (drop lo l).
Proof.
  intros H. unfold Np.slice.
  replace (Z.of_nat lo + Z.of_nat len)%Z with (Z.of_nat (lo + len)) by lia.
  rewrite !clip_inside by lia.
  replace (Z.to_nat (Z.of_nat (lo + len) - Z.of_nat lo)) with len by lia.
  now rewrite Nat2Z.id.
Qed.

Lemma set_slice_inside (lo len : nat) (new l : list A) :
  (lo + len <= length l)%nat →
  Np.set_slice (Z.of_nat lo) (Z.of_nat lo + Z.of_nat len) new l
  = take lo l ++ new ++ drop (lo + len) l.
Proof.
  intros H. unfold Np.set_slice. rewrite (slice_inside lo len l H).
  rewrite clip_inside by lia. rewrite Nat2Z.id.
  rewrite length_take, length_drop.
  now replace (len `min` (length l - lo))%nat with len by lia.
Qed.

(** A sequence read as what lies before a window, the window, and
    what lies after. *)
Lemma split_at_window (lo len : nat) (l : list A) :
  (lo + len <= length l)%nat →
  l = take lo l ++ take len (drop lo l) ++ drop (lo + len) l.
Proof.
  intros H. rewrite <- (take_drop lo l) at 1. f_equal.
  rewrite <- (take_drop len (drop lo l)) at 1. f_equal.
  rewrite drop_drop. reflexivity.
Qed.

End Slices.

(** ** The armor grid under one hit *)

Section GridRows.

Lemma five_rows (m : nat) (a : list (list Q)) :
  Np.shape_is 5 m a = true →
  ∃ r0 r1 r2 r3 r4,
    a = [r0; r1; r2; r3; r4]
    ∧ length r0 = m ∧ length r1 = m ∧ length r2 = m
    ∧ length r3 = m ∧ length r4 = m.
Proof.
  unfold Np.shape_is. rewrite andb_true_iff. intros [Hl Hr].
  apply Nat.eqb_eq in Hl.
  destruct a as [| r0 [| r1 [| r2 [| r3 [| r4 [| r5 a]]]]]]; try discriminate Hl.
  simpl in Hr. rewrite !andb_true_iff, !Nat.eqb_eq in Hr.
  exists r0, r1, r2, r3, r4. tauto.
Qed.

Lemma five_cells (l : list Q) :
  (5 <= length l)%nat → ∃ a b c d e, take 5 l = [a; b; c; d; e].
Proof.
  destruct l as [| a [| b [| c [| d [| e l]]]]]; simpl; try lia.
  intros _. now exists a, b, c, d, e.
Qed.

(** A row around its window of five cells. *)
Lemma row_window (i : nat) (row : list Q) :
  (i + 5 <= length row)%nat →
  ∃ a b c d e,
    Np.slice (Z.of_nat i) (Z.of_nat i + 5) row = [a; b; c; d; e]
    ∧ row = take i row ++ [a; b; c; d; e] ++ drop (i + 5) row.
Proof.
  intros H.
  destruct (five_cells (drop i row)) as (a & b & c & d & e & E).
  { rewrite length_drop. lia. }
  exists a, b, c, d, e. split.
  - change 5%Z with (Z.of_nat 5). now rewrite slice_inside.
  - rewrite <- E. now apply split_at_window.
Qed.

(** The cells of a row whose window lost [damage] times a kernel. *)
Lemma row_cells (pre post : list Q) (a b c d e k0 k1 k2 k3 k4 damage : Q) (j : nat) :
  default 0 ((pre ++ [a - damage * k0; b - damage * k1; c - damage * k2;
                      d - damage * k3; e - damage * k4] ++ post) !! j)
  == default 0 ((pre ++ [a; b; c; d; e] ++ post) !! j)
     - (if bool_decide (length pre <= j < length pre + 5)%nat
        then damage * default 0 ([k0; k1; k2; k3; k4] !! (j - length pre)%nat)
        else 0).
Proof.
  destruct (decide (j < length pre)%nat) as [Hlt | Hge].
  - rewrite (lookup_app_l pre), (lookup_app_l pre) by assumption.
    rewrite bool_decide_eq_false_2 by lia. ring.
  - rewrite (lookup_app_r pre), (lookup_app_r pre) by lia.
    remember (j - length pre)%nat as o eqn:Ho.
    destruct o as [| [| [| [| [| o]]]]];
      try (rewrite bool_decide_eq_true_2 by lia; simpl; ring).
    rewrite bool_decide_eq_false_2 by lia. simpl. ring.
Qed.

Lemma row_cells_outside (pre post w1 w2 : list Q) (j : nat) :
  length w1 = length w2 →
  ¬ (length pre <= j < length pre + length w1)%nat →
  (pre ++ w1 ++ post) !! j = (pre ++ w2 ++ post) !! j.
Proof.
  intros Hl Hj. destruct (decide (j < length pre)%nat) as [Hlt | Hge].
  - now rewrite (lookup_app_l pre), (lookup_app_l pre).
  - rewrite (lookup_app_r pre), (lookup_app_r pre) by lia.
    rewrite (lookup_app_r w1), (lookup_app_r w2) by lia. f_equal. lia.
Qed.

Lemma slice_window (pre w post : list Q) (i : nat) :
  length pre = i → length w = 5%nat →
  Np.slice (Z.of_nat i) (Z.of_nat i + 5) (pre ++ w ++ post) = w.
Proof.
  intros Hp Hw. change 5%Z with (Z.of_nat 5).
  rewrite slice_inside by (rewrite !length_app; lia).
  subst i. rewrite drop_app_length.
  rewrite <- Hw. apply take_app_length.
Qed.

Lemma slice_length (i : nat) (row : list Q) :
  (i + 5 <= length row)%nat →
  length (Np.slice (Z.of_nat i) (Z.of_nat i + 5) row) = 5%nat.
Proof.
  intros H. destruct (row_window i row H) as (a & b & c & d & e & Hs & _).
  now rewrite Hs.
Qed.

(** What a hit does to one row. *)
Lemma hit_row_facts (damage : Q) (i : nat) (row : list Q) (k0 k1 k2 k3 k4 : Q) :
  (i + 5 <= length row)%nat →
  let row' := hit_row damage (Z.of_nat i) row [k0; k1; k2; k3; k4] in
  length row' = length row
  ∧ (∀ j, default 0 (row' !! j)
          == default 0 (row !! j)
             - (if bool_decide (i <= j < i + 5)%nat
                then damage * default 0 ([k0; k1; k2; k3; k4] !! (j - i)%nat)
                else 0))
  ∧ (∀ j, ¬ (i <= j < i + 5)%nat → row' !! j = row !! j)
  ∧ Np.sum (Np.slice (Z.of_nat i) (Z.of_nat i + 5) row')
    == Np.sum (Np.slice (Z.of_nat i) (Z.of_nat i + 5) row)
       - damage * (k0 + k1 + k2 + k3 + k4).
Proof.
  intros H row'.
  destruct (row_window i row H) as (a & b & c & d & e & Hs & Hrow).
  assert (Hpre : length (take i row) = i) by (rewrite length_take; lia).
  assert (E : row' = take i row
                     ++ [a - damage * k0; b - damage * k1; c - damage * k2;
                         d - damage * k3; e - damage * k4]
                     ++ drop (i + 5) row).
  { subst row'. unfold hit_row. rewrite Hs.
    change 5%Z with (Z.of_nat 5). now rewrite set_slice_inside. }
  rewrite E. repeat apply conj.
  - rewrite !length_app, length_take, length_drop. simpl. lia.
  - intros j. etransitivity; [apply row_cells |].
    rewrite <- Hrow, Hpre. reflexivity.
  - intros j Hj.
    transitivity ((take i row ++ [a; b; c; d; e] ++ drop (i + 5) row) !! j).
    + apply row_cells_outside; [reflexivity | rewrite Hpre; simpl; lia].
    + now rewrite <- Hrow.
  - rewrite Hs. rewrite slice_window by (assumption || reflexivity).
    unfold Np.sum. simpl. ring.
Qed.

End GridRows.

(** ** One hit on the grid *)

Section GridHit.

Lemma cell_row (a : list (list Q)) (r c : nat) (row : list Q) :
  a !! r = Some row → cell a r c = default 0 (row !! c).
Proof. intros H. unfold cell. now rewrite H. Qed.

Lemma window_rows (i : nat) (r0 r1 r2 r3 r4 : list Q) :
  window i [r0; r1; r2; r3; r4]
  = map (Np.slice (Z.of_nat i) (Z.of_nat i + 5)) [r0; r1; r2; r3; r4].
Proof. reflexivity. Qed.

(** The window of a grid is 5 by 5 at every index of the ship. *)
Lemma window_shape (width i : nat) (g : ArmorGrid.t) :
  grid_shape width g → (i < width)%nat →
  Np.shape_is 5 5 (window i (ArmorGrid.cells g)) = true.
Proof.
  intros Hs Hi.
  destruct (five_rows _ _ Hs) as (r0 & r1 & r2 & r3 & r4 & E & L0 & L1 & L2 & L3 & L4).
  rewrite E, window_rows. unfold Np.shape_is. cbn [map length forallb].
  rewrite !slice_length by lia. reflexivity.
Qed.

(** What one call of [damage_armor_grid] does to a grid. *)
Lemma damage_armor_grid_hit (width i : nat) (damage : Q) (g : ArmorGrid.t) :
  grid_shape width g → (i < width)%nat →
  ∃ g',
    Shot.damage_armor_grid damage (Z.of_nat i) g = (Ok tt, g')
    ∧ grid_shape width g'
    ∧ ArmorGrid._minimum_armor g' = ArmorGrid._minimum_armor g
    ∧ ArmorGrid.bounds g' = ArmorGrid.bounds g
    ∧ (∀ r c, (r < 5)%nat → (i <= c < i + 5)%nat →
         cell (ArmorGrid.cells g') r c
         == cell (ArmorGrid.cells g) r c
            - damage * (ArmorGrid.ARMOR_RATING_PER_CELL_FACTOR
                        * cell ArmorGrid.POOLING_WEIGHTS r (c - i)))
    ∧ (∀ r c, ¬ ((r < 5)%nat ∧ (i <= c < i + 5)%nat) →
         ArmorGrid.cells g' !! r ≫= (.!! c) = ArmorGrid.cells g !! r ≫= (.!! c))
    ∧ Np.sum2 (window i (ArmorGrid.cells g))
      - Np.sum2 (window i (ArmorGrid.cells g'))
      == damage * ArmorGrid.ARMOR_RATING_PER_CELL_FACTOR
         * Np.sum2 ArmorGrid.POOLING_WEIGHTS.
Proof.
  intros Hs Hi. pose proof (window_shape width i g Hs Hi) as Hw.
  destruct (five_rows _ _ Hs) as (r0 & r1 & r2 & r3 & r4 & E & L0 & L1 & L2 & L3 & L4).
  destruct g as [ma cells bounds]. simpl in E, Hw. subst cells.
  set (F := ArmorGrid.ARMOR_RATING_PER_CELL_FACTOR).
  pose proof (hit_row_facts damage i r0 (F * 0) (F * (1 # 2)) (F * (1 # 2))
                (F * (1 # 2)) (F * 0) ltac:(lia)) as H0.
  pose proof (hit_row_facts damage i r1 (F * (1 # 2)) (F * 1) (F * 1)
                (F * 1) (F * (1 # 2)) ltac:(lia)) as H1.
  pose proof (hit_row_facts damage i r2 (F * (1 # 2)) (F * 1) (F * 1)
                (F * 1) (F * (1 # 2)) ltac:(lia)) as H2.
  pose proof (hit_row_facts damage i r3 (F * (1 # 2)) (F * 1) (F * 1)
                (F * 1) (F * (1 # 2)) ltac:(lia)) as H3.
  pose proof (hit_row_facts damage i r4 (F * 0) (F * (1 # 2)) (F * (1 # 2))
                (F * (1 # 2)) (F * 0) ltac:(lia)) as H4.
  cbv zeta in H0, H1, H2, H3, H4.
  destruct H0 as (A0 & B0 & C0 & D0). destruct H1 as (A1 & B1 & C1 & D1).
  destruct H2 as (A2 & B2 & C2 & D2). destruct H3 as (A3 & B3 & C3 & D3).
  destruct H4 as (A4 & B4 & C4 & D4).
  eexists. split.
  { unfold Shot.damage_armor_grid.
    cbv beta iota delta [mbind M_bind get modify lift]. cbn [ArmorGrid.cells].
    unfold window in Hw. rewrite Hw. reflexivity. }
  unfold ArmorGrid.set_cells.
  cbn [ArmorGrid.cells ArmorGrid._minimum_armor ArmorGrid.bounds].
  change (Np.set_slice 0 5 _ [r0; r1; r2; r3; r4])
    with [hit_row damage (Z.of_nat i) r0 [F * 0; F * (1 # 2); F * (1 # 2); F * (1 # 2); F * 0];
          hit_row damage (Z.of_nat i) r1 [F * (1 # 2); F * 1; F * 1; F * 1; F * (1 # 2)];
          hit_row damage (Z.of_nat i) r2 [F * (1 # 2); F * 1; F * 1; F * 1; F * (1 # 2)];
          hit_row damage (Z.of_nat i) r3 [F * (1 # 2); F * 1; F * 1; F * 1; F * (1 # 2)];
          hit_row damage (Z.of_nat i) r4 [F * 0; F * (1 # 2); F * (1 # 2); F * (1 # 2); F * 0]].
  repeat apply conj.
  - unfold grid_shape, Np.shape_is. cbn [ArmorGrid.cells length forallb].
    rewrite A0, A1, A2, A3, A4, L0, L1, L2, L3, L4.
    rewrite !Nat.eqb_refl. reflexivity.
  - reflexivity.
  - reflexivity.
  - intros r c Hr Hc.
    destruct r as [| [| [| [| [| r]]]]]; [| | | | | lia];
      erewrite !cell_row by reflexivity;
      (etransitivity;
       [first [apply B0 | apply B1 | apply B2 | apply B3 | apply B4] |]);
      rewrite bool_decide_eq_true_2 by exact Hc;
      destruct (c - i)%nat as [| [| [| [| [| o]]]]]; simpl; ring.
  - intros r c Hrc.
    destruct r as [| [| [| [| [| r]]]]]; cbn -[hit_row];
      [apply C0 | apply C1 | apply C2 | apply C3 | apply C4 | reflexivity]; lia.
  - rewrite !window_rows. unfold Np.sum2. cbn [map].
    revert D0 D1 D2 D3 D4.
    generalize (Np.sum (Np.slice (Z.of_nat i) (Z.of_nat i + 5) r0)).
    generalize (Np.sum (Np.slice (Z.of_nat i) (Z.of_nat i + 5) r1)).
    generalize (Np.sum (Np.slice (Z.of_nat i) (Z.of_nat i + 5) r2)).
    generalize (Np.sum (Np.slice (Z.of_nat i) (Z.of_nat i + 5) r3)).
    generalize (Np.sum (Np.slice (Z.of_nat i) (Z.of_nat i + 5) r4)).
    generalize (Np.sum (Np.slice (Z.of_nat i) (Z.of_nat i + 5)
                  (hit_row damage (Z.of_nat i) r0
                     [F * 0; F * (1 # 2); F * (1 # 2); F * (1 # 2); F * 0]))).
    generalize (Np.sum (Np.slice (Z.of_nat i) (Z.of_nat i + 5)
                  (hit_row damage (Z.of_nat i) r1
                     [F * (1 # 2); F * 1; F * 1; F * 1; F * (1 # 2)]))).
    generalize (Np.sum (Np.slice (Z.of_nat i) (Z.of_nat i + 5)
                  (hit_row damage (Z.of_nat i) r2
                     [F * (1 # 2); F * 1; F * 1; F * 1; F * (1 # 2)]))).
    generalize (Np.sum (Np.slice (Z.of_nat i) (Z.of_nat i + 5)
                  (hit_row damage (Z.of_nat i) r3
                     [F * (1 # 2); F * 1; F * 1; F * 1; F * (1 # 2)]))).
    generalize (Np.sum (Np.slice (Z.of_nat i) (Z.of_nat i + 5)
                  (hit_row damage (Z.of_nat i) r4
                     [F * 0; F * (1 # 2); F * (1 # 2); F * (1 # 2); F * 0]))).
    intros t4 t3 t2 t1 t0 s4 s3 s2 s1 s0 D0 D1 D2 D3 D4.
    unfold Np.sum, ArmorGrid.POOLING_WEIGHTS. simpl.
    rewrite D0, D1, D2, D3, D4. ring.
Qed.

End GridHit.

(** C4.  On the grid of a ship [width] cells wide, for every index
    [i < width] and every amount of damage, [damage_armor_grid] returns
    and takes [damage * (ARMOR_RATING_PER_CELL_FACTOR * POOLING_WEIGHTS)]
    from the 5 by 5 window [cells[0:5, i:i+5]], cell by cell; what the
    window loses in total is
    [damage * ARMOR_RATING_PER_CELL_FACTOR * sum(POOLING_WEIGHTS)]; every
    cell outside the window, the shape of the array and the other
    attributes of the grid are unchanged. *)
Theorem damage_armor_grid_window (width i : nat) (damage : Q) (g : ArmorGrid.t) :
  grid_shape width g → (i < width)%nat →
  ∃ g',
    Shot.damage_armor_grid damage (Z.of_nat i) g = (Ok tt, g')
    ∧ grid_shape width g'
    ∧ ArmorGrid._minimum_armor g' = ArmorGrid._minimum_armor g
    ∧ ArmorGrid.bounds g' = ArmorGrid.bounds g
    ∧ (∀ r c, (r < 5)%nat → (i <= c < i + 5)%nat →
         cell (ArmorGrid.cells g') r c
         == cell (ArmorGrid.cells g) r c
            - damage * (ArmorGrid.ARMOR_RATING_PER_CELL_FACTOR
                        * cell ArmorGrid.POOLING_WEIGHTS r (c - i)))
    ∧ (∀ r c, ¬ ((r < 5)%nat ∧ (i <= c < i + 5)%nat) →
         ArmorGrid.cells g' !! r ≫= (.!! c) = ArmorGrid.cells g !! r ≫= (.!! c))
    ∧ Np.sum2 (window i (ArmorGrid.cells g))
      - Np.sum2 (window i (ArmorGrid.cells g'))
      == damage * ArmorGrid.ARMOR_RATING_PER_CELL_FACTOR
         * Np.sum2 ArmorGrid.POOLING_WEIGHTS.
Proof. apply damage_armor_grid_hit. Qed.

Lemma damage_armor_grid_window_witness :
  ∃ g',
    Shot.damage_armor_grid 30 (Z.of_nat 1) Sample.grid = (Ok tt, g')
    ∧ grid_shape 3 g'
    ∧ ArmorGrid._minimum_armor g' = ArmorGrid._minimum_armor Sample.grid
    ∧ ArmorGrid.bounds g' = ArmorGrid.bounds Sample.grid
    ∧ (∀ r c, (r < 5)%nat → (1 <= c < 1 + 5)%nat →
         cell (ArmorGrid.cells g') r c
         == cell (ArmorGrid.cells Sample.grid) r c
            - 30 * (ArmorGrid.ARMOR_RATING_PER_CELL_FACTOR
                    * cell ArmorGrid.POOLING_WEIGHTS r (c - 1)))
    ∧ (∀ r c, ¬ ((r < 5)%nat ∧ (1 <= c < 1 + 5)%nat) →
         ArmorGrid.cells g' !! r ≫= (.!! c)
         = ArmorGrid.cells Sample.grid !! r ≫= (.!! c))
    ∧ Np.sum2 (window 1 (ArmorGrid.cells Sample.grid))
      - Np.sum2 (window 1 (ArmorGrid.cells g'))
      == 30 * ArmorGrid.ARMOR_RATING_PER_CELL_FACTOR
         * Np.sum2 ArmorGrid.POOLING_WEIGHTS.
Proof.
  apply (damage_armor_grid_window 3 1 30 Sample.grid); [reflexivity | lia].
Defined.

(** ** Pooled armor and damage factors *)

Section Pooling.

Lemma mapM_res {A B} (f : A → res B) (P : A → B → Prop) (l : list A) :
  Forall (λ x, ∃ y, f x = Ok y ∧ P x y) l →
  ∃ ys, mapM f l = Ok ys ∧ Forall2 P l ys.
Proof.
  induction 1 as [| x l (y & Hy & HP) _ (ys & IH & F2)].
  - exists []. split; [reflexivity | constructor].
  - exists (y :: ys). split; [| now constructor].
    cbn [mapM]. rewrite Hy. cbn [mbind res_bind]. rewrite IH. reflexivity.
Qed.

Lemma sum_nonneg (l : list Q) : Forall (λ x, 0 <= x) l → 0 <= Np.sum l.
Proof.
  induction 1 as [| x l Hx _ IH]; unfold Np.sum in *; simpl; lra.
Qed.

Lemma weighted_nonneg (u v : list Q) :
  Forall (λ x, 0 <= x) u → Forall (λ x, 0 <= x) v →
  Forall (λ x, 0 <= x) (zip_with Qmult u v).
Proof.
  intros Hu. revert v. induction Hu as [| x u Hx _ IH]; intros v Hv.
  - constructor.
  - destruct Hv as [| y v Hy Hv]; simpl; constructor.
    + now apply Qmult_le_0_compat.
    + now apply IH.
Qed.

Lemma forallb_Forall_iff {A} (f : A → bool) (P : A → Prop) (l : list A) :
  (∀ x, f x = true ↔ P x) → forallb f l = true ↔ Forall P l.
Proof.
  intros H. induction l as [| x l IH]; simpl.
  - split; [constructor | reflexivity].
  - rewrite andb_true_iff, Forall_cons, H, IH. reflexivity.
Qed.

Lemma nonneg_cells_Forall (a : list (list Q)) :
  nonneg_cells a = true ↔ Forall (Forall (λ x, 0 <= x)) a.
Proof.
  unfold nonneg_cells. apply forallb_Forall_iff. intros row.
  apply forallb_Forall_iff. intros x. apply Qle_bool_iff.
Qed.

Lemma slice_Forall {A} (P : A → Prop) (lo hi : Z) (l : list A) :
  Forall P l → Forall P (Np.slice lo hi l).
Proof. intros H. unfold Np.slice. now apply Forall_take, Forall_drop. Qed.

Lemma pooling_weights_nonneg :
  Forall (Forall (λ x, 0 <= x)) ArmorGrid.POOLING_WEIGHTS.
Proof. apply nonneg_cells_Forall. reflexivity. Qed.

Lemma sum2_weighted_nonneg (a b : list (list Q)) :
  Forall (Forall (λ x, 0 <= x)) a → Forall (Forall (λ x, 0 <= x)) b →
  0 <= Np.sum2 (zip_with (zip_with Qmult) a b).
Proof.
  intros Ha Hb. unfold Np.sum2. apply sum_nonneg.
  revert b Hb. induction Ha as [| u a Hu _ IH]; intros b Hb.
  - constructor.
  - destruct Hb as [| v b Hv Hb]; simpl; constructor.
    + apply sum_nonneg. now apply weighted_nonneg.
    + now apply IH.
Qed.

(** On a 5 by 5 array the weights broadcast cell by cell. *)
Lemma broadcast2_five (a : list (list Q)) :
  Np.shape_is 5 5 a = true →
  Np.broadcast2 Qmult ArmorGrid.POOLING_WEIGHTS a
  = Ok (zip_with (zip_with Qmult) ArmorGrid.POOLING_WEIGHTS a).
Proof.
  intros H.
  destruct (five_rows _ _ H) as (r0 & r1 & r2 & r3 & r4 & E & L0 & L1 & L2 & L3 & L4).
  subst a.
  destruct r0 as [| ? [| ? [| ? [| ? [| ? [| ? ?]]]]]]; try discriminate L0.
  destruct r1 as [| ? [| ? [| ? [| ? [| ? [| ? ?]]]]]]; try discriminate L1.
  destruct r2 as [| ? [| ? [| ? [| ? [| ? [| ? ?]]]]]]; try discriminate L2.
  destruct r3 as [| ? [| ? [| ? [| ? [| ? [| ? ?]]]]]]; try discriminate L3.
  destruct r4 as [| ? [| ? [| ? [| ? [| ? [| ? ?]]]]]]; try discriminate L4.
  reflexivity.
Qed.

(** [_pool] at an index of the ship: the weighted sum of its window. *)
Lemma pool_run (width i : nat) (g : ArmorGrid.t) :
  grid_shape width g → (i < width)%nat →
  ArmorGrid._pool (Z.of_nat i) g
  = Ok (Np.sum2 (zip_with (zip_with Qmult) ArmorGrid.POOLING_WEIGHTS
                          (window i (ArmorGrid.cells g)))).
Proof.
  intros Hs Hi. unfold ArmorGrid._pool.
  change (Np.slice2 0 5 (Z.of_nat i) (Z.of_nat i + 5) (ArmorGrid.cells g))
    with (window i (ArmorGrid.cells g)).
  rewrite broadcast2_five by (eapply window_shape; eassumption).
  reflexivity.
Qed.

Lemma window_nonneg (i : nat) (a : list (list Q)) :
  Forall (Forall (λ x, 0 <= x)) a → Forall (Forall (λ x, 0 <= x)) (window i a).
Proof.
  intros H. unfold window, Np.slice2. apply Forall_map.
  apply slice_Forall. eapply Forall_impl; [exact H |].
  intros row Hrow. now apply slice_Forall.
Qed.

Lemma pool_nonneg (width i : nat) (g : ArmorGrid.t) :
  grid_shape width g → grid_nonneg g → (i < width)%nat →
  ∃ p, ArmorGrid._pool (Z.of_nat i) g = Ok p ∧ 0 <= p.
Proof.
  intros Hs Hn Hi. eexists. split; [now apply (pool_run width) |].
  apply sum2_weighted_nonneg; [apply pooling_weights_nonneg |].
  apply window_nonneg. now apply nonneg_cells_Forall.
Qed.

Lemma middle_row_run (width : nat) (g : ArmorGrid.t) :
  grid_shape width g →
  ∃ row, ArmorGrid.middle_row g = Ok row ∧ length row = width.
Proof.
  intros Hs.
  destruct (five_rows _ _ Hs) as (r0 & r1 & r2 & r3 & r4 & E & L0 & L1 & L2 & L3 & L4).
  unfold ArmorGrid.middle_row. rewrite E. cbn [lookup list_lookup].
  eexists. split; [reflexivity |].
  unfold Np.slice, Np.clip. rewrite L2. cbn [Z.ltb Z.compare].
  rewrite length_take, length_drop. lia.
Qed.

Lemma maximum_ge_r (x y : Q) : y <= Np.maximum x y.
Proof.
  unfold Np.maximum. destruct (Qle_bool x y) eqn:E; [lra |].
  destruct (Qlt_le_dec y x) as [H | H]; [lra |].
  apply Qle_bool_iff in H. congruence.
Qed.

Lemma maximum_ge_l (x y : Q) : x <= Np.maximum x y.
Proof.
  unfold Np.maximum. destruct (Qle_bool x y) eqn:E; [| lra].
  now apply Qle_bool_iff.
Qed.

Lemma maximum_le (x y z : Q) : x <= z → y <= z → Np.maximum x y <= z.
Proof. unfold Np.maximum. now destruct (Qle_bool x y). Qed.

(** One entry of [damage_factors], for a pooled value that is not
    negative. *)
Lemma factor_run (hit_strength q : Q) :
  0 < hit_strength → 0 <= q →
  (ratio ← Np.divide q hit_strength;
   factor ← Np.divide 1 (1 + ratio);
   Ok (Np.maximum ArmorGrid._MINIMUM_DAMAGE_FACTOR factor))
  = Ok (Np.maximum ArmorGrid._MINIMUM_DAMAGE_FACTOR (1 / (1 + q / hit_strength)))
  ∧ ArmorGrid._MINIMUM_DAMAGE_FACTOR
    <= Np.maximum ArmorGrid._MINIMUM_DAMAGE_FACTOR (1 / (1 + q / hit_strength))
    <= 1.
Proof.
  intros Hh Hq.
  assert (Hr : 0 <= q / hit_strength).
  { apply Qle_shift_div_l; [exact Hh | lra]. }
  split.
  - unfold Np.divide.
    destruct (Qeq_bool hit_strength 0) eqn:E1.
    { apply Qeq_bool_eq in E1. lra. }
    cbn [mbind res_bind].
    destruct (Qeq_bool (1 + q / hit_strength) 0) eqn:E2.
    { apply Qeq_bool_eq in E2. lra. }
    reflexivity.
  - split; [apply maximum_ge_l |].
    apply maximum_le; [unfold ArmorGrid._MINIMUM_DAMAGE_FACTOR; lra |].
    apply Qle_shift_div_r; lra.
Qed.

(** [damage_factors] on the grid of a ship. *)
Lemma damage_factors_run (width : nat) (hit_strength : Q) (g : ArmorGrid.t) :
  grid_shape width g → grid_nonneg g → 0 < hit_strength →
  ∃ factors,
    ArmorGrid.damage_factors hit_strength g = Ok factors
    ∧ length factors = width
    ∧ (∀ i, (i < width)%nat →
         ∃ p, ArmorGrid._pool (Z.of_nat i) g = Ok p
              ∧ factors !! i
                = Some (Np.maximum ArmorGrid._MINIMUM_DAMAGE_FACTOR
                          (1 / (1 + Np.maximum (ArmorGrid._minimum_armor g) p
                                    / hit_strength))))
    ∧ Forall (λ f, ArmorGrid._MINIMUM_DAMAGE_FACTOR <= f <= 1) factors.
Proof.
  intros Hs Hn Hh.
  destruct (middle_row_run width g Hs) as (row & Hrow & Hlen).
  destruct (mapM_res (λ i, ArmorGrid._pool (Z.of_nat i) g)
              (λ i p, ArmorGrid._pool (Z.of_nat i) g = Ok p ∧ 0 <= p)
              (seq 0 width)) as (pools & Hpools & F1).
  { apply Forall_forall. intros i Hi. apply elem_of_seq in Hi.
    destruct (pool_nonneg width i g Hs Hn ltac:(lia)) as (p & Hp & Hp0).
    now exists p. }
  set (pooled := map (Np.maximum (ArmorGrid._minimum_armor g)) pools).
  destruct (mapM_res
              (λ p, ratio ← Np.divide p hit_strength;
                    factor ← Np.divide 1 (1 + ratio);
                    Ok (Np.maximum ArmorGrid._MINIMUM_DAMAGE_FACTOR factor))
              (λ q f, f = Np.maximum ArmorGrid._MINIMUM_DAMAGE_FACTOR
                            (1 / (1 + q / hit_strength))
                      ∧ ArmorGrid._MINIMUM_DAMAGE_FACTOR <= f <= 1)
              pooled) as (factors & Hfactors & F2).
  { subst pooled. apply Forall_map.
    assert (Hp0 : Forall (λ p, 0 <= p) pools).
    { clear -F1. induction F1 as [| i p l k [_ H] _ IH]; constructor; assumption. }
    eapply Forall_impl; [exact Hp0 |]. intros p Hp. cbv beta.
    destruct (factor_run hit_strength
                (Np.maximum (ArmorGrid._minimum_armor g) p) Hh) as [E B].
    { apply (Qle_trans _ p); [exact Hp | apply maximum_ge_r]. }
    eexists. split; [exact E |]. split; [reflexivity | exact B]. }
  exists factors. repeat apply conj.
  - unfold ArmorGrid.damage_factors, ArmorGrid._pooled_values.
    rewrite Hrow. cbn [mbind res_bind]. rewrite Hlen, Hpools.
    cbn [mbind res_bind]. exact Hfactors.
  - rewrite <- (Forall2_length _ _ _ F2). subst pooled.
    rewrite length_map, <- (Forall2_length _ _ _ F1). apply length_seq.
  - intros i Hi.
    destruct (Forall2_lookup_l _ _ _ i i F1) as (p & Hpi & Hp & _).
    { now apply lookup_seq_lt. }
    assert (Hq : pooled !! i = Some (Np.maximum (ArmorGrid._minimum_armor g) p)).
    { subst pooled.
      change (map (Np.maximum (ArmorGrid._minimum_armor g)) pools)
        with (Np.maximum (ArmorGrid._minimum_armor g) <$> pools).
      rewrite list_lookup_fmap, Hpi. reflexivity. }
    destruct (Forall2_lookup_l _ _ _ i _ F2 Hq) as (f & Hf & -> & _).
    exists p. split; assumption.
  - clear -F2. induction F2 as [| q f l k [_ H] _ IH]; constructor; assumption.
Qed.

End Pooling.

Section PooledArmor.

Lemma window_lookup (i c : nat) (row : list Q) :
  (c < 5)%nat → (i + 5 <= length row)%nat →
  row !! (i + c)%nat = Np.slice (Z.of_nat i) (Z.of_nat i + 5) row !! c.
Proof.
  intros Hc H. change 5%Z with (Z.of_nat 5). rewrite slice_inside by exact H.
  rewrite lookup_take_lt by exact Hc. now rewrite lookup_drop.
Qed.

(** What [_pool] sums is the armor pooled around the cell. *)
Lemma pool_value (width i : nat) (g : ArmorGrid.t) :
  grid_shape width g → (i < width)%nat →
  Np.sum2 (zip_with (zip_with Qmult) ArmorGrid.POOLING_WEIGHTS
                    (window i (ArmorGrid.cells g)))
  == pooled_armor i (ArmorGrid.cells g).
Proof.
  intros Hs Hi.
  destruct (five_rows _ _ Hs) as (r0 & r1 & r2 & r3 & r4 & E & L0 & L1 & L2 & L3 & L4).
  destruct (row_window i r0 ltac:(lia)) as (a0 & b0 & c0 & d0 & e0 & S0 & _).
  destruct (row_window i r1 ltac:(lia)) as (a1 & b1 & c1 & d1 & e1 & S1 & _).
  destruct (row_window i r2 ltac:(lia)) as (a2 & b2 & c2 & d2 & e2 & S2 & _).
  destruct (row_window i r3 ltac:(lia)) as (a3 & b3 & c3 & d3 & e3 & S3 & _).
  destruct (row_window i r4 ltac:(lia)) as (a4 & b4 & c4 & d4 & e4 & S4 & _).
  rewrite E. unfold pooled_armor. cbn [seq map].
  erewrite !cell_row by reflexivity.
  rewrite !window_lookup by lia.
  rewrite window_rows. cbn [map]. rewrite S0, S1, S2, S3, S4.
  unfold Np.sum2, Np.sum, ArmorGrid.POOLING_WEIGHTS. simpl. ring.
Qed.

End PooledArmor.

(** C3.  On the grid of a ship [width] cells wide whose cells are not
    negative, for a hit strength above 0, [damage_factors] returns one
    factor for each cell of the middle row without its padding; the
    factor of cell [i] is [max(0.15, 1 / (1 + pooled / hit_strength))]
    for [pooled] the armor pooled around the cell, which [_pool(i)]
    returns and which is the weighted sum of the 5 by 5 window of the
    cell, floored at the minimum armor; every factor lies in
    [0.15, 1]. *)
Theorem damage_factors_bounds (width : nat) (hit_strength : Q) (g : ArmorGrid.t) :
  grid_shape width g → grid_nonneg g → 0 < hit_strength →
  ∃ factors,
    ArmorGrid.damage_factors hit_strength g = Ok factors
    ∧ length factors = width
    ∧ (∀ i, (i < width)%nat →
         ∃ p, ArmorGrid._pool (Z.of_nat i) g = Ok p
              ∧ p == pooled_armor i (ArmorGrid.cells g)
              ∧ factors !! i
                = Some (Np.maximum ArmorGrid._MINIMUM_DAMAGE_FACTOR
                          (1 / (1 + Np.maximum (ArmorGrid._minimum_armor g) p
                                    / hit_strength))))
    ∧ Forall (λ f, ArmorGrid._MINIMUM_DAMAGE_FACTOR <= f <= 1) factors.
Proof.
  intros Hs Hn Hh.
  destruct (damage_factors_run width hit_strength g Hs Hn Hh)
    as (factors & Hf & Hl & Hi & Hb).
  exists factors. split; [exact Hf |]. split; [exact Hl |]. split; [| exact Hb].
  intros i Hlt. destruct (Hi i Hlt) as (p & Hp & Hfi).
  exists p. split; [exact Hp |]. split; [| exact Hfi].
  rewrite (pool_run width i g Hs Hlt) in Hp. injection Hp as <-.
  now apply (pool_value width).
Qed.

Lemma damage_factors_bounds_witness :
  ∃ factors,
    ArmorGrid.damage_factors 2000 Sample.grid = Ok factors
    ∧ length factors = 3%nat
    ∧ (∀ i, (i < 3)%nat →
         ∃ p, ArmorGrid._pool (Z.of_nat i) Sample.grid = Ok p
              ∧ p == pooled_armor i (ArmorGrid.cells Sample.grid)
              ∧ factors !! i
                = Some (Np.maximum ArmorGrid._MINIMUM_DAMAGE_FACTOR
                          (1 / (1 + Np.maximum (ArmorGrid._minimum_armor Sample.grid) p
                                    / 2000))))
    ∧ Forall (λ f, ArmorGrid._MINIMUM_DAMAGE_FACTOR <= f <= 1) factors.
Proof.
  apply (damage_factors_bounds 3 2000 Sample.grid);
    [reflexivity | reflexivity | lra].
Defined.

(** ** A shot at a ship *)

Section DamageShip.

(** The loop of [damage_ship]: one call of [damage_armor_grid] for each
    entry, none of which raises. *)
Lemma damage_loop_run (width : nat) (damages : list Q) :
  ∀ (start : nat) (g : ArmorGrid.t),
    grid_shape width g → (start + length damages <= width)%nat →
    Shot.damage_loop (Z.of_nat start) damages g
    = (Ok tt, after_hits start damages g)
    ∧ grid_shape width (after_hits start damages g).
Proof.
  induction damages as [| d ds IH]; intros start g Hs Hl.
  - split; [reflexivity | exact Hs].
  - simpl in Hl.
    destruct (damage_armor_grid_hit width start d g Hs ltac:(lia))
      as (g1 & Hrun & Hs1 & _).
    destruct (IH (S start) g1 Hs1 ltac:(lia)) as [Hrest Hshape].
    assert (E : after_hits start (d :: ds) g = after_hits (S start) ds g1).
    { unfold after_hits. cbn [length seq zip_with foldl fst snd].
      rewrite Hrun. reflexivity. }
    rewrite E. split; [| exact Hshape].
    cbn [Shot.damage_loop]. unfold mbind, M_bind. rewrite Hrun.
    replace (Z.of_nat start + 1)%Z with (Z.of_nat (S start)) by lia.
    exact Hrest.
Qed.

Lemma below_zero_sum (l : list Q) :
  Np.sum (filter (λ x, negb (Qle_bool 0 x)) l) <= 0.
Proof.
  induction l as [| x l IH]; [unfold Np.sum; simpl; lra |].
  rewrite filter_cons. destruct (decide _) as [H | H]; [| exact IH].
  assert (x < 0).
  { destruct (Qlt_le_dec x 0) as [Hx | Hx]; [exact Hx |].
    apply Qle_bool_iff in Hx. rewrite Hx in H. contradiction. }
  unfold Np.sum in *. simpl. lra.
Qed.

Lemma max0_nonneg (x : Q) : 0 <= Shot.max0 x.
Proof.
  unfold Shot.max0. destruct (Qle_bool x 0) eqn:E; [lra |].
  destruct (Qlt_le_dec 0 x) as [H | H]; [lra |].
  apply Qle_bool_iff in H. congruence.
Qed.

Lemma max0_le (x h : Q) : 0 <= h → x <= h → Shot.max0 x <= h.
Proof. unfold Shot.max0. now destruct (Qle_bool x 0). Qed.

Lemma clamp_nonneg (a : list (list Q)) :
  nonneg_cells (map (map (Np.maximum 0)) a) = true.
Proof.
  apply nonneg_cells_Forall. apply Forall_map, Forall_forall. intros row _.
  apply Forall_map, Forall_forall. intros x _. apply maximum_ge_l.
Qed.

Lemma clamp_shape (rows cols : nat) (a : list (list Q)) :
  Np.shape_is rows cols a = true →
  Np.shape_is rows cols (map (map (Np.maximum 0)) a) = true.
Proof.
  unfold Np.shape_is. rewrite !andb_true_iff, length_map.
  intros [H1 H2]. split; [exact H1 |].
  rewrite forallb_forall in *. intros row Hrow.
  apply in_map_iff in Hrow as (row0 & <- & Hrow0).
  rewrite length_map. now apply H2.
Qed.

(** A run of [damage_ship] on a ship whose grid has its shape. *)
Lemma damage_ship_run (width : nat) (c : Shot.Combat) (expected : list Q) :
  grid_shape width (Ship.armor_grid (Shot.ship c)) →
  grid_nonneg (Ship.armor_grid (Shot.ship c)) →
  Shot._expected_armor_damage (Shot.shot c) = Some expected →
  length expected = width →
  0 < Shot._strength (Shot.shot c) →
  0 < Shot._armor_damage_factor (Shot.shot c) →
  ∃ factors,
    ArmorGrid.damage_factors (Shot._strength (Shot.shot c))
                             (Ship.armor_grid (Shot.ship c)) = Ok factors
    ∧ length (zip_with Qmult expected factors) = width
    ∧ let hit := after_hits 0 (zip_with Qmult expected factors)
                            (Ship.armor_grid (Shot.ship c)) in
      grid_shape width hit
      ∧ Shot.damage_ship c
        = (Ok tt,
           Shot.mkCombat (Shot.shot c)
             (Ship.set_armor_grid
                (ArmorGrid.set_cells
                   (map (map (Np.maximum 0)) (ArmorGrid.cells hit)) hit)
                (Ship.set_hull
                   (Shot.max0
                      (Ship.hull (Shot.ship c)
                       + Np.sum (below_zero (ArmorGrid.cells hit))
                         / Shot._armor_damage_factor (Shot.shot c)))
                   (Ship.set_armor_grid hit (Shot.ship c))))).
Proof.
  intros Hs Hn He Hl Hst Hf.
  destruct (damage_factors_run width _ _ Hs Hn Hst) as (factors & Hfa & Hlen & _).
  assert (Hdd : length (zip_with Qmult expected factors) = width).
  { rewrite length_zip_with. lia. }
  destruct (damage_loop_run width (zip_with Qmult expected factors) 0 _ Hs
              ltac:(lia)) as [Hloop Hshape].
  exists factors. split; [exact Hfa |]. split; [exact Hdd |].
  cbv zeta. split; [exact Hshape |].
  unfold Shot.damage_ship.
  cbv beta iota delta [mbind M_bind get lift modify mret M_ret
                         Shot.on_ship Shot.on_armor_grid zoom].
  rewrite Hfa, He. cbv beta iota.
  unfold Np.broadcast. rewrite Hl, Hlen, Nat.eqb_refl. cbv beta iota.
  change 0%Z with (Z.of_nat 0). rewrite Hloop. cbv beta iota.
  cbn [Shot.ship Shot.shot Ship.armor_grid Ship.set_armor_grid].
  unfold Np.divide.
  destruct (Qeq_bool (Shot._armor_damage_factor (Shot.shot c)) 0) eqn:E.
  { apply Qeq_bool_eq in E. lra. }
  cbv beta iota.
  cbn [Shot.ship Shot.shot Ship.hull Ship.armor_grid Ship.set_armor_grid
       Ship.set_hull].
  reflexivity.
Qed.

End DamageShip.



(** ** Distributing a shot *)

Section Distribute.

Lemma vectorize_run (f : Q → Shot.number) (a : list Q) :
  (0 < length a)%nat →
  ∃ values, Shot.vectorize f a = Ok values ∧ length values = length a.
Proof.
  intros H. unfold Shot.vectorize.
  destruct a as [| x a]; [simpl in H; lia |].
  destruct (f x); eexists; (split; [reflexivity |]); apply length_map.
Qed.

Lemma distribute_run (c : Shot.Combat) (distribution : Q → Shot.number)
    (probabilities : list Q) :
  Shot.vectorize distribution (ArmorGrid.bounds (Ship.armor_grid (Shot.ship c)))
  = Ok probabilities →
  Shot.distribute distribution c
  = (Ok tt,
     Shot.mkCombat
       (Shot.set__expected_armor_damage
          (map (Qmult (Shot._armor_damage (Shot.shot c))) probabilities)
          (Shot.set__probabilities probabilities (Shot.shot c)))
       (Shot.ship c)).
Proof.
  intros H. unfold Shot.distribute.
  cbv beta iota delta [mbind M_bind get lift modify Shot.on_shot zoom].
  rewrite H. reflexivity.
Qed.

End Distribute.



(** * Further properties of the code *)

(** ** The constructor of [Weapon] *)

Section WeaponRecords.

Lemma getitem_ok (data : gmap string PyVal) (k : string) (v : PyVal) :
  Py.getitem data k = Ok v → data !! k = Some v.
Proof. unfold Py.getitem. destruct (data !! k); intros [= <-]; reflexivity. Qed.

Lemma getitem_some (data : gmap string PyVal) (k : string) (v : PyVal) :
  Py.getitem data k = Ok v → is_Some (data !! k).
Proof. intros H. rewrite (getitem_ok _ _ _ H). now eexists. Qed.

Lemma determine_mode_class (data : gmap string PyVal) (m : option string) :
  Weapon.determine_mode data = Ok m → is_Some (data !! "specClass"%string).
Proof.
  unfold Weapon.determine_mode.
  destruct (Py.getitem data "specClass") as [sc | e |] eqn:E; simpl;
    try discriminate.
  intros _. eapply getitem_some, E.
Qed.

(** The mode of a record of class "projectile" or "BEAM". *)
Lemma determine_mode_cases (data : gmap string PyVal) (m : option string) :
  Weapon.determine_mode data = Ok m →
  (data !! "specClass"%string = Some (VStr "projectile") → m = Some "GUN"%string)
  ∧ (data !! "specClass"%string = Some (VStr "BEAM") →
       ∃ v, data !! "damage/shot"%string = Some v
            ∧ m = Some (if Py.contains data v
                        then "BURST_BEAM" else "CONTINUOUS_BEAM")%string).
Proof.
  unfold Weapon.determine_mode, Py.getitem. intros H. split; intros Hc;
    rewrite Hc in H; simpl in H.
  - destruct (data !! "type"%string); simpl in H; try discriminate H.
    rewrite or_energy in H. now injection H as <-.
  - destruct (data !! "damage/shot"%string) as [v |]; simpl in H;
      try discriminate H.
    exists v. split; [reflexivity |].
    destruct (Py.contains data v); now injection H as <-.
Qed.

Lemma init_fields (data : gmap string PyVal) (w : Weapon.t) :
  Weapon.__init__ data = Ok w →
  Weapon.data w = data
  ∧ data !! "chargeup"%string = Some (Weapon.charge_up w)
  ∧ data !! "proj speed"%string = Some (Weapon.proj_speed w)
  ∧ is_Some (data !! "chargedown"%string)
  ∧ is_Some (data !! "burst size"%string)
  ∧ is_Some (data !! "burst delay"%string)
  ∧ (data !! "ammo regen"%string = None → Weapon.ammo_regen w = VDec 0)
  ∧ (data !! "ammo"%string = None → Weapon.ammo w = VStr "UNLIMITED").
Proof.
  unfold Weapon.__init__, Py.has_key. intros H.
  repeat match type of H with
         | mbind _ ?r = Ok _ =>
             let v := fresh "v" in
             destruct r as [v | ? |] eqn:?; simpl in H; try discriminate H
         | (if ?c then _ else _) = Ok _ => destruct c eqn:?
         | Ok _ = Ok _ => injection H as <-
         end; simpl;
    repeat match goal with
           | E : (if bool_decide ?P then _ else _) = Ok _ |- _ =>
               destruct (bool_decide_reflect P); simpl in E
           | E : Ok _ = Ok _ |- _ => injection E as <-
           end;
    repeat apply conj;
    try reflexivity; try (eapply getitem_ok; eassumption);
    try (eapply getitem_some; eassumption);
    intros Hnone;
    try reflexivity;
    match goal with
    | Hs : is_Some _ |- _ => rewrite Hnone in Hs; destruct Hs; discriminate
    end.
Qed.

End WeaponRecords.

(** For every record the constructor accepts, the mode is not MISSILE;
    a record of class "projectile" is a GUN whatever its [type]. *)
Theorem accepted_projectile_is_gun (data : gmap string PyVal) (w : Weapon.t) :
  Weapon.__init__ data = Ok w →
  Weapon.mode w ≠ Some "MISSILE"%string
  ∧ (data !! "specClass"%string = Some (VStr "projectile") →
     Weapon.mode w = Some "GUN"%string).
Proof.
  intros H. apply init_mode in H. split.
  - eapply determine_mode_never_missile, H.
  - apply (determine_mode_cases _ _ H).
Qed.

Lemma accepted_projectile_is_gun_witness :
  Weapon.mode Sample.gun ≠ Some "MISSILE"%string
  ∧ (Sample.gun_record !! "specClass"%string = Some (VStr "projectile") →
     Weapon.mode Sample.gun = Some "GUN"%string).
Proof.
  apply (accepted_projectile_is_gun Sample.gun_record Sample.gun).
  vm_compute. reflexivity.
Defined.

(** A record the constructor accepts has the keys "chargeup",
    "chargedown", "burst size", "burst delay", "proj speed" and
    "specClass"; the weapon holds the record, and its values of
    "chargeup" and "proj speed"; without the keys "ammo regen" and
    "ammo" the weapon regenerates [Decimal(0)] a second and its ammo is
    the string "UNLIMITED". *)
Theorem constructor_reads_record (data : gmap string PyVal) (w : Weapon.t) :
  Weapon.__init__ data = Ok w →
  Weapon.data w = data
  ∧ data !! "chargeup"%string = Some (Weapon.charge_up w)
  ∧ data !! "proj speed"%string = Some (Weapon.proj_speed w)
  ∧ is_Some (data !! "chargedown"%string)
  ∧ is_Some (data !! "burst size"%string)
  ∧ is_Some (data !! "burst delay"%string)
  ∧ is_Some (data !! "specClass"%string)
  ∧ (data !! "ammo regen"%string = None → Weapon.ammo_regen w = VDec 0)
  ∧ (data !! "ammo"%string = None → Weapon.ammo w = VStr "UNLIMITED").
Proof.
  intros H. pose proof (init_mode _ _ H) as Hm.
  apply determine_mode_class in Hm.
  destruct (init_fields _ _ H) as (H1 & H2 & H3 & H4 & H5 & H6 & H7 & H8).
  repeat apply conj; assumption.
Qed.

Lemma constructor_reads_record_witness :
  Weapon.data Sample.gun = Sample.gun_record
  ∧ Sample.gun_record !! "chargeup"%string = Some (Weapon.charge_up Sample.gun)
  ∧ Sample.gun_record !! "proj speed"%string = Some (Weapon.proj_speed Sample.gun)
  ∧ is_Some (Sample.gun_record !! "chargedown"%string)
  ∧ is_Some (Sample.gun_record !! "burst size"%string)
  ∧ is_Some (Sample.gun_record !! "burst delay"%string)
  ∧ is_Some (Sample.gun_record !! "specClass"%string)
  ∧ (Sample.gun_record !! "ammo regen"%string = None →
     Weapon.ammo_regen Sample.gun = VDec 0)
  ∧ (Sample.gun_record !! "ammo"%string = None →
     Weapon.ammo Sample.gun = VStr "UNLIMITED").
Proof.
  apply (constructor_reads_record Sample.gun_record Sample.gun).
  vm_compute. reflexivity.
Defined.

(** An accepted record of class "BEAM" has the key "damage/shot", and
    its mode is BURST_BEAM exactly when the value of "damage/shot" is a
    string that is itself a key of the record; with the Decimal the
    loader puts there the mode is CONTINUOUS_BEAM. *)
Theorem beam_mode_tests_value_as_key (data : gmap string PyVal) (w : Weapon.t) :
  Weapon.__init__ data = Ok w →
  data !! "specClass"%string = Some (VStr "BEAM") →
  ∃ v, data !! "damage/shot"%string = Some v
       ∧ (Weapon.mode w = Some "BURST_BEAM"%string
          ↔ ∃ s, v = VStr s ∧ is_Some (data !! s))
       ∧ ((∀ s, v ≠ VStr s) → Weapon.mode w = Some "CONTINUOUS_BEAM"%string).
Proof.
  intros H Hc. apply init_mode in H.
  destruct (proj2 (determine_mode_cases _ _ H) Hc) as (v & Hv & Hm).
  exists v. split; [exact Hv |]. rewrite Hm. split.
  - destruct v as [z | q | s]; simpl.
    + split; [discriminate | intros (s & E & _); discriminate E].
    + split; [discriminate | intros (s & E & _); discriminate E].
    + unfold Py.has_key. destruct (bool_decide_reflect (is_Some (data !! s))) as [Hs | Hs].
      * split; [intros _; now exists s | reflexivity].
      * split; [discriminate |]. intros (s' & [= <-] & Hs'). contradiction.
  - intros Hv'. destruct v as [z | q | s]; simpl; try reflexivity.
    now destruct (Hv' s).
Qed.

Lemma beam_mode_tests_value_as_key_witness :
  ∃ v, Sample.beam_record !! "damage/shot"%string = Some v
       ∧ (Weapon.mode Sample.beam = Some "BURST_BEAM"%string
          ↔ ∃ s, v = VStr s ∧ is_Some (Sample.beam_record !! s))
       ∧ ((∀ s, v ≠ VStr s) → Weapon.mode Sample.beam = Some "CONTINUOUS_BEAM"%string).
Proof.
  apply (beam_mode_tests_value_as_key Sample.beam_record Sample.beam);
    vm_compute; reflexivity.
Defined.

(** A constructed GUN cannot fire more often than every 0.05 seconds and
    its burst size is an int. *)
Theorem gun_refire_floor (data : gmap string PyVal) (w : Weapon.t) :
  Weapon.__init__ data = Ok w →
  Weapon.mode w = Some "GUN"%string →
  (∃ c, Py.num (Weapon.charge_down w) = Some c ∧ 1 # 20 <= c)
  ∧ ∃ n, Weapon.burst_size w = VInt n.
Proof.
  intros H Hm. split; [eapply init_gun_charge_down; eassumption |].
  revert H Hm. unfold Weapon.__init__. intros H Hmode.
  repeat match type of H with
         | mbind _ ?r = Ok _ =>
             let v := fresh "v" in
             destruct r as [v | ? |] eqn:?; simpl in H; try discriminate H
         | (if ?c then _ else _) = Ok _ => destruct c eqn:?
         | Ok _ = Ok _ => injection H as <-
         end; simpl in *;
    try (eexists; reflexivity);
    subst; simpl in *; discriminate.
Qed.

Lemma gun_refire_floor_witness :
  (∃ c, Py.num (Weapon.charge_down Sample.gun) = Some c ∧ 1 # 20 <= c)
  ∧ ∃ n, Weapon.burst_size Sample.gun = VInt n.
Proof.
  apply (gun_refire_floor Sample.gun_record Sample.gun);
    [vm_compute; reflexivity | reflexivity].
Defined.

(** ** Hit sequences *)

(** A weapon built from a record of class "BEAM" has no hit sequence:
    both beam branches stop at the undefined global [beam_tick].  The
    weapon is left as it was. *)
Theorem beam_hit_sequence_raises
    (data : gmap string PyVal) (w : Weapon.t) (fuel : nat) (distance : PyVal) :
  Weapon.__init__ data = Ok w →
  data !! "specClass"%string = Some (VStr "BEAM") →
  Gun._hit_sequence fuel w distance = Some (Raise NameError, w).
Proof.
  intros H Hc. apply init_mode in H.
  destruct (proj2 (determine_mode_cases _ _ H) Hc) as (v & _ & Hm).
  unfold Gun._hit_sequence. rewrite Hm.
  now destruct (Py.contains data v).
Qed.

Lemma beam_hit_sequence_raises_witness :
  Gun._hit_sequence 10 Sample.beam (VInt 1000) = Some (Raise NameError, Sample.beam).
Proof.
  apply (beam_hit_sequence_raises Sample.beam_record);
    vm_compute; reflexivity.
Defined.

Section Successive.

Lemma successive_loop_unbound (n : nat) (s : Gun.World) :
  (Gun.successive_loop n None s).2 = s
  ∧ ((0 < n)%nat →
     Py.eq (AmmoTracker.ammo (Gun.ammo_tracker s)) (VInt 0) = false →
     (Gun.successive_loop n None s).1 = Raise UnboundLocalError).
Proof.
  induction n as [| n [IH1 IH2]]; [split; [reflexivity | lia] |].
  cbn [Gun.successive_loop]. rewrite run_bind. cbn [get].
  destruct (Py.eq (AmmoTracker.ammo (Gun.ammo_tracker s)) (VInt 0)) eqn:E.
  - split; [exact IH1 | discriminate].
  - split; reflexivity.
Qed.

End Successive.

(** [_successive_shots] never fires: whatever the state, it leaves the
    hit times, the tracker and the clock as they are; with a burst size
    of at least one and ammo left it raises [UnboundLocalError], its
    [time] being a local that is read before it is assigned. *)
Theorem successive_shots_never_fire (s : Gun.World) (n : Z) :
  Weapon.burst_size (Gun.self s) = VInt n → (0 < n)%Z →
  Py.eq (AmmoTracker.ammo (Gun.ammo_tracker s)) (VInt 0) = false →
  Gun._successive_shots s = (Raise UnboundLocalError, s).
Proof.
  intros Hn Hpos Hammo. unfold Gun._successive_shots.
  rewrite run_bind. cbn [get]. rewrite run_bind. unfold lift at 1.
  rewrite Hn. cbn [Gun.range].
  destruct (successive_loop_unbound (Z.to_nat n) s) as [H1 H2].
  specialize (H2 ltac:(lia) Hammo).
  destruct (Gun.successive_loop (Z.to_nat n) None s) as [r s']. simpl in *.
  now subst.
Qed.

Lemma successive_shots_never_fire_witness :
  Gun._successive_shots Sample.burst_gun_start
  = (Raise UnboundLocalError, Sample.burst_gun_start).
Proof.
  apply (successive_shots_never_fire Sample.burst_gun_start 3);
    [reflexivity | lia | reflexivity].
Defined.

(** A weapon built from a record without "ammo regen" (the loader calls
    the column "ammo/sec") regenerates [Decimal(0)] rounds a second;
    [AmmoTracker] divides by it, so no hit sequence of a gun is ever
    returned for it. *)
Theorem missing_ammo_regen_stops_tracker
    (data : gmap string PyVal) (w : Weapon.t) :
  Weapon.__init__ data = Ok w →
  data !! "ammo regen"%string = None →
  AmmoTracker.__init__ w = Raise ZeroDivisionError
  ∧ ∀ fuel distance counts w',
      Gun._gun_hit_sequence fuel w distance ≠ Some (Ok counts, w').
Proof.
  intros H Hnone.
  destruct (init_fields _ _ H) as (_ & _ & _ & _ & _ & _ & Hregen & _).
  specialize (Hregen Hnone).
  assert (Ht : AmmoTracker.__init__ w = Raise ZeroDivisionError).
  { unfold AmmoTracker.__init__. rewrite Hregen. reflexivity. }
  split; [exact Ht |].
  intros fuel distance counts w'. unfold Gun._gun_hit_sequence, Gun.enter.
  rewrite Ht.
  destruct (Py.truediv distance (Weapon.proj_speed w)); simpl; discriminate.
Qed.

Lemma missing_ammo_regen_stops_tracker_witness :
  AmmoTracker.__init__ Sample.gun_no_regen = Raise ZeroDivisionError
  ∧ ∀ fuel distance counts w',
      Gun._gun_hit_sequence fuel Sample.gun_no_regen distance
      ≠ Some (Ok counts, w').
Proof.
  apply (missing_ammo_regen_stops_tracker Sample.gun_record_no_regen);
    vm_compute; reflexivity.
Defined.

Section FirstEntry.

(** The test of entry 0 is [int(t)] being 0 or 1. *)
Lemma first_bucket_test (t : Q) :
  0 <= t →
  (0 <=? Decimal.to_int t)%Z
  && Qle_bool (inject_Z (Decimal.to_int t)) Gun.time_interval
  = Qle_bool 0 t && negb (Qle_bool 2 t).
Proof.
  intros Ht. rewrite (to_int_nonneg t Ht).
  pose proof (Qfloor_le t) as Hlo. pose proof (Qlt_floor t) as Hhi.
  rewrite inject_Z_plus in Hhi. change (inject_Z 1) with 1 in Hhi.
  assert (H0 : (0 <= Qfloor t)%Z).
  { change 0%Z with (Qfloor 0). now apply Qfloor_resp_le. }
  apply eq_true_iff_eq. rewrite !andb_true_iff, !negb_true_iff.
  rewrite <- !not_true_iff_false, !Qle_bool_iff, Z.leb_le.
  unfold Gun.time_interval. change 1 with (inject_Z 1). rewrite <- Zle_Qle.
  split.
  - intros [_ H1]. split; [exact Ht |]. intros C.
    assert (2 <= Qfloor t)%Z; [| lia].
    change 2%Z with (Qfloor 2). now apply Qfloor_resp_le.
  - intros [_ H2]. split; [exact H0 |].
    apply inject_Z_lt_le_succ. change (inject_Z 1) with 1.
    apply Qnot_le_lt in H2. lra.
Qed.

Lemma filter_length_agree (f g : Q → bool) (l : list Q) :
  Forall (λ t, f t = g t) l →
  length (filter (λ t, f t) l) = length (filter (λ t, g t) l).
Proof.
  induction 1 as [| t l E _ IH]; [reflexivity |].
  rewrite !filter_cons. rewrite E.
  destruct (decide (g t)); simpl; now rewrite IH.
Qed.

End FirstEntry.

(** The first entry of a hit sequence counts the hits of the first two
    seconds, [0 <= t < 2]: those of the second second are counted again
    by entry 1. *)
Theorem first_entry_counts_two_seconds (times : list Q) :
  Forall (λ t, 0 <= t) times →
  Gun.hit_counts times !! 0%nat = Some (hits_from 0 2 times)
  ∧ Gun.hit_counts times !! 1%nat = Some (hits_from 1 2 times)
  ∧ (hits_from 1 2 times <= hits_from 0 2 times)%nat.
Proof.
  intros H. split; [| split].
  - unfold Gun.hit_counts, hits_from. cbn [app lookup list_lookup]. f_equal.
    apply filter_length_agree. eapply Forall_impl; [exact H |].
    intros t Ht. now apply first_bucket_test.
  - rewrite (hit_counts_bucket times 1) by lia. reflexivity.
  - unfold hits_from. clear H. induction times as [| t l IH]; [reflexivity |].
    rewrite !filter_cons.
    destruct (decide (Qle_bool 1 t && negb (Qle_bool 2 t))) as [H1 | H1];
      destruct (decide (Qle_bool 0 t && negb (Qle_bool 2 t))) as [H0 | H0];
      simpl; try lia.
    exfalso. apply H0. apply andb_prop_elim in H1 as [Ha Hb].
    apply andb_prop_intro. split; [| exact Hb].
    apply Is_true_true in Ha. apply Is_true_true.
    apply Qle_bool_iff in Ha. apply Qle_bool_iff. lra.
Qed.

Lemma first_entry_counts_two_seconds_witness :
  Gun.hit_counts [(3 # 2)%Q; 2%Q] !! 0%nat = Some (hits_from 0 2 [(3 # 2)%Q; 2%Q])
  ∧ Gun.hit_counts [(3 # 2)%Q; 2%Q] !! 1%nat = Some (hits_from 1 2 [(3 # 2)%Q; 2%Q])
  ∧ (hits_from 1 2 [(3 # 2)%Q; 2%Q] <= hits_from 0 2 [(3 # 2)%Q; 2%Q])%nat.
Proof.
  apply (first_entry_counts_two_seconds [(3 # 2)%Q; 2%Q]).
  repeat constructor; lra.
Defined.

(** ** The armor grid a ship is built with *)

Section FreshGrid.

Lemma init_run (rating size : Q) (width : Z) :
  (0 <= width)%Z →
  ArmorGrid.__init__ rating size width
  = Ok (ArmorGrid.mk (ArmorGrid._MINIMUM_ARMOR_FACTOR * rating)
          (replicate 5 (replicate (Z.to_nat width + 4)
                          (rating * ArmorGrid.ARMOR_RATING_PER_CELL_FACTOR)))
          (map (λ i, inject_Z (Z.of_nat i) * size) (seq 0 (Z.to_nat width)))).
Proof.
  intros H. unfold ArmorGrid.__init__.
  destruct (Z.ltb_spec (width + 4) 0) as [Hneg | _]; [lia |].
  replace (Z.to_nat (width + 4)) with (Z.to_nat width + 4)%nat by lia.
  reflexivity.
Qed.

Lemma replicate_shape (rows cols : nat) (x : Q) :
  Np.shape_is rows cols (replicate rows (replicate cols x)) = true.
Proof.
  unfold Np.shape_is. rewrite length_replicate, Nat.eqb_refl. simpl.
  apply (forallb_Forall_iff _ (λ row : list Q, length row = cols)).
  { intros row. apply Nat.eqb_eq. }
  apply Forall_replicate, length_replicate.
Qed.

Lemma replicate_window (i cols : nat) (x : Q) :
  (i + 5 <= cols)%nat →
  window i (replicate 5 (replicate cols x)) = replicate 5 (replicate 5 x).
Proof.
  intros H.
  change (replicate 5 (replicate cols x))
    with [replicate cols x; replicate cols x; replicate cols x;
          replicate cols x; replicate cols x].
  rewrite window_rows. cbn [map]. change 5%Z with (Z.of_nat 5).
  rewrite slice_inside by (rewrite length_replicate; lia).
  rewrite drop_replicate, take_replicate.
  replace (5 `min` (cols - i))%nat with 5%nat by lia. reflexivity.
Qed.

End FreshGrid.

(** For a width that is not negative the constructor of [ArmorGrid]
    returns a grid of 5 rows of [width + 4] cells, each holding a
    fifteenth of the armor rating, with one bound for each of the
    [width] cells of the ship, bound [i] being [i * cell_size]; no cell
    is negative when the rating is not. *)
Theorem constructor_builds_grid (rating size : Q) (width : Z) :
  (0 <= width)%Z →
  ∃ g,
    ArmorGrid.__init__ rating size width = Ok g
    ∧ grid_shape (Z.to_nat width) g
    ∧ length (ArmorGrid.bounds g) = Z.to_nat width
    ∧ (∀ r c, (r < 5)%nat → (c < Z.to_nat width + 4)%nat →
         (ArmorGrid.cells g !! r) ≫= (.!! c)
         = Some (rating * ArmorGrid.ARMOR_RATING_PER_CELL_FACTOR))
    ∧ (∀ i, (i < Z.to_nat width)%nat →
         ArmorGrid.bounds g !! i = Some (inject_Z (Z.of_nat i) * size))
    ∧ (0 <= rating → grid_nonneg g).
Proof.
  intros H. eexists. split; [now apply init_run |].
  cbn [ArmorGrid.cells ArmorGrid.bounds]. repeat apply conj.
  - apply replicate_shape.
  - now rewrite length_map, length_seq.
  - intros r c Hr Hc. rewrite lookup_replicate_2 by exact Hr. simpl.
    now apply lookup_replicate_2.
  - intros i Hi.
    change (map ?f ?l) with (f <$> l).
    rewrite list_lookup_fmap, lookup_seq_lt by exact Hi. reflexivity.
  - intros Hr. unfold grid_nonneg. cbn [ArmorGrid.cells].
    apply nonneg_cells_Forall. apply Forall_replicate, Forall_replicate.
    apply Qmult_le_0_compat; [exact Hr |].
    unfold ArmorGrid.ARMOR_RATING_PER_CELL_FACTOR.
    apply Qle_shift_div_l; lra.
Qed.

Lemma constructor_builds_grid_witness :
  ∃ g,
    ArmorGrid.__init__ 150 15 3 = Ok g
    ∧ grid_shape (Z.to_nat 3) g
    ∧ length (ArmorGrid.bounds g) = Z.to_nat 3
    ∧ (∀ r c, (r < 5)%nat → (c < Z.to_nat 3 + 4)%nat →
         (ArmorGrid.cells g !! r) ≫= (.!! c)
         = Some (150 * ArmorGrid.ARMOR_RATING_PER_CELL_FACTOR))
    ∧ (∀ i, (i < Z.to_nat 3)%nat →
         ArmorGrid.bounds g !! i = Some (inject_Z (Z.of_nat i) * 15))
    ∧ (0 <= 150 → grid_nonneg g).
Proof. apply (constructor_builds_grid 150 15 3). lia. Defined.

(** On a grid as the constructor returns it, the armor pooled around
    every cell of the ship is the armor rating: the fifteen weights of
    the window times a fifteenth of the rating. *)
Theorem fresh_grid_pools_rating
    (rating size : Q) (width : Z) (g : ArmorGrid.t) (i : nat) :
  ArmorGrid.__init__ rating size width = Ok g →
  (0 <= width)%Z → (i < Z.to_nat width)%nat →
  ∃ p, ArmorGrid._pool (Z.of_nat i) g = Ok p ∧ p == rating.
Proof.
  intros Hg Hw Hi. rewrite init_run in Hg by exact Hw. injection Hg as <-.
  eexists. split.
  - apply (pool_run (Z.to_nat width));
      [exact (replicate_shape 5 (Z.to_nat width + 4) _) | exact Hi].
  - cbn [ArmorGrid.cells].
    change (window i _)
      with (window i (replicate 5 (replicate (Z.to_nat width + 4)
                        (rating * ArmorGrid.ARMOR_RATING_PER_CELL_FACTOR)))).
    rewrite replicate_window by lia.
    unfold Np.sum2, Np.sum, ArmorGrid.POOLING_WEIGHTS,
      ArmorGrid.ARMOR_RATING_PER_CELL_FACTOR.
    simpl. field.
Qed.

Lemma fresh_grid_pools_rating_witness :
  ∃ p, ArmorGrid._pool (Z.of_nat 1)
         (ArmorGrid.mk (ArmorGrid._MINIMUM_ARMOR_FACTOR * 150)
            (replicate 5 (replicate 7 (150 * ArmorGrid.ARMOR_RATING_PER_CELL_FACTOR)))
            (map (λ i, inject_Z (Z.of_nat i) * 15) (seq 0 3))) = Ok p
       ∧ p == 150.
Proof.
  apply (fresh_grid_pools_rating 150 15 3); [reflexivity | lia | simpl; lia].
Defined.

Section PooledValues.

Lemma pooled_values_run (width : nat) (g : ArmorGrid.t) :
  grid_shape width g →
  ∃ pools,
    ArmorGrid._pooled_values g
    = Ok (map (Np.maximum (ArmorGrid._minimum_armor g)) pools)
    ∧ Forall2 (λ i p, ArmorGrid._pool (Z.of_nat i) g = Ok p) (seq 0 width) pools.
Proof.
  intros Hs.
  destruct (middle_row_run width g Hs) as (row & Hrow & Hlen).
  destruct (mapM_res (λ i, ArmorGrid._pool (Z.of_nat i) g)
              (λ i p, ArmorGrid._pool (Z.of_nat i) g = Ok p)
              (seq 0 width)) as (pools & Hpools & F1).
  { apply Forall_forall. intros i Hi. apply elem_of_seq in Hi.
    eexists. split; apply (pool_run width); (exact Hs || lia). }
  exists pools. split; [| exact F1].
  unfold ArmorGrid._pooled_values. rewrite Hrow. cbn [mbind res_bind].
  rewrite Hlen, Hpools. reflexivity.
Qed.

End PooledValues.

(** [_pooled_values] returns one value for each cell of the ship, the
    value pooled around the cell or, where that is less, the minimum
    armor of the grid. *)
Theorem pooled_values_floor (width : nat) (g : ArmorGrid.t) :
  grid_shape width g →
  ∃ pooled,
    ArmorGrid._pooled_values g = Ok pooled
    ∧ length pooled = width
    ∧ Forall (λ p, ArmorGrid._minimum_armor g <= p) pooled
    ∧ ∀ i, (i < width)%nat →
        ∃ p q, ArmorGrid._pool (Z.of_nat i) g = Ok p
               ∧ pooled !! i = Some q ∧ p <= q
               ∧ (ArmorGrid._minimum_armor g <= p → q = p).
Proof.
  intros Hs. destruct (pooled_values_run width g Hs) as (pools & Hrun & F).
  eexists. split; [exact Hrun |]. repeat apply conj.
  - rewrite length_map, <- (Forall2_length _ _ _ F). apply length_seq.
  - apply Forall_map, Forall_forall. intros p _. apply maximum_ge_l.
  - intros i Hi.
    destruct (Forall2_lookup_l _ _ _ i i F) as (p & Hpi & Hp).
    { now apply lookup_seq_lt. }
    exists p, (Np.maximum (ArmorGrid._minimum_armor g) p).
    split; [exact Hp |]. split.
    { change (map ?f ?l) with (f <$> l). now rewrite list_lookup_fmap, Hpi. }
    split; [apply maximum_ge_r |].
    intros Hle. unfold Np.maximum. apply Qle_bool_iff in Hle. now rewrite Hle.
Qed.

Lemma pooled_values_floor_witness :
  ∃ pooled,
    ArmorGrid._pooled_values Sample.grid = Ok pooled
    ∧ length pooled = 3%nat
    ∧ Forall (λ p, ArmorGrid._minimum_armor Sample.grid <= p) pooled
    ∧ ∀ i, (i < 3)%nat →
        ∃ p q, ArmorGrid._pool (Z.of_nat i) Sample.grid = Ok p
               ∧ pooled !! i = Some q ∧ p <= q
               ∧ (ArmorGrid._minimum_armor Sample.grid <= p → q = p).
Proof. apply (pooled_values_floor 3 Sample.grid). reflexivity. Defined.

(** ** Hits outside the ship *)

Section OutOfRange.

Lemma short_slice (i : nat) (row : list Q) :
  (length row < i + 5)%nat →
  (length (Np.slice (Z.of_nat i) (Z.of_nat i + 5) row) =? 5)%nat = false.
Proof.
  intros H. apply Nat.eqb_neq. unfold Np.slice, Np.clip.
  destruct (Z.ltb_spec (Z.of_nat i + 5) 0) as [Hn | _]; [lia |].
  destruct (Z.ltb_spec (Z.of_nat i) 0) as [Hn | _]; [lia |].
  rewrite length_take, length_drop. lia.
Qed.

End OutOfRange.

(** An index at or beyond the width of the ship has no window of five
    columns: [damage_armor_grid] raises [ValueError] there and the grid
    is as before. *)
Theorem damage_armor_grid_beyond_width
    (width i : nat) (damage : Q) (g : ArmorGrid.t) :
  grid_shape width g → (width <= i)%nat →
  Shot.damage_armor_grid damage (Z.of_nat i) g = (Raise ValueError, g).
Proof.
  intros Hs Hi.
  destruct (five_rows _ _ Hs) as (r0 & r1 & r2 & r3 & r4 & E & L0 & L1 & L2 & L3 & L4).
  unfold Shot.damage_armor_grid.
  cbv beta iota delta [mbind M_bind get modify lift].
  change (Np.slice2 0 5 (Z.of_nat i) (Z.of_nat i + 5) (ArmorGrid.cells g))
    with (window i (ArmorGrid.cells g)).
  rewrite E, window_rows. unfold Np.shape_is. cbn [map length forallb].
  rewrite (short_slice i r0) by lia. reflexivity.
Qed.

Lemma damage_armor_grid_beyond_width_witness :
  Shot.damage_armor_grid 30 (Z.of_nat 3) Sample.grid
  = (Raise ValueError, Sample.grid).
Proof.
  apply (damage_armor_grid_beyond_width 3 3 30 Sample.grid); [reflexivity | lia].
Defined.

(** ** The constructor of [Shot] *)

Section ShotTypes.

Lemma factor_cases (ty : string) :
  ((ty ∈ ["KINETIC"; "HIGH_EXPLOSIVE"; "FRAGMENTATION"; "ENERGY"]%string)
   ∧ ∃ af sf, 0 < af ∧ Shot.factor ty "armor" = Ok af
              ∧ Shot.factor ty "shield" = Ok sf)
  ∨ ((ty ∉ ["KINETIC"; "HIGH_EXPLOSIVE"; "FRAGMENTATION"; "ENERGY"]%string)
     ∧ Shot.factor ty "armor" = Raise KeyError).
Proof.
  destruct (decide (ty = "KINETIC"%string)) as [-> | N1].
  { left. split; [set_solver |]. eexists. eexists.
    split; [| split; vm_compute; reflexivity]. reflexivity. }
  destruct (decide (ty = "HIGH_EXPLOSIVE"%string)) as [-> | N2].
  { left. split; [set_solver |]. eexists. eexists.
    split; [| split; vm_compute; reflexivity]. reflexivity. }
  destruct (decide (ty = "FRAGMENTATION"%string)) as [-> | N3].
  { left. split; [set_solver |]. eexists. eexists.
    split; [| split; vm_compute; reflexivity]. reflexivity. }
  destruct (decide (ty = "ENERGY"%string)) as [-> | N4].
  { left. split; [set_solver |]. eexists. eexists.
    split; [| split; vm_compute; reflexivity]. reflexivity. }
  right. split.
  { rewrite !not_elem_of_cons, elem_of_nil. tauto. }
  unfold Shot.factor, Shot.DAMAGE_TYPE_DAMAGE_FACTORS.
  cbn [list_to_map foldr fst snd].
  rewrite !lookup_insert_ne by congruence. rewrite lookup_empty. reflexivity.
Qed.

Lemma init_shot (damage : Q) (ty : string) (beam hard : bool) (s : Shot.t) :
  Shot.__init__ damage ty beam hard = Ok s →
  ty ∈ ["KINETIC"; "HIGH_EXPLOSIVE"; "FRAGMENTATION"; "ENERGY"]%string
  ∧ 0 < Shot._armor_damage_factor s
  ∧ Shot._damage s = damage
  ∧ Shot._armor_damage s = damage * Shot._armor_damage_factor s
  ∧ Shot._strength s = Shot._armor_damage s * (if beam then 1 # 2 else 1)
  ∧ Shot._flux_hard s = hard
  ∧ Shot._probabilities s = None
  ∧ Shot._expected_armor_damage s = None.
Proof.
  unfold Shot.__init__.
  destruct (factor_cases ty) as [(Hin & af & sf & Haf & Ea & Es) | (_ & Ea)];
    rewrite Ea; [| discriminate].
  rewrite Es. cbn [mbind res_bind]. intros [= <-]. cbn.
  repeat apply conj; try reflexivity; assumption.
Qed.

Lemma init_shot_strength (damage : Q) (ty : string) (beam hard : bool) (s : Shot.t) :
  Shot.__init__ damage ty beam hard = Ok s → 0 < damage → 0 < Shot._strength s.
Proof.
  intros H Hd. destruct (init_shot _ _ _ _ _ H) as (_ & Haf & _ & Ea & Es & _).
  rewrite Es, Ea.
  assert (0 < damage * Shot._armor_damage_factor s) by nra.
  destruct beam; nra.
Qed.

End ShotTypes.

(** A shot is constructed for any of the four damage types of the
    table: its armor damage is the damage times the armor factor of its
    type, which is positive; its strength is the armor damage, halved
    for a beam, and positive when the damage is; the two caches are
    [None]. *)
Theorem shot_constructor
    (damage : Q) (ty : string) (beam hard : bool) (s : Shot.t) :
  Shot.__init__ damage ty beam hard = Ok s →
  ty ∈ ["KINETIC"; "HIGH_EXPLOSIVE"; "FRAGMENTATION"; "ENERGY"]%string
  ∧ 0 < Shot._armor_damage_factor s
  ∧ Shot._damage s = damage
  ∧ Shot._armor_damage s = damage * Shot._armor_damage_factor s
  ∧ Shot._strength s = Shot._armor_damage s * (if beam then 1 # 2 else 1)
  ∧ Shot._flux_hard s = hard
  ∧ Shot._probabilities s = None
  ∧ Shot._expected_armor_damage s = None
  ∧ (0 < damage → 0 < Shot._strength s).
Proof.
  intros H.
  destruct (init_shot _ _ _ _ _ H) as (H1 & H2 & H3 & H4 & H5 & H6 & H7 & H8).
  repeat apply conj; try assumption.
  now apply (init_shot_strength damage ty beam hard).
Qed.

Lemma shot_constructor_witness :
  "HIGH_EXPLOSIVE"%string
    ∈ ["KINETIC"; "HIGH_EXPLOSIVE"; "FRAGMENTATION"; "ENERGY"]%string
  ∧ 0 < Shot._armor_damage_factor Sample.shot
  ∧ Shot._damage Sample.shot = 1000
  ∧ Shot._armor_damage Sample.shot = 1000 * Shot._armor_damage_factor Sample.shot
  ∧ Shot._strength Sample.shot
    = Shot._armor_damage Sample.shot * (if false then 1 # 2 else 1)
  ∧ Shot._flux_hard Sample.shot = false
  ∧ Shot._probabilities Sample.shot = None
  ∧ Shot._expected_armor_damage Sample.shot = None
  ∧ (0 < 1000 → 0 < Shot._strength Sample.shot).
Proof.
  apply (shot_constructor 1000 "HIGH_EXPLOSIVE" false false Sample.shot).
  vm_compute. reflexivity.
Defined.

(** A damage type that is not in the table is refused with a
    [KeyError]. *)
Theorem shot_of_unknown_type (damage : Q) (ty : string) (beam hard : bool) :
  ty ∉ ["KINETIC"; "HIGH_EXPLOSIVE"; "FRAGMENTATION"; "ENERGY"]%string →
  Shot.__init__ damage ty beam hard = Raise KeyError.
Proof.
  intros Hty. unfold Shot.__init__.
  destruct (factor_cases ty) as [(Hin & _) | (_ & Ea)]; [contradiction |].
  now rewrite Ea.
Qed.

Lemma shot_of_unknown_type_witness :
  Shot.__init__ 100 "EMP" false false = Raise KeyError.
Proof.
  apply (shot_of_unknown_type 100 "EMP" false false).
  rewrite !not_elem_of_cons, elem_of_nil.
  repeat apply conj; (discriminate || tauto).
Defined.

(** ** Shots at a ship *)

(** A grid built for a ship no cell wide has no bounds: [distribute]
    raises [ValueError] at such a ship, and shot and ship are as
    before. *)
Theorem distribute_needs_a_cell
    (rating size : Q) (width : Z) (g : ArmorGrid.t) (c : Shot.Combat)
    (distribution : Q → Shot.number) :
  ArmorGrid.__init__ rating size width = Ok g → (width <= 0)%Z →
  Ship.armor_grid (Shot.ship c) = g →
  Shot.distribute distribution c = (Raise ValueError, c).
Proof.
  unfold ArmorGrid.__init__. intros Hg Hw Hc.
  destruct (width + 4 <? 0)%Z; [discriminate Hg |]. injection Hg as <-.
  unfold Shot.distribute.
  cbv beta iota delta [mbind M_bind get lift modify Shot.on_shot zoom].
  rewrite Hc. cbn [ArmorGrid.bounds].
  replace (Z.to_nat width) with 0%nat by lia. reflexivity.
Qed.

Lemma distribute_needs_a_cell_witness :
  let g := ArmorGrid.mk (ArmorGrid._MINIMUM_ARMOR_FACTOR * 150)
             (replicate 5 (replicate 4 (150 * ArmorGrid.ARMOR_RATING_PER_CELL_FACTOR)))
             [] in
  let c := Shot.mkCombat Sample.shot (Ship.mk 1000 500 50 g [] 0 0) in
  Shot.distribute Sample.spread c = (Raise ValueError, c).
Proof.
  intros g c.
  apply (distribute_needs_a_cell 150 15 0 g c); [reflexivity | lia | reflexivity].
Defined.

(** Before any [distribute] the cache of expected armor damage is
    [None]: at a ship with at least one cell [damage_ship] raises
    [TypeError] and shot and ship are as before. *)
Theorem damage_ship_needs_distribute (width : nat) (c : Shot.Combat) :
  (0 < width)%nat →
  grid_shape width (Ship.armor_grid (Shot.ship c)) →
  grid_nonneg (Ship.armor_grid (Shot.ship c)) →
  0 < Shot._strength (Shot.shot c) →
  Shot._expected_armor_damage (Shot.shot c) = None →
  Shot.damage_ship c = (Raise TypeError, c).
Proof.
  intros Hw Hs Hn Hst He.
  destruct (damage_factors_run width _ _ Hs Hn Hst) as (factors & Hfa & Hl & _).
  unfold Shot.damage_ship.
  cbv beta iota delta [mbind M_bind get lift].
  rewrite Hfa, He.
  destruct factors as [| f factors]; [simpl in Hl; lia |]. reflexivity.
Qed.

Lemma damage_ship_needs_distribute_witness :
  Shot.damage_ship (Shot.mkCombat Sample.shot Sample.ship)
  = (Raise TypeError, Shot.mkCombat Sample.shot Sample.ship).
Proof.
  apply (damage_ship_needs_distribute 3);
    [lia | reflexivity | reflexivity | simpl; lra | reflexivity].
Defined.

Section Firing.

(** The state [damage_ship] ends in is sound. *)
Lemma damage_ship_bounds (width : nat) (c : Shot.Combat) (expected : list Q) :
  grid_shape width (Ship.armor_grid (Shot.ship c)) →
  grid_nonneg (Ship.armor_grid (Shot.ship c)) →
  0 <= Ship.hull (Shot.ship c) →
  Shot._expected_armor_damage (Shot.shot c) = Some expected →
  length expected = width →
  0 < Shot._strength (Shot.shot c) →
  0 < Shot._armor_damage_factor (Shot.shot c) →
  ∃ c',
    Shot.damage_ship c = (Ok tt, c')
    ∧ Shot.shot c' = Shot.shot c
    ∧ 0 <= Ship.hull (Shot.ship c') <= Ship.hull (Shot.ship c)
    ∧ grid_nonneg (Ship.armor_grid (Shot.ship c'))
    ∧ grid_shape width (Ship.armor_grid (Shot.ship c')).
Proof.
  intros Hs Hn Hh He Hl Hst Hf.
  destruct (damage_ship_run width c expected Hs Hn He Hl Hst Hf)
    as (factors & Hfa & Hdd & Hshape & Hrun).
  eexists. split; [exact Hrun |].
  cbn [Shot.shot Shot.ship].
  unfold Ship.set_armor_grid, Ship.set_hull, ArmorGrid.set_cells.
  cbn [Ship.hull Ship.armor_grid ArmorGrid.cells].
  repeat apply conj; try reflexivity.
  - apply max0_nonneg.
  - apply max0_le; [exact Hh |].
    match goal with
    | |- _ + Np.sum (below_zero ?a) / _ <= _ =>
        pose proof (below_zero_sum (concat a)) as Hneg;
        assert (Np.sum (below_zero a)
                / Shot._armor_damage_factor (Shot.shot c) <= 0)
    end.
    { apply Qle_shift_div_r; [exact Hf |]. unfold below_zero. lra. }
    lra.
  - apply clamp_nonneg.
  - apply clamp_shape. exact Hshape.
Qed.

End Firing.

(** [fire] with a shot as its constructor returns it, of positive
    damage, at a ship with at least one cell, a grid of its shape
    without negative cells and a hull that is not negative: the call
    returns, the caches of the shot hold what [np.vectorize] makes of
    the distribution on the bounds of the ship and the armor damage
    times it, the hull ends between 0 and its value before, and no cell
    is negative. *)
Theorem fire_outcome
    (width : nat) (damage : Q) (ty : string) (beam hard : bool) (s : Shot.t)
    (target : Ship.t) (distribution : Q → Shot.number) :
  Shot.__init__ damage ty beam hard = Ok s → 0 < damage →
  grid_shape width (Ship.armor_grid target) →
  grid_nonneg (Ship.armor_grid target) →
  length (ArmorGrid.bounds (Ship.armor_grid target)) = width →
  (0 < width)%nat →
  0 <= Ship.hull target →
  ∃ probabilities c',
    Shot.vectorize distribution (ArmorGrid.bounds (Ship.armor_grid target))
    = Ok probabilities
    ∧ Fire.fire distribution (Shot.mkCombat s target) = (Ok tt, c')
    ∧ Shot._probabilities (Shot.shot c') = Some probabilities
    ∧ Shot._expected_armor_damage (Shot.shot c')
      = Some (map (Qmult (Shot._armor_damage s)) probabilities)
    ∧ 0 <= Ship.hull (Shot.ship c') <= Ship.hull target
    ∧ grid_nonneg (Ship.armor_grid (Shot.ship c'))
    ∧ grid_shape width (Ship.armor_grid (Shot.ship c')).
Proof.
  intros Hinit Hd Hs Hn Hb Hw Hh.
  destruct (init_shot _ _ _ _ _ Hinit) as (_ & Haf & _).
  pose proof (init_shot_strength _ _ _ _ _ Hinit Hd) as Hst.
  destruct (vectorize_run distribution
              (ArmorGrid.bounds (Ship.armor_grid target)) ltac:(lia))
    as (probabilities & Hv & Hl).
  pose proof (distribute_run (Shot.mkCombat s target) distribution
                probabilities Hv) as Hdist.
  cbn [Shot.ship Shot.shot] in Hdist.
  destruct (damage_ship_bounds width
              (Shot.mkCombat
                 (Shot.set__expected_armor_damage
                    (map (Qmult (Shot._armor_damage s)) probabilities)
                    (Shot.set__probabilities probabilities s))
                 target)
              (map (Qmult (Shot._armor_damage s)) probabilities))
    as (c' & Hrun & Hshot & Hhull & Hnn & Hsh);
    try assumption; try reflexivity.
  { rewrite length_map, Hl. exact Hb. }
  exists probabilities, c'. split; [exact Hv |]. split.
  { unfold Fire.fire. rewrite run_bind, Hdist. exact Hrun. }
  rewrite Hshot. cbn [Shot.shot Shot.ship] in *.
  repeat apply conj; try reflexivity; tauto.
Qed.

Lemma fire_outcome_witness :
  ∃ probabilities c',
    Shot.vectorize Sample.spread (ArmorGrid.bounds (Ship.armor_grid Sample.ship))
    = Ok probabilities
    ∧ Fire.fire Sample.spread (Shot.mkCombat Sample.shot Sample.ship) = (Ok tt, c')
    ∧ Shot._probabilities (Shot.shot c') = Some probabilities
    ∧ Shot._expected_armor_damage (Shot.shot c')
      = Some (map (Qmult (Shot._armor_damage Sample.shot)) probabilities)
    ∧ 0 <= Ship.hull (Shot.ship c') <= Ship.hull Sample.ship
    ∧ grid_nonneg (Ship.armor_grid (Shot.ship c'))
    ∧ grid_shape 3 (Ship.armor_grid (Shot.ship c')).
Proof.
  apply (fire_outcome 3 1000 "HIGH_EXPLOSIVE" false false);
    [vm_compute; reflexivity | lra | reflexivity | reflexivity | reflexivity
    | lia | simpl; lra].
Defined.

(** [np.vectorize] takes the type of its result from the value at the
    first bound: when the distribution returns an [int] there, every
    probability of the cache is a whole number, the value at its bound
    truncated toward zero; when it returns a [float] there, every
    probability is the value at its bound. *)
Theorem distribute_casts_to_first_type
    (c : Shot.Combat) (distribution : Q → Shot.number) (first : Q) (rest : list Q) :
  ArmorGrid.bounds (Ship.armor_grid (Shot.ship c)) = first :: rest →
  ∃ c',
    Shot.distribute distribution c = (Ok tt, c')
    ∧ ((∃ z, distribution first = Shot.NInt z) →
       Shot._probabilities (Shot.shot c')
       = Some (map (λ b, inject_Z (Shot.to_int64 (distribution b)))
                   (first :: rest)))
    ∧ ((∃ q, distribution first = Shot.NFloat q) →
       Shot._probabilities (Shot.shot c')
       = Some (map (λ b, Shot.to_float (distribution b)) (first :: rest))).
Proof.
  intros Hb.
  destruct (vectorize_run distribution
              (ArmorGrid.bounds (Ship.armor_grid (Shot.ship c))))
    as (probabilities & Hv & _).
  { rewrite Hb. simpl. lia. }
  eexists. split; [exact (distribute_run c distribution probabilities Hv) |].
  cbn [Shot.shot Shot._probabilities Shot.set__expected_armor_damage
       Shot.set__probabilities].
  rewrite Hb in Hv. unfold Shot.vectorize in Hv.
  split; intros [v Hfirst]; rewrite Hfirst in Hv; injection Hv as <-; reflexivity.
Qed.

Lemma distribute_casts_to_first_type_witness :
  ∃ c',
    Shot.distribute Sample.int_first_spread
      (Shot.mkCombat Sample.shot Sample.ship) = (Ok tt, c')
    ∧ ((∃ z, Sample.int_first_spread 0 = Shot.NInt z) →
       Shot._probabilities (Shot.shot c')
       = Some (map (λ b, inject_Z (Shot.to_int64 (Sample.int_first_spread b)))
                   [0; 15; 30]))
    ∧ ((∃ q, Sample.int_first_spread 0 = Shot.NFloat q) →
       Shot._probabilities (Shot.shot c')
       = Some (map (λ b, Shot.to_float (Sample.int_first_spread b)) [0; 15; 30])).
Proof.
  apply (distribute_casts_to_first_type
           (Shot.mkCombat Sample.shot Sample.ship) Sample.int_first_spread
           0 [15; 30]).
  reflexivity.
Defined.

(** ** Armor under fire *)

Section Lowering.

Lemma pooling_weight_nonneg (r c : nat) : 0 <= cell ArmorGrid.POOLING_WEIGHTS r c.
Proof.
  unfold cell, ArmorGrid.POOLING_WEIGHTS.
  destruct r as [| [| [| [| [| r]]]]];
    destruct c as [| [| [| [| [| c]]]]]; simpl; lra.
Qed.

Lemma cell_nonneg (a : list (list Q)) (r c : nat) :
  nonneg_cells a = true → 0 <= cell a r c.
Proof.
  intros H. apply nonneg_cells_Forall in H. unfold cell.
  destruct (a !! r) as [row |] eqn:Er; simpl; [| lra].
  destruct (row !! c) as [x |] eqn:Ec; simpl; [| lra].
  eapply (Forall_lookup_1 _ row c x); [| exact Ec].
  eapply (Forall_lookup_1 _ a r row); [exact H | exact Er].
Qed.

Lemma cell_lookup (a : list (list Q)) (r c : nat) :
  cell a r c = default 0 (a !! r ≫= (.!! c)).
Proof. reflexivity. Qed.

Lemma cell_clamp (a : list (list Q)) (r c : nat) :
  cell (map (map (Np.maximum 0)) a) r c
  = match a !! r ≫= (.!! c) with
    | Some x => Np.maximum 0 x
    | None => 0
    end.
Proof.
  unfold cell. change (map ?f ?l) with (f <$> l).
  rewrite list_lookup_fmap. destruct (a !! r) as [row |]; simpl; [| reflexivity].
  change (map ?f ?l) with (f <$> l).
  rewrite list_lookup_fmap. now destruct (row !! c).
Qed.

(** A hit of an amount that is not negative raises no cell. *)
Lemma hit_lowers (width i : nat) (damage : Q) (g g' : ArmorGrid.t) :
  grid_shape width g → (i < width)%nat → 0 <= damage →
  Shot.damage_armor_grid damage (Z.of_nat i) g = (Ok tt, g') →
  ∀ r c, cell (ArmorGrid.cells g') r c <= cell (ArmorGrid.cells g) r c.
Proof.
  intros Hs Hi Hd Hrun r c.
  destruct (damage_armor_grid_hit width i damage g Hs Hi)
    as (g1 & Hrun1 & _ & _ & _ & Hin & Hout & _).
  rewrite Hrun in Hrun1. injection Hrun1 as <-.
  destruct (decide ((r < 5)%nat ∧ (i <= c < i + 5)%nat)) as [[Hr Hc] | Hno].
  - rewrite (Hin r c Hr Hc).
    pose proof (pooling_weight_nonneg r (c - i)) as Hw.
    assert (0 <= ArmorGrid.ARMOR_RATING_PER_CELL_FACTOR) as HF.
    { unfold ArmorGrid.ARMOR_RATING_PER_CELL_FACTOR.
      apply Qle_shift_div_l; lra. }
    assert (0 <= damage * (ArmorGrid.ARMOR_RATING_PER_CELL_FACTOR
                           * cell ArmorGrid.POOLING_WEIGHTS r (c - i))).
    { apply Qmult_le_0_compat; [exact Hd |]. now apply Qmult_le_0_compat. }
    lra.
  - rewrite !cell_lookup, (Hout r c Hno). apply Qle_refl.
Qed.

Lemma after_hits_cons (start : nat) (d : Q) (ds : list Q) (g g1 : ArmorGrid.t) :
  Shot.damage_armor_grid d (Z.of_nat start) g = (Ok tt, g1) →
  after_hits start (d :: ds) g = after_hits (S start) ds g1.
Proof.
  intros Hrun. unfold after_hits. cbn [length seq zip_with foldl fst snd].
  rewrite Hrun. reflexivity.
Qed.

Lemma after_hits_lower (width : nat) (ds : list Q) :
  ∀ (start : nat) (g : ArmorGrid.t),
    grid_shape width g → (start + length ds <= width)%nat →
    Forall (λ d, 0 <= d) ds →
    ∀ r c, cell (ArmorGrid.cells (after_hits start ds g)) r c
           <= cell (ArmorGrid.cells g) r c.
Proof.
  induction ds as [| d ds IH]; intros start g Hs Hl Hds r c.
  - apply Qle_refl.
  - simpl in Hl. apply Forall_cons in Hds as [Hd Hds].
    destruct (damage_armor_grid_hit width start d g Hs ltac:(lia))
      as (g1 & Hrun & Hs1 & _).
    rewrite (after_hits_cons _ _ _ _ _ Hrun).
    apply (Qle_trans _ (cell (ArmorGrid.cells g1) r c)).
    + apply IH; [exact Hs1 | lia | exact Hds].
    + eapply hit_lowers; [exact Hs | | exact Hd | exact Hrun]. lia.
Qed.

End Lowering.

(** Armor does not heal under fire: when no expected damage of the
    cache is negative, every cell of the grid after [damage_ship] is at
    most what it was before. *)
Theorem damage_ship_never_raises_armor
    (width : nat) (c : Shot.Combat) (expected : list Q) :
  grid_shape width (Ship.armor_grid (Shot.ship c)) →
  grid_nonneg (Ship.armor_grid (Shot.ship c)) →
  Shot._expected_armor_damage (Shot.shot c) = Some expected →
  length expected = width →
  Forall (λ x, 0 <= x) expected →
  0 < Shot._strength (Shot.shot c) →
  0 < Shot._armor_damage_factor (Shot.shot c) →
  ∃ c',
    Shot.damage_ship c = (Ok tt, c')
    ∧ ∀ r col,
        cell (ArmorGrid.cells (Ship.armor_grid (Shot.ship c'))) r col
        <= cell (ArmorGrid.cells (Ship.armor_grid (Shot.ship c))) r col.
Proof.
  intros Hs Hn He Hl Hpos Hst Hf.
  destruct (damage_ship_run width c expected Hs Hn He Hl Hst Hf)
    as (factors & Hfa & Hdd & Hshape & Hrun).
  destruct (damage_factors_run width _ _ Hs Hn Hst) as (factors' & Hfa' & _ & _ & Hb).
  rewrite Hfa in Hfa'. injection Hfa' as <-.
  eexists. split; [exact Hrun |]. intros r col.
  cbn [Shot.shot Shot.ship].
  unfold Ship.set_armor_grid, Ship.set_hull, ArmorGrid.set_cells.
  cbn [Ship.hull Ship.armor_grid ArmorGrid.cells].
  pose proof (cell_nonneg _ r col Hn) as H0.
  assert (Hlow : cell (ArmorGrid.cells
                         (after_hits 0 (zip_with Qmult expected factors)
                            (Ship.armor_grid (Shot.ship c)))) r col
                 <= cell (ArmorGrid.cells (Ship.armor_grid (Shot.ship c))) r col).
  { apply (after_hits_lower width); [exact Hs | lia |].
    apply weighted_nonneg; [exact Hpos |].
    eapply Forall_impl; [exact Hb |]. intros f [Hlo _].
    unfold ArmorGrid._MINIMUM_DAMAGE_FACTOR in Hlo. lra. }
  rewrite cell_clamp. rewrite (cell_lookup (ArmorGrid.cells (after_hits _ _ _))) in Hlow.
  destruct (ArmorGrid.cells
              (after_hits 0 (zip_with Qmult expected factors)
                 (Ship.armor_grid (Shot.ship c))) !! r ≫= (.!! col)) as [x |];
    simpl in Hlow; [| exact H0].
  now apply maximum_le.
Qed.

Lemma damage_ship_never_raises_armor_witness :
  let c := Shot.mkCombat Sample.aimed_shot Sample.ship in
  ∃ c',
    Shot.damage_ship c = (Ok tt, c')
    ∧ ∀ r col,
        cell (ArmorGrid.cells (Ship.armor_grid (Shot.ship c'))) r col
        <= cell (ArmorGrid.cells (Ship.armor_grid (Shot.ship c))) r col.
Proof.
  apply (damage_ship_never_raises_armor 3
           (Shot.mkCombat Sample.aimed_shot Sample.ship)
           [1000 * 2 * (1 # 4); 1000 * 2 * (1 # 2); 1000 * 2 * (1 # 4)]);
    [reflexivity | reflexivity | reflexivity | reflexivity
    | repeat constructor; lra | simpl; lra | simpl; lra].
Defined.

(** ** Damage factors and hit strength *)

Section Strength.

Lemma maximum_mono (x y y' : Q) : y <= y' → Np.maximum x y <= Np.maximum x y'.
Proof.
  intros H. apply maximum_le; [apply maximum_ge_l |].
  apply (Qle_trans _ y'); [exact H | apply maximum_ge_r].
Qed.

Lemma ratio_shrinks (q hs hs' : Q) :
  0 <= q → 0 < hs → hs <= hs' → 0 <= q / hs' ∧ q / hs' <= q / hs.
Proof.
  intros Hq Hh Hle.
  assert (0 < hs') by lra.
  assert (H1 : 0 <= q / hs) by (apply Qle_shift_div_l; lra).
  assert (H2 : 0 <= q / hs') by (apply Qle_shift_div_l; lra).
  split; [exact H2 |].
  apply Qle_shift_div_r; [assumption |].
  assert (E : q / hs * hs == q) by (field; lra).
  assert (H3 : hs * (q / hs) <= hs' * (q / hs)).
  { apply Qmult_le_compat_r; assumption. }
  rewrite (Qmult_comm hs), (Qmult_comm hs') in H3.
  rewrite E in H3. exact H3.
Qed.

Lemma factor_grows (q hs hs' : Q) :
  0 <= q → 0 < hs → hs <= hs' →
  1 / (1 + q / hs) <= 1 / (1 + q / hs').
Proof.
  intros Hq Hh Hle. destruct (ratio_shrinks q hs hs' Hq Hh Hle) as [H0 H1].
  assert (Ha : 0 < 1 + q / hs) by lra.
  assert (Ha' : 0 < 1 + q / hs') by lra.
  apply Qle_shift_div_l; [exact Ha' |].
  assert (E : 1 / (1 + q / hs) * (1 + q / hs') == (1 + q / hs') / (1 + q / hs)).
  { field. lra. }
  rewrite E. apply Qle_shift_div_r; [exact Ha | lra].
Qed.

End Strength.

(** A stronger hit is reduced less: on one grid the damage factor of
    every cell grows (weakly) with the hit strength. *)
Theorem damage_factors_grow_with_strength
    (width : nat) (hs hs' : Q) (g : ArmorGrid.t) :
  grid_shape width g → grid_nonneg g → 0 < hs → hs <= hs' →
  ∃ factors factors',
    ArmorGrid.damage_factors hs g = Ok factors
    ∧ ArmorGrid.damage_factors hs' g = Ok factors'
    ∧ Forall2 Qle factors factors'.
Proof.
  intros Hs Hn Hh Hle.
  destruct (damage_factors_run width hs g Hs Hn Hh) as (fs & Hf & Hl & Hi & _).
  destruct (damage_factors_run width hs' g Hs Hn ltac:(lra))
    as (fs' & Hf' & Hl' & Hi' & _).
  exists fs, fs'. split; [exact Hf |]. split; [exact Hf' |].
  apply Forall2_same_length_lookup_2; [congruence |].
  intros i x y Hx Hy.
  assert (Hlt : (i < width)%nat).
  { rewrite <- Hl. eapply lookup_lt_Some, Hx. }
  destruct (Hi i Hlt) as (p & Hp & Ex). destruct (Hi' i Hlt) as (p' & Hp' & Ey).
  rewrite Hp in Hp'. injection Hp' as <-.
  rewrite Ex in Hx. rewrite Ey in Hy. injection Hx as <-. injection Hy as <-.
  destruct (pool_nonneg width i g Hs Hn Hlt) as (p0 & Hp0 & Hpos).
  rewrite Hp in Hp0. injection Hp0 as <-.
  apply maximum_mono, factor_grows; [| exact Hh | exact Hle].
  apply (Qle_trans _ p); [exact Hpos | apply maximum_ge_r].
Qed.

Lemma damage_factors_grow_with_strength_witness :
  ∃ factors factors',
    ArmorGrid.damage_factors 50 Sample.grid = Ok factors
    ∧ ArmorGrid.damage_factors 2000 Sample.grid = Ok factors'
    ∧ Forall2 Qle factors factors'.
Proof.
  apply (damage_factors_grow_with_strength 3 50 2000 Sample.grid);
    [reflexivity | reflexivity | lra | lra].
Defined.

(** ** Simultaneous shots *)

Section Simultaneous.

Lemma spend_ammo_run (t : Q) (s : Gun.World) (a : Z) :
  AmmoTracker.ammo (Gun.ammo_tracker s) = VInt a →
  ∃ tr,
    Gun.spend_ammo t s = (Ok tt, Gun.set_ammo_tracker tr s)
    ∧ AmmoTracker.ammo tr = VInt (a - 1).
Proof.
  intros Ha. unfold Gun.spend_ammo.
  cbv beta iota delta [mbind M_bind get lift modify when mret M_ret
                         Gun.tracker zoom].
  rewrite Ha. cbn [Py.sub].
  destruct (AmmoTracker.regenerating_ammo (Gun.ammo_tracker s));
    cbn [negb]; eexists; split; reflexivity.
Qed.

Lemma simultaneous_loop_run (n : nat) :
  ∀ (s : Gun.World) (a : Z),
    AmmoTracker.ammo (Gun.ammo_tracker s) = VInt a → (0 <= a)%Z →
    ∃ s',
      Gun.simultaneous_loop n s = (Ok tt, s')
      ∧ Gun.times s'
        = Gun.times s
          ++ replicate (n `min` Z.to_nat a)
               (Decimal.add (Gun.time s) (Gun.travel_time s))
      ∧ AmmoTracker.ammo (Gun.ammo_tracker s')
        = VInt (a - Z.of_nat (n `min` Z.to_nat a))
      ∧ Gun.time s' = Gun.time s
      ∧ Gun.travel_time s' = Gun.travel_time s
      ∧ Gun.self s' = Gun.self s.
Proof.
  induction n as [| n IH]; intros s a Ha Hpos.
  - exists s. cbn [Gun.simultaneous_loop]. rewrite app_nil_r.
    repeat apply conj; try reflexivity.
    rewrite Ha. f_equal. simpl. lia.
  - cbn [Gun.simultaneous_loop]. rewrite run_bind. cbn [get].
    rewrite Ha. cbn [Py.eq].
    destruct (Z.eqb_spec a 0) as [-> | Hne].
    + destruct (IH s 0%Z Ha ltac:(lia)) as (s' & Hrun & Ht & Hammo & Hrest).
      exists s'. split; [exact Hrun |].
      replace (S n `min` Z.to_nat 0)%nat with (n `min` Z.to_nat 0)%nat by lia.
      repeat apply conj; tauto.
    + rewrite run_bind. unfold modify at 1. rewrite run_bind.
      destruct (spend_ammo_run (Gun.time s)
                  (Gun.append_times
                     (Decimal.add (Gun.time s) (Gun.travel_time s)) s) a Ha)
        as (tr & Hspend & Htr).
      rewrite Hspend.
      destruct (IH (Gun.set_ammo_tracker tr
                      (Gun.append_times
                         (Decimal.add (Gun.time s) (Gun.travel_time s)) s))
                   (a - 1)%Z Htr ltac:(lia))
        as (s' & Hrun & Ht & Hammo & Htime & Htravel & Hself).
      exists s'. split; [exact Hrun |].
      cbn [Gun.set_ammo_tracker Gun.append_times Gun.times Gun.time
           Gun.travel_time Gun.self] in Ht, Htime, Htravel, Hself.
      replace (S n `min` Z.to_nat a)%nat
        with (S (n `min` Z.to_nat (a - 1)))%nat by lia.
      repeat apply conj; try assumption.
      * rewrite Ht, <- app_assoc. reflexivity.
      * rewrite Hammo. f_equal. lia.
Qed.

End Simultaneous.

(** [_simultaneous_shots] with a burst of [n] and [a] rounds left fires
    as many shots as it can, the lesser of the two: each is recorded at
    the clock plus the travel time, the ammo goes down by their number,
    and the clock does not move. *)
Theorem simultaneous_shots_fire_what_is_left (s : Gun.World) (n a : Z) :
  Weapon.burst_size (Gun.self s) = VInt n →
  AmmoTracker.ammo (Gun.ammo_tracker s) = VInt a → (0 <= a)%Z →
  ∃ s',
    Gun._simultaneous_shots s = (Ok tt, s')
    ∧ Gun.times s'
      = Gun.times s
        ++ replicate (Z.to_nat n `min` Z.to_nat a)
             (Decimal.add (Gun.time s) (Gun.travel_time s))
    ∧ AmmoTracker.ammo (Gun.ammo_tracker s')
      = VInt (a - Z.of_nat (Z.to_nat n `min` Z.to_nat a))
    ∧ Gun.time s' = Gun.time s
    ∧ Gun.travel_time s' = Gun.travel_time s
    ∧ Gun.self s' = Gun.self s.
Proof.
  intros Hn Ha Hpos. unfold Gun._simultaneous_shots.
  rewrite run_bind. cbn [get]. rewrite run_bind. unfold lift at 1.
  rewrite Hn. cbn [Gun.range].
  apply simultaneous_loop_run; assumption.
Qed.

Lemma simultaneous_shots_fire_what_is_left_witness :
  ∃ s',
    Gun._simultaneous_shots Sample.burst_gun_start = (Ok tt, s')
    ∧ Gun.times s'
      = Gun.times Sample.burst_gun_start
        ++ replicate (Z.to_nat 3 `min` Z.to_nat 10)
             (Decimal.add (Gun.time Sample.burst_gun_start)
                          (Gun.travel_time Sample.burst_gun_start))
    ∧ AmmoTracker.ammo (Gun.ammo_tracker s')
      = VInt (10 - Z.of_nat (Z.to_nat 3 `min` Z.to_nat 10))
    ∧ Gun.time s' = Gun.time Sample.burst_gun_start
    ∧ Gun.travel_time s' = Gun.travel_time Sample.burst_gun_start
    ∧ Gun.self s' = Gun.self Sample.burst_gun_start.
Proof.
  apply (simultaneous_shots_fire_what_is_left Sample.burst_gun_start 3 10);
    [reflexivity | reflexivity | lia].
Defined.
